(** * mygpo: subscription reconciliation and podcast lookup

    A shallow embedding of

    - [mygpo/api/simple.py]: the upload of a device's subscription list
      ([set_subscriptions]) and its download ([get_subscriptions]), over a
      store made of the device table, the podcast table and the log of
      subscription actions; the view [subscriptions] with [check_format],
      and the list formats ([parse_subscription], [format_podcast_list]);
    - [mygpo/db/couchdb/podcast.py]: the lookups of a podcast by id and by
      old id, the batch lookups, the wrappers that unwrap podcast groups,
      the cached entry points, search, and the two functions that update a
      podcast, over the main database, the cache and the signal bus;
    - [mygpo/api/advanced/episode.py]: the view [chapters] and
      [update_chapters], over the podcast, episode, device and chapter
      tables.

    A Python function that may raise returns a [Result]; a function that
    reads or writes the store is a computation in the state-and-exception
    monad [M] over that store. Code that the files call and that is
    not among the sources is either a field of a class [Externals] or a
    definition whose comment starts with "Modelled from the spec". *)

From Stdlib Require Import ZArith String List Lia.
From stdpp Require Import base option list gmap sets strings.

Local Open Scope string_scope.

(** ** Python exceptions and effects *)

Module Py.

(** The exceptions the two modules raise or let through. *)
Inductive Exn : Type :=
| QueryParameterMissing (param : string)
| DoesNotExist
| Http404
| TypeError
| IndexError
| AttributeError
| ValueError
| UnboundLocalError
| RequestFailed
| ResourceConflict
| MultipleResultsFound.

Inductive Result (A : Type) : Type :=
| Ok (a : A)
| Raise (e : Exn).
Arguments Ok {A} a.
Arguments Raise {A} e.

(** A computation over a store [S]: it returns or raises, and hands back
    the store as it is at that point (what was written before an exception
    stays written). *)
Definition M (S A : Type) : Type := S -> Result A * S.

Definition ret {S A} (a : A) : M S A := fun s => (Ok a, s).

Definition raise {S A} (e : Exn) : M S A := fun s => (Raise e, s).

Definition bind {S A B} (c : M S A) (k : A -> M S B) : M S B :=
  fun s =>
    match c s with
    | (Ok a, s') => k a s'
    | (Raise e, s') => (Raise e, s')
    end.

Definition gets {S A} (f : S -> A) : M S A := fun s => (Ok (f s), s).

Definition modify {S} (f : S -> S) : M S unit := fun s => (Ok tt, f s).

(** [try: c except e: h] *)
Definition try_except {S A} (c : M S A) (e : Exn -> bool) (h : M S A) : M S A :=
  fun s =>
    match c s with
    | (Ok a, s') => (Ok a, s')
    | (Raise x, s') => if e x then h s' else (Raise x, s')
    end.

(** [for x in xs: body] *)
Fixpoint for_each {S A} (xs : list A) (body : A -> M S unit) : M S unit :=
  match xs with
  | [] => ret tt
  | x :: rest => bind (body x) (fun _ => for_each rest body)
  end.

(** [map(f, xs)] for an [f] that may raise. *)
Fixpoint map_result {A B} (f : A -> Result B) (xs : list A) : Result (list B) :=
  match xs with
  | [] => Ok []
  | x :: rest =>
      match f x with
      | Raise e => Raise e
      | Ok y =>
          match map_result f rest with
          | Raise e => Raise e
          | Ok ys => Ok (y :: ys)
          end
      end
  end.

Definition lift {S A} (r : Result A) : M S A := fun s => (r, s).

End Py.

Import Py.

Notation "'let*' x ':=' c 'in' k" := (Py.bind c (fun x => k))
  (at level 10, x pattern, c at level 200, k at level 200).

(** ** [mygpo/api/simple.py] *)

Module Simple.

Inductive Action : Type := SUBSCRIBE_ACTION | UNSUBSCRIBE_ACTION.

#[export] Instance Action_eq_dec : EqDecision Action.
Proof. solve_decision. Defined.

(** A row of the [Podcast] table. Reconciliation reads and writes no
    column but [url], the table's unique key. *)
Record Podcast : Type := { url : string }.

#[export] Instance Podcast_eq_dec : EqDecision Podcast.
Proof. solve_decision. Defined.

(** A device is identified by its owner and its uid: the pair is the key
    of the device table, and what a [SubscriptionAction] refers to. *)
Abbreviation DeviceKey := (string * string)%type.

(** The other columns of a [Device] row. *)
Record Device : Type := {
  type : string;
  name : string;
  deleted : bool
}.

#[export] Instance Device_eq_dec : EqDecision Device.
Proof. solve_decision. Defined.

Record SubscriptionAction : Type := {
  podcast : Podcast;
  device : DeviceKey;
  action : Action
}.

#[export] Instance SubscriptionAction_eq_dec : EqDecision SubscriptionAction.
Proof. solve_decision. Defined.

(** The relational store: the device table keyed by (user, uid), the
    urls of the podcast table, and the action log. The log is kept in the
    order in which the entries were saved, which stands for their
    timestamps: of two entries the later one is the more recent. *)
Record Store : Type := {
  devices : gmap DeviceKey Device;
  podcasts : gset string;
  log : list SubscriptionAction
}.

Record HttpResponse : Type := { content : string; mimetype : string }.

Definition concerns (dev : DeviceKey) (p : Podcast) (a : SubscriptionAction) : Prop :=
  device a = dev ∧ podcast a = p.

#[export] Instance concerns_dec dev p a : Decision (concerns dev p a).
Proof. unfold concerns. apply _. Defined.

(** Modelled from the spec: [Device.get_subscriptions] is declared in
    [mygpo.api.models], which is not among the sources. The current
    subscriptions of a device are derived from the log: the podcasts whose
    most recent action for that device is SUBSCRIBE. The result lists, in
    log order, each SUBSCRIBE entry of the device that no later entry for
    the same device and podcast follows. *)
Fixpoint current_subscriptions (dev : DeviceKey) (l : list SubscriptionAction)
  : list SubscriptionAction :=
  match l with
  | [] => []
  | a :: later =>
      if decide (device a = dev ∧ action a = SUBSCRIBE_ACTION
                 ∧ Forall (fun b => ¬ concerns dev (podcast a) b) later)
      then a :: current_subscriptions dev later
      else current_subscriptions dev later
  end.

Definition Device_get_subscriptions (dev : DeviceKey) : M Store (list SubscriptionAction) :=
  gets (fun st => current_subscriptions dev (log st)).

(** [device.save()] *)
Definition Device_save (dev : DeviceKey) (d : Device) : M Store unit :=
  modify (fun st => {| devices := <[dev := d]> (devices st);
                       podcasts := podcasts st; log := log st |}).

(** [get_object_or_404(Device, uid=, user=, deleted=False)] *)
Definition get_object_or_404_Device (uid user : string) : M Store Device :=
  fun st =>
    match devices st !! (user, uid) with
    | Some d => if deleted d then (Raise Http404, st) else (Ok d, st)
    | None => (Raise Http404, st)
    end.

(** [Podcast.objects.get(url=)] *)
Definition Podcast_objects_get (u : string) : M Store Podcast :=
  fun st =>
    if decide (u ∈ podcasts st) then (Ok {| url := u |}, st)
    else (Raise DoesNotExist, st).

(** [Podcast.objects.get_or_create(url=)] *)
Definition Podcast_objects_get_or_create (u : string) : M Store (Podcast * bool) :=
  fun st =>
    if decide (u ∈ podcasts st) then (Ok ({| url := u |}, false), st)
    else (Ok ({| url := u |}, true),
          {| devices := devices st; podcasts := {[u]} ∪ podcasts st; log := log st |}).

(** [s.save()] for a new [SubscriptionAction]. *)
Definition SubscriptionAction_save (s : SubscriptionAction) : M Store unit :=
  modify (fun st => {| devices := devices st; podcasts := podcasts st;
                       log := log st ++ [s] |}).

Definition get_subscriptions (user device_uid : string) : M Store (list Podcast) :=
  let* _ := get_object_or_404_Device device_uid user in
  let* subs := Device_get_subscriptions (user, device_uid) in
  ret (podcast <$> subs).

(** [device.deleted = False] *)
Definition undelete (d : Device) : Device :=
  {| type := type d; name := name d; deleted := false |}.

Section Views.

(** The default of the [deleted] column for a new [Device] row is part
    of the model declaration, which is not among the sources. *)
Variable Device_deleted_default : bool.

(** [Device.objects.get_or_create(user=, uid=, defaults={type, name})] *)
Definition Device_objects_get_or_create (user uid : string)
    (default_type default_name : string) : M Store (Device * bool) :=
  fun st =>
    match devices st !! (user, uid) with
    | Some d => (Ok (d, false), st)
    | None =>
        let d := {| type := default_type; name := default_name;
                    deleted := Device_deleted_default |} in
        (Ok (d, true),
         {| devices := <[(user, uid) := d]> (devices st);
            podcasts := podcasts st; log := log st |})
    end.

(** The row [device] is the one stored under (user, device_uid); this
    pair is what its [save] and the new log entries refer to. *)
Definition set_subscriptions (urls : gset string) (user device_uid : string)
  : M Store HttpResponse :=
  let* (device, created) :=
    Device_objects_get_or_create user device_uid "other" device_uid in
  (* undelete a previously deleted device *)
  let* _ :=
    (if deleted device
     then Device_save (user, device_uid) (undelete device)
     else ret tt) in
  let* subs := Device_get_subscriptions (user, device_uid) in
  let old := (fun s => url (podcast s)) <$> subs in
  let new := filter (fun p => p ∉ old) (elements urls) in
  let rem := filter (fun p => p ∉ urls) old in
  let* _ := for_each rem (fun r =>
    let* p := Podcast_objects_get r in
    SubscriptionAction_save
      {| podcast := p; device := (user, device_uid); action := UNSUBSCRIBE_ACTION |}) in
  let* _ := for_each new (fun n =>
    let* (p, created) := Podcast_objects_get_or_create n in
    SubscriptionAction_save
      {| podcast := p; action := SUBSCRIBE_ACTION; device := (user, device_uid) |}) in
  ret {| content := ""; mimetype := "text/plain" |}.

End Views.

(** *** Notions the statements use *)

(** Every log entry refers to a row of the podcast table (the foreign key
    of [SubscriptionAction.podcast]). *)
Definition referential_integrity (st : Store) : Prop :=
  Forall (fun a => url (podcast a) ∈ podcasts st) (log st).

#[export] Instance referential_integrity_dec st : Decision (referential_integrity st).
Proof. unfold referential_integrity. apply _. Defined.

(** The urls a device is subscribed to, as [set_subscriptions] reads
    them ([old]), and as a set. *)
Definition subscribed_urls (dev : DeviceKey) (l : list SubscriptionAction) : list string :=
  (fun s => url (podcast s)) <$> current_subscriptions dev l.

Definition subscribed (dev : DeviceKey) (l : list SubscriptionAction) : gset string :=
  list_to_set (subscribed_urls dev l).

Definition entry (k : Action) (dev : DeviceKey) (u : string) : SubscriptionAction :=
  {| podcast := {| url := u |}; device := dev; action := k |}.

(** The most recent action of the log [l] for the device and the podcast,
    if there is one. *)
Definition last_action (dev : DeviceKey) (p : Podcast) (l : list SubscriptionAction)
  : option Action :=
  action <$> last (filter (concerns dev p) l).

(** The lists [rem] and [new] that [set_subscriptions] computes for the
    submitted set [urls] against the log [l]. *)
Definition removed_urls (urls : gset string) (dev : DeviceKey)
    (l : list SubscriptionAction) : list string :=
  filter (fun p => p ∉ urls) (subscribed_urls dev l).

Definition added_urls (urls : gset string) (dev : DeviceKey)
    (l : list SubscriptionAction) : list string :=
  filter (fun p => p ∉ subscribed_urls dev l) (elements urls).

(** The row of device (u, i) once a subscription upload has looked it up:
    the stored row with [deleted] cleared, or the freshly created one. *)
Definition registered (st : Store) (u i : string) : Device :=
  match devices st !! (u, i) with
  | Some d => undelete d
  | None => {| type := "other"; name := i; deleted := false |}
  end.

(** How often the list [l] holds the entry of kind [k] for url [u]. *)
Definition occurrences (k : Action) (u : string) (l : list SubscriptionAction) : nat :=
  length (filter (fun a => action a = k ∧ url (podcast a) = u) l).

End Simple.

(** ** [mygpo/db/couchdb/podcast.py] *)

Module PodcastDb.

(** *** Values *)

(** The Python values that reach the lookups as arguments and that CouchDB
    hands back as components of view keys. *)
Inductive Atom : Type :=
| ANone
| AInt (n : Z)
| AStr (s : string).

#[export] Instance Atom_eq_dec : EqDecision Atom.
Proof. solve_decision. Defined.

(** A view key: a single value or a JSON array. *)
Inductive Key : Type :=
| Single (a : Atom)
| Composite (l : list Atom).

#[export] Instance Key_eq_dec : EqDecision Key.
Proof. solve_decision. Defined.

(** Python truth of an argument: [not x] holds of [None], [0] and ['']. *)
Definition truthy (a : Atom) : bool :=
  match a with
  | ANone => false
  | AInt n => negb (n =? 0)%Z
  | AStr s => negb (String.eqb s "")
  end.

(** [key[1]] *)
Definition key_item1 (k : Key) : Result Atom :=
  match k with
  | Composite l =>
      match l !! 1%nat with
      | Some a => Ok a
      | None => Raise IndexError
      end
  | Single (AStr s) =>
      match String.get 1 s with
      | Some c => Ok (AStr (String c EmptyString))
      | None => Raise IndexError
      end
  | Single (AInt _) => Raise TypeError
  | Single ANone => Raise TypeError
  end.

(** *** Documents and objects *)

Record Podcast : Type := {
  podcast_id : string;
  rev : nat;
  title : string;
  description : string;
  twitter : string;
  related_podcasts : list string
}.

#[export] Instance Podcast_eq_dec : EqDecision Podcast.
Proof. solve_decision. Defined.

Definition get_id (p : Podcast) : string := podcast_id p.

Record PodcastGroup : Type := {
  group_id : string;
  group_title : string;
  podcasts : list Podcast
}.

#[export] Instance PodcastGroup_eq_dec : EqDecision PodcastGroup.
Proof. solve_decision. Defined.

(** A stored document, by its [doc_type]. *)
Inductive Doc : Type :=
| DocPodcast (p : Podcast)
| DocPodcastGroup (g : PodcastGroup)
| DocOther (doc_type : string).

#[export] Instance Doc_eq_dec : EqDecision Doc.
Proof. solve_decision. Defined.

(** What a lookup hands to its caller: an object of class [Podcast] or of
    class [PodcastGroup]. *)
Inductive Obj : Type :=
| APodcast (p : Podcast)
| AGroup (g : PodcastGroup).

#[export] Instance Obj_eq_dec : EqDecision Obj.
Proof. solve_decision. Defined.

Definition is_podcast (o : Obj) : bool :=
  match o with APodcast _ => true | AGroup _ => false end.

(** A row of a view result, with [include_docs]; [doc] is null when the
    document of the row is gone. *)
Record Row : Type := {
  key : Key;
  id : string;
  doc : option Doc
}.

(** Modelled from the spec: [PodcastGroup.get_podcast_by_id] is declared
    in [mygpo.core.models], which is not among the sources. The group
    "exposes get member by id": the first member with that id, [None] when
    there is none. *)
Definition get_podcast_by_id (pg : PodcastGroup) (i : Key) : option Podcast :=
  List.find (fun p => bool_decide (Single (AStr (get_id p)) = i)) (podcasts pg).

(** [PodcastGroup.wrap(doc)]: a document that carries no members wraps to
    a group without members. *)
Definition PodcastGroup_wrap (d : Doc) : PodcastGroup :=
  match d with
  | DocPodcastGroup g => g
  | DocPodcast p =>
      {| group_id := podcast_id p; group_title := title p; podcasts := [] |}
  | DocOther _ => {| group_id := ""; group_title := ""; podcasts := [] |}
  end.

(** *** The database, the cache and the signal bus *)

(** The main database. [docs] holds the documents by id. The view
    definitions are not among the sources: [index v k] is the list of
    (emitted key, document id) pairs that view [v] answers the query key
    [k] with. A view that is asked with [key=k] answers with rows of the
    key [k]; the statements that depend on it say so ([keyed_as_asked]).
    [lucene q limit skip] is the answer of the search
    index: document ids and the total number of rows, or the failure of
    the request. *)
Record Database : Type := {
  docs : gmap string Doc;
  index : string -> Key -> list (Key * string);
  lucene : string -> nat -> nat -> Result (list string * nat)
}.

(** A request sent to the database. *)
Inductive Request : Type :=
| ViewRequest (view : string) (keys : list Key)
| SearchRequest (view : string) (q : string) (limit skip : nat)
| SaveRequest (doc_id : string).

(** A cache table: key, expiry time, value. *)
Definition Table (K V : Type) : Type := list (K * (nat * V)).

Definition table_get {K V} `{EqDecision K} (now : nat) (k : K) (t : Table K V)
  : option V :=
  match List.find (fun e => bool_decide (e.1 = k)) t with
  | Some (_, (expiry, v)) => if (now <? expiry)%nat then Some v else None
  | None => None
  end.

Definition table_set {K V} `{EqDecision K} (k : K) (expiry : nat) (v : V)
    (t : Table K V) : Table K V :=
  (k, (expiry, v)) :: List.filter (fun e => negb (bool_decide (e.1 = k))) t.

(** The cache. A key is made of the function and its arguments, so every
    cached function has a table of its own. *)
Record Cache : Type := {
  cached_podcast_by_id : Table Atom (option Obj);
  cached_podcast_for_oldid : Table Atom (option Obj);
  cached_search : Table (string * nat * nat) (list Obj * nat)
}.

(** [cache.clear()] *)
Definition clear : Cache :=
  {| cached_podcast_by_id := []; cached_podcast_for_oldid := [];
     cached_search := [] |}.

(** What the functions of the module work on: the database, the cache,
    the [incomplete_obj] signals sent so far, the requests sent to the
    database so far, and the clock (in seconds). *)
Record Env : Type := {
  db : Database;
  cache : Cache;
  sent : list Obj;
  requests : list Request;
  now : nat
}.

Definition with_cache (c : Cache) (env : Env) : Env :=
  {| db := db env; cache := c; sent := sent env;
     requests := requests env; now := now env |}.

(** [incomplete_obj.send_robust(sender=)]: never raises. *)
Definition send_robust (sender : Obj) : M Env unit :=
  modify (fun env => {| db := db env; cache := cache env;
                        sent := sent env ++ [sender];
                        requests := requests env; now := now env |}).

Definition log_request (r : Request) : M Env unit :=
  modify (fun env => {| db := db env; cache := cache env; sent := sent env;
                        requests := requests env ++ [r]; now := now env |}).

Definition rows_of (d : Database) (v : string) (k : Key) : list Row :=
  (fun e => {| key := e.1; id := e.2; doc := docs d !! e.2 |}) <$> index d v k.

(** [db.view(v, key=k, include_docs=True)]: one request. *)
Definition view (v : string) (k : Key) : M Env (list Row) :=
  let* _ := log_request (ViewRequest v [k]) in
  gets (fun env => rows_of (db env) v k).

(** [db.view(v, keys=ks, include_docs=True)]: one request; the rows of
    every key, in the order of the keys. *)
Definition view_keys (v : string) (ks : list Key) : M Env (list Row) :=
  let* _ := log_request (ViewRequest v ks) in
  gets (fun env => ks ≫= rows_of (db env) v).

(** Modelled from the spec: [get_single_result] is declared in
    [mygpo.db.couchdb], which is not among the sources. The "single
    lookup fetches the stored document by the matching index": no row
    gives [None], one row is passed through the wrapper, and more than one
    row is the error of a lookup that should be unique. *)
Definition get_single_result {A} (v : string) (k : Key) (wrapper : Row -> Result (option A))
  : M Env (option A) :=
  let* r := view v k in
  match r with
  | [] => ret None
  | [row] => lift (wrapper row)
  | _ => raise MultipleResultsFound
  end.

(** *** Wrappers *)

Definition _wrap_podcast_group (res : Row) : Result (option Obj) :=
  match doc res with
  | None => Raise TypeError
  | Some (DocPodcast p) => Ok (Some (APodcast p))
  | Some d =>
      let pg := PodcastGroup_wrap d in
      let i := key res in
      Ok (APodcast <$> get_podcast_by_id pg i)
  end.

Definition _wrap_podcast_group_key1 (res : Row) : Result (option Obj) :=
  match doc res with
  | None => Raise TypeError
  | Some (DocPodcast p) => Ok (Some (APodcast p))
  | Some d =>
      match key_item1 (key res) with
      | Raise e => Raise e
      | Ok pid =>
          let pg := PodcastGroup_wrap d in
          Ok (APodcast <$> get_podcast_by_id pg (Single pid))
      end
  end.

Definition _wrap_pg (r : Row) : option Obj :=
  match doc r with
  | None => None
  | Some (DocPodcast p) => Some (APodcast p)
  | Some (DocPodcastGroup g) => Some (AGroup g)
  | Some (DocOther _) => None
  end.

Definition search_wrapper (result : Row) : Result Obj :=
  match doc result with
  | None => Raise TypeError
  | Some (DocPodcast p) =>
      Ok (APodcast {| podcast_id := id result; rev := rev p; title := title p;
                      description := description p; twitter := twitter p;
                      related_podcasts := related_podcasts p |})
  | Some (DocPodcastGroup g) =>
      Ok (AGroup {| group_id := id result; group_title := group_title g;
                    podcasts := podcasts g |})
  | Some (DocOther _) => Raise UnboundLocalError
  end.

(** Modelled from the spec: [cache_result] is declared in [mygpo.cache],
    which is not among the sources. It "wraps Resolver calls with key = the
    exact argument tuple", with a time to live: a live entry is returned as
    it is; otherwise the function runs and what it returns is stored for
    [timeout] seconds. An exception passes through and nothing is stored. *)
Definition cache_result {K V} `{EqDecision K} (timeout : nat)
    (table : Cache -> Table K V) (store : Table K V -> Cache -> Cache)
    (f : K -> M Env V) (args : K) : M Env V :=
  fun env =>
    match table_get (now env) args (table (cache env)) with
    | Some v => (Ok v, env)
    | None =>
        match f args env with
        | (Ok v, env') =>
            (Ok v,
             with_cache
               (store (table_set args (now env' + timeout) v (table (cache env')))
                      (cache env'))
               env')
        | (Raise e, env') => (Raise e, env')
        end
    end.

Definition store_podcast_by_id (t : Table Atom (option Obj)) (c : Cache) : Cache :=
  {| cached_podcast_by_id := t;
     cached_podcast_for_oldid := cached_podcast_for_oldid c;
     cached_search := cached_search c |}.

Definition store_podcast_for_oldid (t : Table Atom (option Obj)) (c : Cache) : Cache :=
  {| cached_podcast_by_id := cached_podcast_by_id c;
     cached_podcast_for_oldid := t;
     cached_search := cached_search c |}.

Definition store_search (t : Table (string * nat * nat) (list Obj * nat)) (c : Cache)
  : Cache :=
  {| cached_podcast_by_id := cached_podcast_by_id c;
     cached_podcast_for_oldid := cached_podcast_for_oldid c;
     cached_search := t |}.

(** What the module takes from code that is not among the sources. *)
Class Externals : Type := {
  (** the property [needs_update] of [Podcast] and [PodcastGroup] *)
  needs_update : Obj -> bool;
  (** the builtin [long] on a string: [None] stands for [ValueError] *)
  long_of_str : string -> option Z;
  (** [lucene_query(fields, q)] of [mygpo.db.couchdb] *)
  lucene_query : list string -> string -> string;
  (** how often [repeat_on_conflict] runs the function it wraps *)
  max_attempts : nat
}.

Section Lookups.

Context `{Externals}.

(** [if obj.needs_update: incomplete_obj.send_robust(sender=obj)] *)
Definition notify (o : Obj) : M Env unit :=
  if needs_update o then send_robust o else ret tt.

(** The parameter [current_id] is never read. *)
Definition podcast_by_id_uncached (podcast_id : Atom) : M Env (option Obj) :=
  if negb (truthy podcast_id) then raise (QueryParameterMissing "podcast_id")
  else
    let* podcast :=
      get_single_result "podcasts/by_id" (Single podcast_id) _wrap_podcast_group in
    match podcast with
    | None => ret None
    | Some p => let* _ := notify p in ret (Some p)
    end.

Definition podcast_by_id : Atom -> M Env (option Obj) :=
  cache_result (60 * 60) cached_podcast_by_id store_podcast_by_id
    podcast_by_id_uncached.

(** [for podcast in podcasts: if podcast.needs_update: ...]; a slot
    that holds [None] has no such attribute. *)
Definition podcasts_by_id (ids : option (list Atom)) : M Env (list (option Obj)) :=
  match ids with
  | None => raise (QueryParameterMissing "ids")
  | Some [] => ret []
  | Some ids =>
      let* r := view_keys "podcasts/by_id" (Single <$> ids) in
      let* podcasts := lift (map_result _wrap_podcast_group r) in
      let* _ := for_each podcasts (fun podcast =>
        match podcast with
        | None => raise AttributeError
        | Some o => notify o
        end) in
      ret podcasts
  end.

(** The generator, run to its end. *)
Definition podcasts_groups_by_id (ids : option (list Atom)) : M Env (list (option Obj)) :=
  match ids with
  | None => raise (QueryParameterMissing "ids")
  | Some [] => ret []
  | Some ids =>
      let* res := view_keys "podcasts/podcasts_groups" (Single <$> ids) in
      let* _ := for_each res (fun r =>
        match _wrap_pg r with
        | None => ret tt
        | Some obj => notify obj
        end) in
      ret (_wrap_pg <$> res)
  end.

(** [long(oldid)] *)
Definition long (a : Atom) : Result Z :=
  match a with
  | ANone => Raise TypeError
  | AInt n => Ok n
  | AStr s =>
      match long_of_str s with
      | Some n => Ok n
      | None => Raise ValueError
      end
  end.

Definition podcast_for_oldid_uncached (oldid : Atom) : M Env (option Obj) :=
  match oldid with
  | ANone => raise (QueryParameterMissing "oldid")
  | _ =>
      let* k := lift (long oldid) in
      let* podcast :=
        get_single_result "podcasts/by_oldid" (Single (AInt k))
          _wrap_podcast_group_key1 in
      match podcast with
      | None => ret None
      | Some p => let* _ := notify p in ret (Some p)
      end
  end.

Definition podcast_for_oldid : Atom -> M Env (option Obj) :=
  cache_result (60 * 60) cached_podcast_for_oldid store_podcast_for_oldid
    podcast_for_oldid_uncached.

(** [db.search('podcasts/search', ...)] and [list(res)]: one request. *)
Definition db_search (q : string) (limit skip : nat) : M Env (list Obj * nat) :=
  let* _ := log_request (SearchRequest "podcasts/search" q limit skip) in
  let* answer := gets (fun env => lucene (db env) q limit skip) in
  let* (ids, total_rows) := lift answer in
  let* rows := gets (fun env =>
    (fun i => {| key := Single ANone; id := i; doc := docs (db env) !! i |}) <$> ids) in
  let* podcasts := lift (map_result search_wrapper rows) in
  ret (podcasts, total_rows).

Definition is_RequestFailed (e : Exn) : bool :=
  match e with RequestFailed => true | _ => false end.

Definition search_uncached (args : string * nat * nat) : M Env (list Obj * nat) :=
  let '(q, offset, num_results) := args in
  if String.eqb q "" then ret ([], 0%nat)
  else
    let FIELDS := ["title"; "description"] in
    let q := lucene_query FIELDS q in
    try_except
      (let* (podcasts, total_rows) := db_search q num_results offset in
       let* _ := for_each podcasts notify in
       ret (podcasts, total_rows))
      is_RequestFailed
      (ret ([], 0%nat)).

Definition search (q : string) (offset num_results : nat) : M Env (list Obj * nat) :=
  cache_result (60 * 60) cached_search store_search search_uncached
    (q, offset, num_results).

(** *** Writing a podcast back *)

(** Modelled from the spec: [Podcast.save] is declared in
    [mygpo.core.models], which is not among the sources. The document is
    written back under its id with the next revision; the write is
    refused with a conflict when the stored document is not at the
    revision the object was loaded with. (A member of a group is saved
    through its group document; the statements below save top-level
    podcasts only.) *)
Definition Podcast_save (p : Podcast) : M Env unit :=
  let* _ := log_request (SaveRequest (get_id p)) in
  fun env =>
    let written :=
      DocPodcast {| podcast_id := podcast_id p; rev := S (rev p); title := title p;
                    description := description p; twitter := twitter p;
                    related_podcasts := related_podcasts p |} in
    let env' :=
      {| db := {| docs := <[get_id p := written]> (docs (db env));
                  index := index (db env); lucene := lucene (db env) |};
         cache := cache env; sent := sent env;
         requests := requests env; now := now env |} in
    match docs (db env) !! get_id p with
    | Some (DocPodcast q) =>
        if decide (rev q = rev p) then (Ok tt, env') else (Raise ResourceConflict, env)
    | Some _ => (Raise ResourceConflict, env)
    | None => (Ok tt, env')
    end.

(** [cache.clear()] *)
Definition cache_clear : M Env unit :=
  modify (with_cache clear).

Definition reload_podcast (podcast : Podcast) : M Env (option Obj) :=
  podcast_by_id_uncached (AStr (get_id podcast)).

Definition is_ResourceConflict (e : Exn) : bool :=
  match e with ResourceConflict => true | _ => false end.

(** Modelled from the spec: [repeat_on_conflict] is declared in
    [mygpo.decorators], which is not among the sources. "On a write
    conflict, reload the entity fresh and reapply the mutation function,
    retrying a bounded number of times before surfacing a fatal conflict
    error." The wrapped function receives what the reload returned, which
    may be [None]. *)
Fixpoint repeat_on_conflict (attempts : nat)
    (reload_f : Podcast -> M Env (option Obj))
    (f : option Podcast -> M Env unit) (podcast : option Podcast) : M Env unit :=
  match attempts with
  | O => raise ResourceConflict
  | S n =>
      fun env =>
        match f podcast env with
        | (Ok tt, env') => (Ok tt, env')
        | (Raise e, env') =>
            if is_ResourceConflict e then
              match podcast with
              | None => (Raise e, env')
              | Some p =>
                  (let* fresh := reload_f p in
                   repeat_on_conflict n reload_f f
                     (match fresh with
                      | Some (APodcast p') => Some p'
                      | _ => None
                      end)) env'
              end
            else (Raise e, env')
        end
  end.

(** The body of [update_additional_data]; on [None] the assignment of
    the attribute fails. *)
Definition update_additional_data_body (twitter' : string) (podcast : option Podcast)
  : M Env unit :=
  match podcast with
  | None => raise AttributeError
  | Some p =>
      let* _ := Podcast_save
        {| podcast_id := podcast_id p; rev := rev p; title := title p;
           description := description p; twitter := twitter';
           related_podcasts := related_podcasts p |} in
      (* clear the whole cache until we have a better invalidation mechanism *)
      cache_clear
  end.

Definition update_additional_data (podcast : Podcast) (twitter' : string) : M Env unit :=
  repeat_on_conflict max_attempts reload_podcast
    (update_additional_data_body twitter') (Some podcast).

Definition update_related_podcasts_body (related : list string) (podcast : option Podcast)
  : M Env unit :=
  match podcast with
  | None => raise AttributeError
  | Some p =>
      if decide (related_podcasts p = related) then ret tt
      else
        Podcast_save
          {| podcast_id := podcast_id p; rev := rev p; title := title p;
             description := description p; twitter := twitter p;
             related_podcasts := related |}
  end.

Definition update_related_podcasts (podcast : Podcast) (related : list string)
  : M Env unit :=
  repeat_on_conflict max_attempts reload_podcast
    (update_related_podcasts_body related) (Some podcast).

End Lookups.

(** *** Notions the statements use *)

(** The table [t] holds no entry, live or expired, under the key [k]. *)
Definition cold {K V} (k : K) (t : Table K V) : Prop := k ∉ t.*1.

#[export] Instance cold_dec {K V} `{EqDecision K} (k : K) (t : Table K V) :
  Decision (cold k t).
Proof. unfold cold. apply _. Defined.


(** The cache holds nothing under an argument that the lookup refuses: no
    entry of [podcast_by_id] under a value that Python takes for false, no
    entry of [podcast_for_oldid] under [None]. The cached functions keep the
    cache in this state (an exception is not stored). *)
Definition no_refused_keys (c : Cache) : Prop :=
  (∀ k, truthy k = false -> cold k (cached_podcast_by_id c))
  ∧ cold ANone (cached_podcast_for_oldid c).

(** The view [v] answers the key [k] with rows of that key, as a view
    that is asked with [key=k] does. *)
Definition keyed_as_asked (d : Database) (v : string) (k : Key) : Prop :=
  Forall (fun r => r.1 = k) (index d v k).

#[export] Instance keyed_as_asked_dec d v k : Decision (keyed_as_asked d v k).
Proof. unfold keyed_as_asked. apply _. Defined.

(** The cache holds no group as the result of a single lookup. The
    cached functions keep the cache in this state. *)
Definition holds_no_group (c : Cache) : Prop :=
  Forall (fun e => ∀ o, e.2.2 = Some o -> is_podcast o = true) (cached_podcast_by_id c)
  ∧ Forall (fun e => ∀ o, e.2.2 = Some o -> is_podcast o = true)
           (cached_podcast_for_oldid c).

(** The computation leaves the cache as it is. *)
Definition keeps_cache {A} (c : M Env A) : Prop :=
  ∀ env, cache (c env).2 = cache env.

(** The environment after one more request to the database. *)
Definition asked (r : Request) (env : Env) : Env :=
  {| db := db env; cache := cache env; sent := sent env;
     requests := requests env ++ [r]; now := now env |}.

End PodcastDb.

(** ** Sample data *)

Module Samples.

(** Device dev1 of user u is subscribed to A and B; device dev2 was marked
    deleted. *)
Definition sample_store : Simple.Store :=
  {| Simple.devices :=
       {[ ("u", "dev1") := {| Simple.type := "mobile"; Simple.name := "Phone";
                              Simple.deleted := false |};
          ("u", "dev2") := {| Simple.type := "desktop"; Simple.name := "Old laptop";
                              Simple.deleted := true |} ]};
     Simple.podcasts := {[ "A"; "B" ]};
     Simple.log :=
       [ Simple.entry Simple.SUBSCRIBE_ACTION ("u", "dev1") "A";
         Simple.entry Simple.SUBSCRIBE_ACTION ("u", "dev1") "B" ] |}.

Import PodcastDb.

Definition sample_externals : Externals :=
  {| needs_update := fun _ => false;
     long_of_str := fun _ => None;
     lucene_query := fun _ q => q;
     max_attempts := 3 |}.

Definition p1 : Podcast :=
  {| podcast_id := "p1"; rev := 0; title := "Show"; description := "A show";
     twitter := ""; related_podcasts := [] |}.

Definition m1 : Podcast :=
  {| podcast_id := "m1"; rev := 0; title := "Show (mp3)"; description := "";
     twitter := ""; related_podcasts := [] |}.

Definition m2 : Podcast :=
  {| podcast_id := "m2"; rev := 0; title := "Show (ogg)"; description := "";
     twitter := ""; related_podcasts := [] |}.

Definition g1 : PodcastGroup :=
  {| group_id := "g1"; group_title := "Show"; podcasts := [m1; m2] |}.

(** The podcast p1, with the old id 3, and the group g1 of m1 and m2; m1
    has the old id 7. Every view answers a key with rows of that key. The
    search index is down for the query "unreachable". *)
Definition sample_db : Database :=
  {| docs := {[ "p1" := DocPodcast p1; "g1" := DocPodcastGroup g1 ]};
     index := fun v k =>
       if String.eqb v "podcasts/by_id" then
         if bool_decide (k = Single (AStr "p1")) then [(k, "p1")]
         else if bool_decide (k = Single (AStr "m1")) then [(k, "g1")]
         else if bool_decide (k = Single (AStr "m2")) then [(k, "g1")]
         else []
       else if String.eqb v "podcasts/by_oldid" then
         if bool_decide (k = Single (AInt 3)) then [(k, "p1")]
         else if bool_decide (k = Single (AInt 7)) then [(k, "g1")]
         else []
       else [];
     lucene := fun q _ _ =>
       if String.eqb q "unreachable" then Raise RequestFailed
       else Ok (["p1"], 1%nat) |}.

Definition sample_env : Env :=
  {| db := sample_db; cache := clear; sent := []; requests := []; now := 0 |}.

End Samples.

(** ** The views of [mygpo/api/simple.py] *)

Module SimpleViews.

Import Simple.

(** *** Python strings *)

Definition newline : Ascii.ascii := Ascii.Ascii false true false true false false false false.

(** [s.split(sep)] for a separator of one character. *)
Fixpoint split (sep : Ascii.ascii) (s : string) : list string :=
  match s with
  | EmptyString => [EmptyString]
  | String c rest =>
      if Ascii.eqb c sep then EmptyString :: split sep rest
      else match split sep rest with
           | [] => [String c EmptyString]
           | w :: ws => String c w :: ws
           end
  end.

(** [sep.join(l)] *)
Fixpoint join (sep : string) (l : list string) : string :=
  match l with
  | [] => EmptyString
  | [x] => x
  | x :: rest => x ++ sep ++ join sep rest
  end.

(** [s.find(pat)]: the lowest index at which [pat] starts, or -1. *)
Fixpoint find_from (pat s : string) : option nat :=
  if String.prefix pat s then Some 0%nat
  else match s with
       | EmptyString => None
       | String _ rest => S <$> find_from pat rest
       end.

Definition find (s pat : string) : Z :=
  match find_from pat s with
  | Some n => Z.of_nat n
  | None => (-1)%Z
  end.

(** An index of a slice, brought into the bounds of a string of length
    [len]: a negative index counts from the end. *)
Definition slice_index (len i : Z) : Z :=
  if (i <? 0)%Z then Z.max 0 (i + len) else Z.min i len.

(** [s[b:e]] *)
Definition slice (s : string) (b e : Z) : string :=
  let len := Z.of_nat (String.length s) in
  let b' := slice_index len b in
  let e' := slice_index len e in
  if (e' <=? b')%Z then EmptyString
  else String.substring (Z.to_nat b') (Z.to_nat (e' - b')) s.

(** *** Requests and responses *)

Record Request : Type := {
  method : string;
  user : string;
  raw_post_data : string
}.

(** The values the views hand to [JsonResponse]: a string, a number, or a
    dict of strings and numbers. *)
Inductive JsonScalar : Type :=
| JStr (s : string)
| JNum (n : Z).

Inductive Json : Type :=
| JScalar (v : JsonScalar)
| JDict (items : list (string * JsonScalar)).

(** What a view returns; [NoResponse] is Python's [None]. *)
Inductive Response : Type :=
| Plain (r : HttpResponse)
| HttpResponseBadRequest (content : string)
| HttpResponseNotAllowed (permitted : list string)
| JsonResponse (objs : list Json)
| NoResponse.

(** What the views take from code that is not among the sources. *)
Class Externals : Type := {
  (** [sanitize_url] of [mygpo.api.sanitizing] *)
  sanitize_url : string -> string;
  (** [json.loads] on a text that holds an array of strings; for any other
      text, the exception that decoding it or sanitizing its members
      raises *)
  json_loads : string -> Result (list string);
  (** [[p['url'] for p in Importer(content=).items]] of [mygpo.api.opml] *)
  Importer_urls : string -> Result (list string);
  (** [Exporter(title).generate(podcasts)] of [mygpo.api.opml] *)
  Exporter_generate : string -> list Podcast -> string;
  (** the title [_('%(username)s\'s Subscription List') % {'username':
      username}] for a user name. The module neither defines nor imports
      the name [_]: what it is bound to when the view runs is left to the
      environment, and the title is the exception raised if it is bound to
      nothing. *)
  subscription_list_title : string -> Result string;
  (** the default of the [deleted] column of a new [Device] row *)
  Device_deleted_default : bool
}.

Definition ALLOWED_FORMATS : list string := ["txt"; "opml"; "json"].

(** The decorator [check_format]. *)
Definition check_format {S} (fn : string -> M S Response) (format : string)
  : M S Response :=
  if decide (format ∈ ALLOWED_FORMATS) then fn format
  else ret (HttpResponseBadRequest "Invalid format").

Section Views.

Context `{Externals}.

Definition format_podcast_list {A} (obj_list : list A) (format title : string)
    (get_podcast : A -> Podcast) (json_map : A -> Json) : Response :=
  if String.eqb format "txt" then
    let podcasts := get_podcast <$> obj_list in
    let s := join (String newline EmptyString) ((url <$> podcasts) ++ [EmptyString]) in
    Plain {| content := s; mimetype := "text/plain" |}
  else if String.eqb format "opml" then
    let podcasts := get_podcast <$> obj_list in
    let opml := Exporter_generate title podcasts in
    Plain {| content := opml; mimetype := "text/xml" |}
  else if String.eqb format "json" then
    let objs := json_map <$> obj_list in
    JsonResponse objs
  else NoResponse.

(** The result is the set of the urls; for a format that is none of the
    three, the empty list. *)
Definition parse_subscription (raw_post_data format : string) : Result (gset string) :=
  let parsed :=
    if String.eqb format "txt" then
      Some (Ok (split newline raw_post_data))
    else if String.eqb format "opml" then
      let begin := find raw_post_data "<?xml" in
      let end_ := (find raw_post_data "</opml>" + 7)%Z in
      Some (Importer_urls (slice raw_post_data begin end_))
    else if String.eqb format "json" then
      let begin := find raw_post_data "[" in
      let end_ := (find raw_post_data "]" + 1)%Z in
      Some (json_loads (slice raw_post_data begin end_))
    else None in
  match parsed with
  | None => Ok ∅
  | Some (Raise e) => Raise e
  | Some (Ok urls) =>
      let urls := sanitize_url <$> urls in
      let urls := filter (fun x => x ≠ EmptyString) urls in
      Ok (list_to_set urls)
  end.

(** The view [subscriptions] behind [require_valid_user] and
    [check_username]: the request is that of the authenticated user. *)
Definition subscriptions (request : Request) (username device_uid : string)
  : string -> M Store Response :=
  check_format (fun format =>
    if String.eqb (method request) "GET" then
      let* title := lift (subscription_list_title username) in
      let* subscriptions := get_subscriptions (user request) device_uid in
      ret (format_podcast_list subscriptions format title
             (fun x => x) (fun x => JScalar (JStr (url x))))
    else if bool_decide (method request ∈ ["PUT"; "POST"]) then
      let* subscriptions := lift (parse_subscription (raw_post_data request) format) in
      let* r := set_subscriptions Device_deleted_default subscriptions
                  (user request) device_uid in
      ret (Plain r)
    else ret (HttpResponseNotAllowed ["GET"; "PUT"; "POST"])).

End Views.

(** *** Notions the statements use *)

(** Whether the character occurs in the string. *)
Fixpoint occurs (c : Ascii.ascii) (s : string) : bool :=
  match s with
  | EmptyString => false
  | String d rest => Ascii.eqb d c || occurs c rest
  end.

(** A url that fits on one line of a txt export. *)
Definition one_line (s : string) : Prop := occurs newline s = false.

#[export] Instance one_line_dec s : Decision (one_line s).
Proof. unfold one_line. apply _. Defined.

Definition bracket_open : Ascii.ascii :=
  Eval cbv in match "[" with String c _ => c | EmptyString => newline end.

Definition bracket_close : Ascii.ascii :=
  Eval cbv in match "]" with String c _ => c | EmptyString => newline end.

(** *** Sample data *)

Definition sample_externals : Externals :=
  {| sanitize_url := fun u => u;
     json_loads := fun _ => Raise ValueError;
     Importer_urls := fun _ => Raise ValueError;
     Exporter_generate := fun title _ => title;
     subscription_list_title := fun username => Ok username;
     Device_deleted_default := false |}.

End SimpleViews.

(** ** [mygpo/api/advanced/episode.py] *)

Module Chapters.

(** The exceptions of the chapter views. [External] is an exception of
    code that is not among the sources ([json.loads], [parse_time],
    [dateutil.parser.parse]). *)
Inductive Exn : Type :=
| ParameterMissing (msg : string)
| NameError (name : string)
| KeyError (key : string)
| AttributeError
| DoesNotExist
| IntegrityError
| External (e : Py.Exn).

Inductive Outcome (A : Type) : Type :=
| Returned (a : A)
| Raised (e : Exn).
Arguments Returned {A} a.
Arguments Raised {A} e.

(** A computation over a store [S]; what was written before an exception
    stays written. *)
Definition M (S A : Type) : Type := S -> Outcome A * S.

Definition ret {S A} (a : A) : M S A := fun s => (Returned a, s).

Definition raise {S A} (e : Exn) : M S A := fun s => (Raised e, s).

Definition bind {S A B} (c : M S A) (k : A -> M S B) : M S B :=
  fun s =>
    match c s with
    | (Returned a, s') => k a s'
    | (Raised e, s') => (Raised e, s')
    end.

Definition gets {S A} (f : S -> A) : M S A := fun s => (Returned (f s), s).

Definition modify {S} (f : S -> S) : M S unit := fun s => (Returned tt, f s).

Definition lift {S A} (r : Outcome A) : M S A := fun s => (r, s).

(** [for x in xs: body] *)
Fixpoint for_each {S A} (xs : list A) (body : A -> M S unit) : M S unit :=
  match xs with
  | [] => ret tt
  | x :: rest => bind (body x) (fun _ => for_each rest body)
  end.

Notation "'let+' x ':=' c 'in' k" := (bind c (fun x => k))
  (at level 10, x pattern, c at level 200, k at level 200).

(** *** The tables *)

(** An episode is identified by the url of its podcast and its own url. *)
Abbreviation EpisodeKey := (string * string)%type.

(** A row of the [Chapter] table; [device] is the key (user, uid) of a
    device row, or [None]. *)
Record Chapter : Type := {
  user : string;
  episode : EpisodeKey;
  device : option Simple.DeviceKey;
  created : Z;
  start : Z;
  end_ : Z;
  label : string;
  advertisement : bool
}.

#[export] Instance Chapter_eq_dec : EqDecision Chapter.
Proof. solve_decision. Defined.

(** The relational store: the urls of the podcast table, the keys of the
    episode table, the device table, the chapter rows in the order of
    their creation, and the clock. *)
Record Store : Type := {
  podcasts : gset string;
  episodes : gset EpisodeKey;
  devices : gmap Simple.DeviceKey Simple.Device;
  chapters : list Chapter;
  now : Z
}.

(** *** Requests and responses *)

(** A member of [chapters_add] or [chapters_remove]: a JSON object whose
    members may be missing. *)
Record ChapterSpec : Type := {
  c_start : option string;
  c_end : option string;
  c_label : option string;
  c_advertisement : option bool
}.

#[export] Instance ChapterSpec_eq_dec : EqDecision ChapterSpec.
Proof. solve_decision. Defined.

(** The decoded body of a POST: a JSON object whose members, where they
    are present, have the types the view expects. *)
Record Req : Type := {
  r_podcast : option string;
  r_episode : option string;
  r_device : option string;
  r_timestamp : option string;
  chapters_add : option (list ChapterSpec);
  chapters_remove : option (list ChapterSpec)
}.

Record Request : Type := {
  method : string;
  request_user : string;
  raw_post_data : string;
  GET : gmap string string
}.

(** An entry of the list that a GET answers with. *)
Record ChapterView : Type := {
  v_start : Z;
  v_end : Z;
  v_label : string;
  v_advertisement : bool;
  v_timestamp : Z;
  v_device : string
}.

(** The content of a 400 response: a text, or an exception handed to the
    response as it is. *)
Inductive Content : Type :=
| Text (s : string)
| OfException (e : Exn).

Inductive Response : Type :=
| HttpResponseBadRequest (content : Content)
| HttpResponseNotAllowed (permitted : list string)
| JsonResponse (chapters : list ChapterView).

(** What the views take from code that is not among the sources. *)
Class Externals : Type := {
  (** [sanitize_url(url)] *)
  sanitize_url : string -> string;
  (** [sanitize_url(url, podcast=False, episode=True)] *)
  sanitize_episode_url : string -> string;
  (** [json.loads] on the body of a POST *)
  json_loads : string -> Outcome Req;
  (** [parse_time] of [mygpo.utils] *)
  parse_time : string -> Outcome Z;
  (** [dateutil.parser.parse] *)
  dateutil_parse : string -> Outcome Z;
  (** [_('New Device')] *)
  new_device_name : string;
  (** the default of the [deleted] column of a new [Device] row *)
  Device_deleted_default : bool;
  (** whether the [device] column of [Chapter] accepts [None]; the model
      is declared in [mygpo.api.models.episodes] *)
  Chapter_device_null : bool
}.

Section Views.

Context `{Externals}.

(** [Podcast.objects.get_or_create(url=)] *)
Definition Podcast_objects_get_or_create (u : string) : M Store (string * bool) :=
  fun st =>
    if decide (u ∈ podcasts st) then (Returned (u, false), st)
    else (Returned (u, true),
          {| podcasts := {[u]} ∪ podcasts st; episodes := episodes st;
             devices := devices st; chapters := chapters st; now := now st |}).

(** [Episode.objects.get_or_create(url=, podcast=)] *)
Definition Episode_objects_get_or_create (u podcast : string)
  : M Store (EpisodeKey * bool) :=
  fun st =>
    if decide ((podcast, u) ∈ episodes st) then (Returned ((podcast, u), false), st)
    else (Returned ((podcast, u), true),
          {| podcasts := podcasts st; episodes := {[(podcast, u)]} ∪ episodes st;
             devices := devices st; chapters := chapters st; now := now st |}).

(** [Device.objects.get_or_create(user=, uid=, defaults={type, name})] *)
Definition Device_objects_get_or_create (user uid : string)
    (default_type default_name : string) : M Store (Simple.DeviceKey * bool) :=
  fun st =>
    match devices st !! (user, uid) with
    | Some d => (Returned ((user, uid), false), st)
    | None =>
        let d := {| Simple.type := default_type; Simple.name := default_name;
                    Simple.deleted := Device_deleted_default |} in
        (Returned ((user, uid), true),
         {| podcasts := podcasts st; episodes := episodes st;
            devices := <[(user, uid) := d]> (devices st);
            chapters := chapters st; now := now st |})
    end.

(** [Podcast.objects.get(url=)] *)
Definition Podcast_objects_get (u : string) : M Store string :=
  fun st =>
    if decide (u ∈ podcasts st) then (Returned u, st) else (Raised DoesNotExist, st).

(** [Episode.objects.get(url=, podcast=)] *)
Definition Episode_objects_get (u podcast : string) : M Store EpisodeKey :=
  fun st =>
    if decide ((podcast, u) ∈ episodes st) then (Returned (podcast, u), st)
    else (Raised DoesNotExist, st).

(** [Chapter.objects.create(...)] *)
Definition Chapter_objects_create (c : Chapter) : M Store unit :=
  fun st =>
    if bool_decide (device c = None) && negb Chapter_device_null
    then (Raised IntegrityError, st)
    else (Returned tt,
          {| podcasts := podcasts st; episodes := episodes st;
             devices := devices st; chapters := chapters st ++ [c]; now := now st |}).

(** The rows that [Chapter.objects.filter(user=, episode=, start=, end=)]
    selects. *)
Definition selected (u : string) (e : EpisodeKey) (s t : Z) (c : Chapter) : Prop :=
  user c = u ∧ episode c = e ∧ start c = s ∧ end_ c = t.

#[export] Instance selected_dec u e s t c : Decision (selected u e s t c).
Proof. unfold selected. apply _. Defined.

(** [Chapter.objects.filter(user=, episode=, start=, end=).delete()] *)
Definition Chapter_objects_filter_delete (u : string) (e : EpisodeKey) (s t : Z)
  : M Store unit :=
  modify (fun st =>
    {| podcasts := podcasts st; episodes := episodes st; devices := devices st;
       chapters := filter (fun c => ¬ selected u e s t c) (chapters st);
       now := now st |}).

(** [order_by('start')]; rows of equal start are left in table order. *)
Fixpoint insert_by_start (c : Chapter) (l : list Chapter) : list Chapter :=
  match l with
  | [] => [c]
  | d :: rest =>
      if (start c <=? start d)%Z then c :: d :: rest
      else d :: insert_by_start c rest
  end.

Definition order_by_start (l : list Chapter) : list Chapter :=
  foldr insert_by_start [] l.

(** [c[key]] after the test [if not key in c: raise ParameterMissing],
    handed to [parse_time]. *)
Definition time_parameter (member : option string) (missing : string) : M Store Z :=
  match member with
  | None => raise (ParameterMissing missing)
  | Some v => lift (parse_time v)
  end.

(** [req[key]] *)
Definition item (member : option string) (key : string) : M Store string :=
  match member with
  | None => raise (KeyError key)
  | Some v => ret v
  end.

(** The body of the loop over [chapters_add]. *)
Definition add_chapter (user : string) (episode : EpisodeKey)
    (device : option Simple.DeviceKey) (timestamp : Z) (c : ChapterSpec) : M Store unit :=
  let+ start := time_parameter (c_start c) "start parameter missing" in
  let+ end_ := time_parameter (c_end c) "end parameter missing" in
  let label := default "" (c_label c) in
  let adv := default false (c_advertisement c) in
  Chapter_objects_create
    {| user := user; episode := episode; device := device; created := timestamp;
       start := start; end_ := end_; label := label; advertisement := adv |}.

(** The body of the loop over [chapters_remove]. *)
Definition remove_chapter (user : string) (episode : EpisodeKey) (c : ChapterSpec)
  : M Store unit :=
  let+ start := time_parameter (c_start c) "start parameter missing" in
  let+ end_ := time_parameter (c_end c) "end parameter missing" in
  Chapter_objects_filter_delete user episode start end_.

Definition update_chapters (req : Req) (user : string) : M Store unit :=
  let+ podcast_url := item (r_podcast req) "podcast" in
  let+ (podcast, c) := Podcast_objects_get_or_create podcast_url in
  let+ episode_url := item (r_episode req) "episode" in
  let+ (episode, c) := Episode_objects_get_or_create episode_url podcast in
  let+ device :=
    match r_device req with
    | Some uid =>
        let+ (device, c) :=
          Device_objects_get_or_create user uid "other" new_device_name in
        ret (Some device)
    | None => ret None
    end in
  let+ timestamp :=
    match r_timestamp req with
    | Some t => lift (dateutil_parse t)
    | None => gets now
    end in
  let+ _ := for_each (default [] (chapters_add req))
              (add_chapter user episode device timestamp) in
  for_each (default [] (chapters_remove req)) (remove_chapter user episode).

(** The dict that a GET builds of a chapter row; [c.device.uid] of a row
    without device is an AttributeError. *)
Definition chapter_view (c : Chapter) : Outcome ChapterView :=
  match device c with
  | None => Raised AttributeError
  | Some (_, uid) =>
      Returned {| v_start := start c; v_end := end_ c; v_label := label c;
                  v_advertisement := advertisement c; v_timestamp := created c;
                  v_device := uid |}
  end.

(** The loop of a GET over the selected rows. *)
Fixpoint chapter_views (l : list Chapter) : Outcome (list ChapterView) :=
  match l with
  | [] => Returned []
  | c :: rest =>
      match chapter_view c with
      | Raised e => Raised e
      | Returned v =>
          match chapter_views rest with
          | Raised e => Raised e
          | Returned vs => Returned (v :: vs)
          end
      end
  end.

(** The view [chapters] behind [require_valid_user]. What it prints is
    left out. *)
Definition chapters_view (request : Request) (username : string) : M Store Response :=
  if String.eqb (method request) "POST" then
    let+ req := lift (json_loads (raw_post_data request)) in
    match r_podcast req, r_episode req with
    | None, _ => ret (HttpResponseBadRequest (Text "Podcast URL missing"))
    | Some _, None => ret (HttpResponseBadRequest (Text "Episode URL missing"))
    | Some podcast_url, Some episode_url =>
        (* podcast sanitizing *)
        let s_podcast_url := sanitize_url podcast_url in
        let req :=
          if decide (s_podcast_url ≠ podcast_url)
          then {| r_podcast := Some s_podcast_url; r_episode := r_episode req;
                  r_device := r_device req; r_timestamp := r_timestamp req;
                  chapters_add := chapters_add req;
                  chapters_remove := chapters_remove req |}
          else req in
        (* episode sanitizing *)
        let s_episode_url := sanitize_episode_url episode_url in
        let req :=
          if decide (s_episode_url ≠ episode_url)
          then {| r_podcast := r_podcast req; r_episode := Some s_episode_url;
                  r_device := r_device req; r_timestamp := r_timestamp req;
                  chapters_add := chapters_add req;
                  chapters_remove := chapters_remove req |}
          else req in
        let+ answered :=
          (if decide (s_podcast_url ≠ "" ∧ s_episode_url ≠ "") then
             fun st =>
               match update_chapters req (request_user request) st with
               | (Returned _, st') => (Returned None, st')
               | (Raised (ParameterMissing msg), st') =>
                   (Returned (Some (HttpResponseBadRequest
                                      (OfException (ParameterMissing msg)))), st')
               | (Raised e, st') => (Raised e, st')
               end
           else ret None) in
        match answered with
        | Some response => ret response
        | None =>
            (* [update_url] is a name that nothing binds *)
            raise (NameError "update_url")
        end
    end
  else if String.eqb (method request) "GET" then
    match GET request !! "podcast", GET request !! "episode" with
    | None, _ => ret (HttpResponseBadRequest (Text "podcast URL missing"))
    | Some _, None => ret (HttpResponseBadRequest (Text "Episode URL missing"))
    | Some podcast_url, Some episode_url =>
        let+ podcast := Podcast_objects_get (sanitize_url podcast_url) in
        let+ episode :=
          Episode_objects_get (sanitize_episode_url episode_url) podcast in
        let+ rows := gets (fun st =>
          order_by_start
            (filter (fun c => user c = request_user request ∧ Chapters.episode c = episode)
                    (Chapters.chapters st))) in
        let+ chapters := lift (chapter_views rows) in
        ret (JsonResponse chapters)
    end
  else ret (HttpResponseNotAllowed ["GET"; "POST"]).

End Views.

(** *** Notions the statements use *)

(** The chapter rows of a user for an episode. *)
Definition chapters_of (u : string) (e : EpisodeKey) (st : Store) : list Chapter :=
  filter (fun c => user c = u ∧ episode c = e) (chapters st).

(** The chapter rows of everybody and everything else. *)
Definition chapters_beside (u : string) (e : EpisodeKey) (st : Store) : list Chapter :=
  filter (fun c => ¬ (user c = u ∧ episode c = e)) (chapters st).

(** The computation [c] keeps the property [I] of the store, whether it
    returns or raises. *)
Definition keeps {A} (I : Store -> Prop) (c : M Store A) : Prop :=
  ∀ s, I s -> I (c s).2.

(** The device that [update_chapters] records with a new chapter. *)
Definition device_of (req : Req) (u : string) : option Simple.DeviceKey :=
  match r_device req with
  | Some uid => Some (u, uid)
  | None => None
  end.

(** The time that [update_chapters] records with a new chapter. *)
Definition timestamp_of `{Externals} (req : Req) (st : Store) : Outcome Z :=
  match r_timestamp req with
  | Some t => dateutil_parse t
  | None => Returned (now st)
  end.

(** The start and the end of a member of [chapters_add] or
    [chapters_remove] that holds both in a form that [parse_time] reads. *)
Definition times `{Externals} (c : ChapterSpec) : option (Z * Z) :=
  match c_start c, c_end c with
  | Some vs, Some vt =>
      match parse_time vs, parse_time vt with
      | Returned s, Returned t => Some (s, t)
      | _, _ => None
      end
  | _, _ => None
  end.

(** The row that the loop over [chapters_add] creates for such a member. *)
Definition new_row `{Externals} (u : string) (e : EpisodeKey)
    (d : option Simple.DeviceKey) (ts : Z) (c : ChapterSpec) : option Chapter :=
  match times c with
  | Some (s, t) =>
      Some {| user := u; episode := e; device := d; created := ts;
              start := s; end_ := t; label := default "" (c_label c);
              advertisement := default false (c_advertisement c) |}
  | None => None
  end.

(** A list of times in which none is followed by a smaller one. *)
Fixpoint ascending (l : list Z) : Prop :=
  match l with
  | [] => True
  | x :: rest => Forall (fun y => (x <= y)%Z) rest ∧ ascending rest
  end.

(** The store with the rows [l] added to the chapter table. *)
Definition with_new_chapters (st : Store) (l : list Chapter) : Store :=
  {| podcasts := podcasts st; episodes := episodes st; devices := devices st;
     chapters := chapters st ++ l; now := now st |}.

(** The request as [chapters] hands it to [update_chapters]: with the
    sanitized urls in the place of the submitted ones. *)
Definition sanitized `{Externals} (req : Req) : Req :=
  {| r_podcast := sanitize_url <$> r_podcast req;
     r_episode := sanitize_episode_url <$> r_episode req;
     r_device := r_device req; r_timestamp := r_timestamp req;
     chapters_add := chapters_add req; chapters_remove := chapters_remove req |}.

(** Whether the chapter table takes a row with the device [d]. *)
Definition device_accepted `{Externals} (d : option Simple.DeviceKey) : Prop :=
  d = None -> Chapter_device_null = true.

(** *** Sample data *)

Definition sample_member (s t : option string) (l : option string) : ChapterSpec :=
  {| c_start := s; c_end := t; c_label := l; c_advertisement := None |}.

(** A request whose second chapter holds no start. *)
Definition incomplete_req : Req :=
  {| r_podcast := Some "P"; r_episode := Some "E";
     r_device := Some "dev1"; r_timestamp := None;
     chapters_add := Some [ sample_member (Some "10") (Some "20") (Some "intro");
                            sample_member None (Some "30") None ];
     chapters_remove := None |}.

(** A request that adds two chapters and removes the first of them. *)
Definition sample_req : Req :=
  {| r_podcast := Some "P"; r_episode := Some "E";
     r_device := Some "dev1"; r_timestamp := None;
     chapters_add := Some [ sample_member (Some "10") (Some "20") (Some "intro");
                            sample_member (Some "30") (Some "40") (Some "talk") ];
     chapters_remove := Some [ sample_member (Some "10") (Some "20") None ] |}.

Definition sample_externals : Externals :=
  {| sanitize_url := fun u => u;
     sanitize_episode_url := fun u => u;
     json_loads := fun raw =>
       if String.eqb raw "incomplete" then Returned incomplete_req
       else if String.eqb raw "sample" then Returned sample_req
       else Raised (External ValueError);
     parse_time := fun v =>
       if String.eqb v "10" then Returned 10%Z
       else if String.eqb v "20" then Returned 20%Z
       else if String.eqb v "30" then Returned 30%Z
       else if String.eqb v "40" then Returned 40%Z
       else Raised (External ValueError);
     dateutil_parse := fun _ => Raised (External ValueError);
     new_device_name := "New Device";
     Device_deleted_default := false;
     Chapter_device_null := true |}.

Definition sample_chapter (u : string) (s t : Z) : Chapter :=
  {| user := u; episode := ("P", "E"); device := Some (u, "dev1"); created := 0;
     start := s; end_ := t; label := ""; advertisement := false |}.

Definition sample_store : Store :=
  {| podcasts := {["P"]}; episodes := {[("P", "E")]}; devices := ∅;
     chapters := [sample_chapter "u" 10 20; sample_chapter "v" 10 20;
                  sample_chapter "u" 50 60];
     now := 7 |}.

Definition sample_post (body : string) : Request :=
  {| method := "POST"; request_user := "u"; raw_post_data := body; GET := ∅ |}.

Definition sample_get : Request :=
  {| method := "GET"; request_user := "u"; raw_post_data := "";
     GET := {[ "podcast" := "P"; "episode" := "E" ]} |}.

End Chapters.

(** ** Further notions for [mygpo/api/simple.py] *)

Module SimpleNotions.

Import Simple.

(** The urls of [rem] that the first loop of [set_subscriptions] gets
    through before it meets one that has no row in the podcast table. *)
Fixpoint written_before (rows : gset string) (rem : list string) : list string :=
  match rem with
  | [] => []
  | r :: rest => if decide (r ∈ rows) then r :: written_before rows rest else []
  end.

(** A store whose log refers to a podcast that has no row: device dev1 of
    user u is subscribed to A and to Z, and Z is not in the podcast table. *)
Definition dangling_store : Store :=
  {| devices := {[ ("u", "dev1") := {| type := "mobile"; name := "Phone";
                                       deleted := true |} ]};
     podcasts := {[ "A" ]};
     log := [ entry SUBSCRIBE_ACTION ("u", "dev1") "A";
              entry SUBSCRIBE_ACTION ("u", "dev1") "Z";
              entry SUBSCRIBE_ACTION ("v", "dev9") "A" ] |}.

End SimpleNotions.

(** ** Further notions for [mygpo/db/couchdb/podcast.py] *)

Module PodcastDbNotions.

Import PodcastDb.

(** The environment after the [incomplete_obj] signals for [os]. *)
Definition told (os : list Obj) (env : Env) : Env :=
  {| db := db env; cache := cache env; sent := sent env ++ os;
     requests := requests env; now := now env |}.

(** What is sent for the result of a single lookup. *)
Definition signals_for `{Externals} (r : Result (option Obj)) : list Obj :=
  match r with
  | Ok (Some o) => if needs_update o then [o] else []
  | _ => []
  end.

(** The objects among the slots of a batch result. *)
Definition objects (slots : list (option Obj)) : list Obj :=
  omap (fun slot => slot) slots.

(** The objects of a batch result up to its first empty slot. *)
Fixpoint leading_objects (slots : list (option Obj)) : list Obj :=
  match slots with
  | Some o :: rest => o :: leading_objects rest
  | _ => []
  end.

(** The environment at another time and over another database, with the
    cache, the signals and the requests of [env]. *)
Definition later_on (d : Database) (t : nat) (env : Env) : Env :=
  {| db := d; cache := cache env; sent := sent env;
     requests := requests env; now := t |}.

(** *** Sample data *)

(** The podcast p1 as a client loaded it before somebody else saved it
    five times. *)
Definition p1_as_loaded : Podcast :=
  {| podcast_id := "p1"; rev := 0; title := "Working title"; description := "";
     twitter := ""; related_podcasts := ["p9"] |}.

Definition p1_as_stored : Podcast :=
  {| podcast_id := "p1"; rev := 5; title := "Show"; description := "A show";
     twitter := ""; related_podcasts := [] |}.

Definition busy_env : Env :=
  {| db := {| docs := <["p1" := DocPodcast p1_as_stored]> (docs Samples.sample_db);
              index := index Samples.sample_db;
              lucene := lucene Samples.sample_db |};
     cache := clear; sent := []; requests := []; now := 0 |}.

(** A database whose index by id answers m3 with the group g1, which has
    no member m3. *)
Definition orphan_env : Env :=
  {| db := {| docs := docs Samples.sample_db;
              index := fun v k =>
                if bool_decide (k = Single (AStr "m3")) then [(k, "g1")]
                else index Samples.sample_db v k;
              lucene := lucene Samples.sample_db |};
     cache := clear; sent := []; requests := []; now := 0 |}.

(** Externals for which every object needs an update. *)
Definition eager_externals : Externals :=
  {| needs_update := fun _ => true;
     long_of_str := fun _ => None;
     lucene_query := fun _ q => q;
     max_attempts := 3 |}.

(** A database without documents or rows. *)
Definition empty_db : Database :=
  {| docs := ∅; index := fun _ _ => []; lucene := fun _ _ _ => Ok ([], 0%nat) |}.

End PodcastDbNotions.

(** * Properties *)

(** ** Running computations *)

Lemma run_bind {S A B} (c : M S A) (k : A -> M S B) (s : S) :
  Py.bind c k s =
  match c s with
  | (Ok a, s') => k a s'
  | (Raise e, s') => (Raise e, s')
  end.
Proof. reflexivity. Qed.

Lemma run_bind_ok {S A B} (c : M S A) (k : A -> M S B) (s s' : S) (a : A) :
  c s = (Ok a, s') -> Py.bind c k s = k a s'.
Proof. intros H. rewrite run_bind, H. reflexivity. Qed.

(** A decidable statement about concrete data, settled by evaluation. *)
Ltac by_evaluation := apply (bool_decide_unpack _); vm_compute; exact I.

(** ** Reconciliation ([mygpo/api/simple.py]) *)

Module SimpleFacts.

Import Simple.

(** ** The derived subscription state *)

Lemma current_subscriptions_elem dev l x :
  x ∈ current_subscriptions dev l ->
  device x = dev ∧ action x = SUBSCRIBE_ACTION ∧ x ∈ l.
Proof.
  induction l as [|a l IH]; simpl.
  - intros H. inversion H.
  - case_decide as Ha.
    + rewrite elem_of_cons. intros [-> | Hx].
      * destruct Ha as (? & ? & _). repeat split; auto. left.
      * destruct (IH Hx) as (? & ? & ?). repeat split; auto. by right.
    + intros Hx. destruct (IH Hx) as (? & ? & ?). repeat split; auto. by right.
Qed.

(** What one more saved entry does to the current subscriptions. *)
Lemma current_subscriptions_snoc dev l a x :
  x ∈ current_subscriptions dev (l ++ [a]) <->
  (x ∈ current_subscriptions dev l ∧ ¬ concerns dev (podcast x) a)
  ∨ (x = a ∧ device a = dev ∧ action a = SUBSCRIBE_ACTION).
Proof.
  induction l as [|b l IH]; simpl.
  - case_decide as Ha.
    + rewrite list_elem_of_singleton. split.
      * intros ->. right. tauto.
      * intros [[H _] | [-> _]]; [inversion H | done].
    + split.
      * intros H. inversion H.
      * intros [[H _] | (-> & ? & ?)]; [inversion H |].
        exfalso. apply Ha. repeat split; auto.
  - assert (Hlater : ∀ p, Forall (fun c => ¬ concerns dev p c) (l ++ [a])
                     <-> Forall (fun c => ¬ concerns dev p c) l ∧ ¬ concerns dev p a).
    { intros p. by rewrite Forall_app, Forall_singleton. }
    case_decide as Hb; case_decide as Hb'; rewrite ?elem_of_cons, IH.
    + rewrite Hlater in Hb. split.
      * intros [-> | [[? ?] | ?]]; [left; split; [by left|tauto] | left; tauto | right; auto].
      * intros [[[-> | ?] ?] | ?]; [left; auto | right; left; auto | right; right; auto].
    + exfalso. apply Hb'. rewrite Hlater in Hb. tauto.
    + rewrite Hlater in Hb. split.
      * intros [[? ?] | ?]; [left; split; auto | right; auto].
      * intros [[[-> | ?] ?] | ?]; [tauto | left; tauto | right; tauto].
    + rewrite Hlater in Hb. tauto.
Qed.

Lemma subscribed_urls_NoDup dev l : NoDup (subscribed_urls dev l).
Proof.
  unfold subscribed_urls. induction l as [|a l IH]; simpl.
  - constructor.
  - case_decide as Ha; [|exact IH].
    rewrite fmap_cons. constructor; [|exact IH].
    rewrite list_elem_of_fmap. intros (x & Hu & Hx).
    destruct Ha as (_ & _ & Hlater).
    apply current_subscriptions_elem in Hx as (Hd & _ & Hin).
    rewrite Forall_forall in Hlater. apply (Hlater x Hin).
    split; [exact Hd|]. destruct (podcast x), (podcast a). simpl in Hu. congruence.
Qed.

Lemma elem_of_subscribed dev l u :
  u ∈ subscribed dev l <-> ∃ x, x ∈ current_subscriptions dev l ∧ url (podcast x) = u.
Proof.
  unfold subscribed, subscribed_urls.
  rewrite elem_of_list_to_set, list_elem_of_fmap. split.
  - intros (x & -> & Hx). eauto.
  - intros (x & Hx & <-). eauto.
Qed.

Lemma subscribed_snoc_subscribe dev l u :
  subscribed dev (l ++ [entry SUBSCRIBE_ACTION dev u]) = subscribed dev l ∪ {[u]}.
Proof.
  apply set_eq. intros v.
  rewrite elem_of_union, elem_of_singleton, !elem_of_subscribed. split.
  - intros (x & Hx & <-). apply current_subscriptions_snoc in Hx as [[Hx Hc] | (-> & _)].
    + left. eauto.
    + right. reflexivity.
  - intros [(x & Hx & <-) | ->].
    + destruct (decide (url (podcast x) = u)) as [<-|Hne].
      * exists (entry SUBSCRIBE_ACTION dev (url (podcast x))). split; [|reflexivity].
        apply current_subscriptions_snoc. right. done.
      * exists x. split; [|reflexivity]. apply current_subscriptions_snoc. left.
        split; [exact Hx|]. intros [_ Hp]. simpl in Hp. apply Hne. by rewrite <- Hp.
    + exists (entry SUBSCRIBE_ACTION dev u). split; [|reflexivity].
      apply current_subscriptions_snoc. right. done.
Qed.

Lemma subscribed_snoc_unsubscribe dev l u :
  subscribed dev (l ++ [entry UNSUBSCRIBE_ACTION dev u]) = subscribed dev l ∖ {[u]}.
Proof.
  apply set_eq. intros v.
  rewrite elem_of_difference, elem_of_singleton, !elem_of_subscribed. split.
  - intros (x & Hx & <-). apply current_subscriptions_snoc in Hx as [[Hx Hc] | (_ & _ & Hk)].
    + split; [eauto|]. intros Hu. apply Hc.
      split; [reflexivity|]. simpl. destruct (podcast x). simpl in Hu. congruence.
    + discriminate Hk.
  - intros [(x & Hx & <-) Hne]. exists x. split; [|reflexivity].
    apply current_subscriptions_snoc. left. split; [exact Hx|].
    intros [_ Hp]. simpl in Hp. apply Hne. by rewrite <- Hp.
Qed.

Lemma subscribed_app_unsubscribe dev rem l :
  subscribed dev (l ++ (entry UNSUBSCRIBE_ACTION dev <$> rem))
  = subscribed dev l ∖ list_to_set rem.
Proof.
  revert l. induction rem as [|r rem IH]; intros l; simpl.
  - by rewrite app_nil_r, difference_empty_L.
  - rewrite cons_middle, app_assoc, IH, subscribed_snoc_unsubscribe.
    by rewrite difference_difference_l_L.
Qed.

Lemma subscribed_app_subscribe dev new l :
  subscribed dev (l ++ (entry SUBSCRIBE_ACTION dev <$> new))
  = subscribed dev l ∪ list_to_set new.
Proof.
  revert l. induction new as [|n new IH]; intros l; simpl.
  - by rewrite app_nil_r, (right_id_L ∅ (∪)).
  - rewrite cons_middle, app_assoc, IH, subscribed_snoc_subscribe.
    by rewrite (assoc_L (∪)).
Qed.

Lemma subscribed_snoc_other dev l a :
  device a ≠ dev -> subscribed dev (l ++ [a]) = subscribed dev l.
Proof.
  intros Hne. apply set_eq. intros v. rewrite !elem_of_subscribed. split.
  - intros (x & Hx & <-). apply current_subscriptions_snoc in Hx as [[Hx _] | (_ & Hd & _)].
    + eauto.
    + done.
  - intros (x & Hx & <-). exists x. split; [|reflexivity].
    apply current_subscriptions_snoc. left. split; [exact Hx|]. by intros [Hd _].
Qed.

(** The derived state in the words of the specification: a device is
    subscribed to the podcasts whose most recent action for it is
    SUBSCRIBE. *)
Lemma subscribed_last_action dev l u :
  u ∈ subscribed dev l <-> last_action dev {| url := u |} l = Some SUBSCRIBE_ACTION.
Proof.
  unfold last_action. induction l as [|a l IH] using rev_ind.
  - cbn. split; [|done]. intros Hu. by apply not_elem_of_empty in Hu.
  - rewrite filter_app.
    destruct (decide (concerns dev {| url := u |} a)) as [Hc|Hc].
    + rewrite (filter_cons_True _ a []) by exact Hc.
      rewrite filter_nil, last_snoc. cbn.
      destruct a as [[u'] d k]. destruct Hc as [Hd Hp]. cbn in Hd, Hp.
      injection Hp as ->. subst d.
      change {| podcast := {| url := u |}; device := dev; action := k |}
        with (entry k dev u).
      destruct k.
      * rewrite subscribed_snoc_subscribe, elem_of_union, elem_of_singleton. tauto.
      * rewrite subscribed_snoc_unsubscribe, elem_of_difference, elem_of_singleton.
        split; [tauto | done].
    + rewrite (filter_cons_False _ a []) by exact Hc.
      rewrite filter_nil, app_nil_r, <- IH.
      destruct (decide (device a = dev)) as [Hd|Hd].
      * destruct a as [[u'] d k]. cbn in Hd. subst d.
        assert (u' ≠ u) as Hne by (intros ->; by apply Hc).
        change {| podcast := {| url := u' |}; device := dev; action := k |}
          with (entry k dev u').
        destruct k.
        -- rewrite subscribed_snoc_subscribe, elem_of_union, elem_of_singleton.
           split; [intros [?|?]; [done | congruence] | tauto].
        -- rewrite subscribed_snoc_unsubscribe, elem_of_difference, elem_of_singleton.
           split; [tauto | intros ?; split; [done | congruence]].
      * by rewrite subscribed_snoc_other.
Qed.

(** ** The two loops of [set_subscriptions] *)

Lemma for_each_unsubscribe dev rem st :
  (∀ r, r ∈ rem -> r ∈ podcasts st) ->
  for_each rem (fun r =>
    let* p := Podcast_objects_get r in
    SubscriptionAction_save
      {| podcast := p; device := dev; action := UNSUBSCRIBE_ACTION |}) st
  = (Ok tt, {| devices := devices st; podcasts := podcasts st;
               log := log st ++ (entry UNSUBSCRIBE_ACTION dev <$> rem) |}).
Proof.
  revert st. induction rem as [|r rem IH]; intros st Hin.
  - simpl. unfold ret. rewrite app_nil_r. by destruct st.
  - cbn [for_each]. rewrite run_bind, run_bind. unfold Podcast_objects_get.
    rewrite decide_True by (apply Hin; left).
    unfold SubscriptionAction_save, modify. rewrite IH.
    + cbn [devices podcasts log fmap list_fmap]. by rewrite <- app_assoc.
    + intros r' Hr'. apply Hin. by right.
Qed.

Lemma for_each_subscribe dev new st :
  for_each new (fun n =>
    let* (p, created) := Podcast_objects_get_or_create n in
    SubscriptionAction_save
      {| podcast := p; action := SUBSCRIBE_ACTION; device := dev |}) st
  = (Ok tt, {| devices := devices st; podcasts := list_to_set new ∪ podcasts st;
               log := log st ++ (entry SUBSCRIBE_ACTION dev <$> new) |}).
Proof.
  revert st. induction new as [|n new IH]; intros st.
  - simpl. unfold ret. rewrite app_nil_r, (left_id_L ∅ (∪)). by destruct st.
  - cbn [for_each]. rewrite run_bind, run_bind. unfold Podcast_objects_get_or_create.
    case_decide as Hn; unfold SubscriptionAction_save, modify; rewrite IH;
      cbn [devices podcasts log fmap list_fmap list_to_set];
      rewrite <- app_assoc; do 2 f_equal;
      apply set_eq; intros x; rewrite !elem_of_union, elem_of_singleton;
      intuition (subst; auto).
Qed.

(** ** What [set_subscriptions] does to the store *)

Lemma removed_urls_known urls dev st r :
  referential_integrity st -> r ∈ removed_urls urls dev (log st) -> r ∈ podcasts st.
Proof.
  unfold referential_integrity, removed_urls, subscribed_urls.
  rewrite Forall_forall, list_elem_of_filter, list_elem_of_fmap.
  intros Hint (_ & x & -> & Hx).
  apply current_subscriptions_elem in Hx as (_ & _ & Hx). by apply Hint.
Qed.

Section Reconciliation.

Variable Device_deleted_default : bool.

Lemma set_subscriptions_run urls u i st :
  referential_integrity st ->
  set_subscriptions Device_deleted_default urls u i st
  = (Ok {| content := ""; mimetype := "text/plain" |},
     {| devices := <[(u, i) := registered st u i]> (devices st);
        podcasts := list_to_set (added_urls urls (u, i) (log st)) ∪ podcasts st;
        log := log st
               ++ (entry UNSUBSCRIBE_ACTION (u, i) <$> removed_urls urls (u, i) (log st))
               ++ (entry SUBSCRIBE_ACTION (u, i) <$> added_urls urls (u, i) (log st)) |}).
Proof.
  intros Hint.
  pose proof (fun r => removed_urls_known urls (u, i) st r Hint) as Hrem.
  unfold set_subscriptions, registered.
  rewrite run_bind. unfold Device_objects_get_or_create.
  destruct (devices st !! (u, i)) as [d|] eqn:Hd; rewrite run_bind.
  - destruct (deleted d) eqn:Hdel; unfold Device_save, modify, ret;
      rewrite run_bind; unfold Device_get_subscriptions, gets; cbn [log];
      rewrite run_bind, for_each_unsubscribe by exact Hrem;
      rewrite run_bind, for_each_subscribe; cbn [devices podcasts log];
      rewrite <- app_assoc; [reflexivity|].
    assert (undelete d = d) as -> by (destruct d; simpl in *; by subst).
    by rewrite insert_id.
  - cbn [deleted].
    destruct Device_deleted_default; unfold Device_save, modify, ret;
      rewrite run_bind; unfold Device_get_subscriptions, gets; cbn [log];
      rewrite run_bind, for_each_unsubscribe by exact Hrem;
      rewrite run_bind, for_each_subscribe; cbn [devices podcasts log];
      rewrite <- app_assoc; [|reflexivity].
    by rewrite insert_insert_eq.
Qed.

(** Without referential integrity the first loop may stop at a url that
    has no podcast row; it has then written a prefix of its entries. *)
Lemma for_each_unsubscribe_any dev rem st :
  ∃ r written,
    for_each rem (fun r =>
      let* p := Podcast_objects_get r in
      SubscriptionAction_save
        {| podcast := p; device := dev; action := UNSUBSCRIBE_ACTION |}) st
    = (r, {| devices := devices st; podcasts := podcasts st;
             log := log st ++ (entry UNSUBSCRIBE_ACTION dev <$> written) |}).
Proof.
  revert st. induction rem as [|r rem IH]; intros st.
  - exists (Ok tt), []. simpl. unfold ret. rewrite app_nil_r. by destruct st.
  - cbn [for_each]. rewrite run_bind, run_bind. unfold Podcast_objects_get.
    case_decide as Hr.
    + unfold SubscriptionAction_save, modify.
      edestruct IH as (r' & written & ->). exists r', (r :: written).
      cbn [devices podcasts log fmap list_fmap]. by rewrite <- app_assoc.
    + exists (Raise DoesNotExist), []. simpl. rewrite app_nil_r. by destruct st.
Qed.

(** Whatever the outcome of the upload, the device row it looked up is
    stored with [deleted] cleared. *)
Lemma set_subscriptions_devices urls u i st :
  devices (set_subscriptions Device_deleted_default urls u i st).2
  = <[(u, i) := registered st u i]> (devices st).
Proof.
  unfold set_subscriptions, registered.
  rewrite run_bind. unfold Device_objects_get_or_create.
  destruct (devices st !! (u, i)) as [d|] eqn:Hd; rewrite run_bind.
  - destruct (deleted d) eqn:Hdel; unfold Device_save, modify, ret;
      rewrite run_bind; unfold Device_get_subscriptions, gets; cbn [log];
      rewrite run_bind;
      match goal with |- context [for_each ?rem _ ?s] =>
        destruct (for_each_unsubscribe_any (u, i) rem s) as ([[]|e] & written & ->)
      end;
      rewrite ?run_bind, ?for_each_subscribe; cbn [snd devices]; try reflexivity.
    all: assert (undelete d = d) as -> by (destruct d; simpl in *; by subst).
    all: by rewrite insert_id.
  - cbn [deleted].
    destruct Device_deleted_default; unfold Device_save, modify, ret;
      rewrite run_bind; unfold Device_get_subscriptions, gets; cbn [log];
      rewrite run_bind;
      match goal with |- context [for_each ?rem _ ?s] =>
        destruct (for_each_unsubscribe_any (u, i) rem s) as ([[]|e] & written & ->)
      end;
      rewrite ?run_bind, ?for_each_subscribe; cbn [snd devices]; try reflexivity.
    all: by rewrite insert_insert_eq.
Qed.

Lemma set_subscriptions_integrity urls u i st :
  referential_integrity st ->
  referential_integrity (set_subscriptions Device_deleted_default urls u i st).2.
Proof.
  intros Hint. rewrite set_subscriptions_run by exact Hint.
  unfold referential_integrity in *. cbn [snd log podcasts].
  rewrite !Forall_app. repeat split.
  - eapply Forall_impl; [exact Hint|]. intros a Ha. by apply elem_of_union_r.
  - rewrite Forall_fmap, Forall_forall. intros r Hr. cbn.
    apply elem_of_union_r. by apply removed_urls_known with urls (u, i).
  - rewrite Forall_fmap, Forall_forall. intros n Hn. cbn.
    apply elem_of_union_l. by apply elem_of_list_to_set.
Qed.

Lemma set_subscriptions_subscribed urls u i st :
  referential_integrity st ->
  subscribed (u, i) (log (set_subscriptions Device_deleted_default urls u i st).2) = urls.
Proof.
  intros Hint. rewrite set_subscriptions_run by exact Hint. cbn [snd log].
  rewrite app_assoc, subscribed_app_subscribe, subscribed_app_unsubscribe.
  apply set_eq. intros x.
  rewrite elem_of_union, elem_of_difference, !elem_of_list_to_set.
  unfold removed_urls, added_urls, subscribed.
  rewrite !list_elem_of_filter, elem_of_elements, elem_of_list_to_set.
  destruct (decide (x ∈ urls)), (decide (x ∈ subscribed_urls (u, i) (log st))); tauto.
Qed.

(** *** Counting the appended entries *)

Lemma occurrences_app k x l1 l2 :
  occurrences k x (l1 ++ l2) = occurrences k x l1 + occurrences k x l2.
Proof. unfold occurrences. by rewrite filter_app, length_app. Qed.

Lemma occurrences_other_kind k k' dev x l :
  k ≠ k' -> occurrences k x (entry k' dev <$> l) = 0.
Proof.
  intros Hk. unfold occurrences. induction l as [|y l IH]; [reflexivity|].
  rewrite fmap_cons, filter_cons_False; [exact IH|].
  cbn. intros [Hk' _]. by apply Hk.
Qed.

Lemma occurrences_same_kind k dev x l :
  NoDup l ->
  occurrences k x (entry k dev <$> l) = if decide (x ∈ l) then 1 else 0.
Proof.
  unfold occurrences. induction l as [|y l IH]; intros Hnd.
  - rewrite decide_False; [reflexivity | apply not_elem_of_nil].
  - apply NoDup_cons in Hnd as [Hy Hnd]. rewrite fmap_cons.
    destruct (decide (y = x)) as [->|Hne].
    + rewrite filter_cons_True by done. cbn [length]. rewrite IH by exact Hnd.
      rewrite decide_False by exact Hy. rewrite decide_True; [reflexivity | left].
    + rewrite filter_cons_False by (cbn; intros [_ ?]; done).
      rewrite IH by exact Hnd.
      destruct (decide (x ∈ l)) as [Hx|Hx].
      * rewrite decide_True; [reflexivity | by right].
      * rewrite decide_False; [reflexivity|].
        rewrite elem_of_cons. intros [->|?]; done.
Qed.

Lemma removed_urls_NoDup urls dev l : NoDup (removed_urls urls dev l).
Proof. apply NoDup_filter, subscribed_urls_NoDup. Qed.

Lemma added_urls_NoDup urls dev l : NoDup (added_urls urls dev l).
Proof. apply NoDup_filter, NoDup_elements. Qed.

Lemma elem_of_removed_urls urls dev l x :
  x ∈ removed_urls urls dev l <-> x ∈ subscribed dev l ∖ urls.
Proof.
  unfold removed_urls, subscribed.
  rewrite list_elem_of_filter, elem_of_difference, elem_of_list_to_set. tauto.
Qed.

Lemma elem_of_added_urls urls dev l x :
  x ∈ added_urls urls dev l <-> x ∈ urls ∖ subscribed dev l.
Proof.
  unfold added_urls, subscribed.
  rewrite list_elem_of_filter, elem_of_difference, elem_of_list_to_set, elem_of_elements.
  tauto.
Qed.

(** *** The claims on reconciliation *)

(** C1. On a store whose log refers to existing podcast rows only, the
    upload of the url set [urls] for device (u, i) succeeds, and reading the
    device's subscriptions back right after yields podcasts without
    repetition whose urls are exactly [urls], whatever the log held before:
    the submitted urls are the ones whose most recent action in the log is
    SUBSCRIBE. *)
Theorem set_subscriptions_then_get_subscriptions urls u i st :
  referential_integrity st ->
  ∃ resp st' ps,
    set_subscriptions Device_deleted_default urls u i st = (Ok resp, st')
    ∧ get_subscriptions u i st' = (Ok ps, st')
    ∧ NoDup ps
    ∧ list_to_set (url <$> ps) = urls
    ∧ ∀ x, x ∈ urls
           <-> last_action (u, i) {| url := x |} (log st') = Some SUBSCRIBE_ACTION.
Proof.
  intros Hint.
  pose proof (set_subscriptions_subscribed urls u i st Hint) as Hsub.
  pose proof (set_subscriptions_devices urls u i st) as Hdev.
  rewrite set_subscriptions_run in * by exact Hint.
  cbn [snd log devices] in Hsub, Hdev.
  eexists _, _, _. split; [reflexivity|].
  unfold get_subscriptions. rewrite run_bind.
  unfold get_object_or_404_Device. cbn [devices].
  rewrite lookup_insert_eq.
  assert (deleted (registered st u i) = false) as ->.
  { unfold registered. by destruct (devices st !! (u, i)). }
  rewrite run_bind. unfold Device_get_subscriptions, gets, ret. cbn [log].
  split; [reflexivity|]. split; [|split].
  - apply (NoDup_fmap_1 url). rewrite <- list_fmap_compose.
    apply (subscribed_urls_NoDup (u, i)).
  - rewrite <- list_fmap_compose. exact Hsub.
  - intros x. rewrite <- subscribed_last_action. cbn [log]. by rewrite Hsub.
Qed.

(** C2. The upload appends, after the entries the log already holds, only
    entries of device (u, i): for every url exactly one SUBSCRIBE entry if
    the url is submitted and not currently subscribed and none otherwise,
    and exactly one UNSUBSCRIBE entry if the url is currently subscribed and
    not submitted and none otherwise; a url in both sets gets no entry. *)
Theorem set_subscriptions_appends_difference urls u i st :
  referential_integrity st ->
  ∃ resp st' (appended : list SubscriptionAction),
    set_subscriptions Device_deleted_default urls u i st = (Ok resp, st')
    ∧ log st' = (log st ++ appended)%list
    ∧ (∀ a, a ∈ appended -> device a = (u, i))
    ∧ (∀ x, occurrences SUBSCRIBE_ACTION x appended
            = if decide (x ∈ urls ∖ subscribed (u, i) (log st)) then 1 else 0)
    ∧ (∀ x, occurrences UNSUBSCRIBE_ACTION x appended
            = if decide (x ∈ subscribed (u, i) (log st) ∖ urls) then 1 else 0)
    ∧ (∀ x a, x ∈ urls -> x ∈ subscribed (u, i) (log st) ->
              a ∈ appended -> url (podcast a) ≠ x).
Proof.
  intros Hint. rewrite set_subscriptions_run by exact Hint.
  eexists _, _, _. split; [reflexivity|]. cbn [log].
  split; [reflexivity|]. split; [|split; [|split]].
  - intros a. rewrite elem_of_app, !list_elem_of_fmap.
    intros [(x & -> & _) | (x & -> & _)]; reflexivity.
  - intros x. rewrite occurrences_app.
    rewrite occurrences_other_kind by discriminate.
    rewrite occurrences_same_kind by apply added_urls_NoDup.
    repeat case_decide; try reflexivity;
      exfalso; rewrite elem_of_added_urls in *; tauto.
  - intros x. rewrite occurrences_app.
    rewrite (occurrences_other_kind _ SUBSCRIBE_ACTION) by discriminate.
    rewrite occurrences_same_kind by apply removed_urls_NoDup.
    repeat case_decide; try lia;
      exfalso; rewrite elem_of_removed_urls in *; tauto.
  - intros x a Hx Hx'. rewrite elem_of_app, !list_elem_of_fmap.
    intros [(y & -> & Hy) | (y & -> & Hy)]; cbn; intros ->.
    + by apply elem_of_removed_urls, elem_of_difference in Hy as [_ Hy].
    + by apply elem_of_added_urls, elem_of_difference in Hy as [_ Hy].
Qed.

(** C5. A second upload of the same url set right after the first finds
    nothing to add and nothing to remove, and leaves the store, and so the
    log, as the first upload left it. *)
Theorem set_subscriptions_twice urls u i st :
  referential_integrity st ->
  ∃ resp st1,
    set_subscriptions Device_deleted_default urls u i st = (Ok resp, st1)
    ∧ added_urls urls (u, i) (log st1) = []
    ∧ removed_urls urls (u, i) (log st1) = []
    ∧ set_subscriptions Device_deleted_default urls u i st1 = (Ok resp, st1).
Proof.
  intros Hint.
  pose proof (set_subscriptions_subscribed urls u i st Hint) as Hsub.
  pose proof (set_subscriptions_integrity urls u i st Hint) as Hint1.
  pose proof (set_subscriptions_devices urls u i st) as Hdev.
  destruct (set_subscriptions Device_deleted_default urls u i st) as [r st1] eqn:Hrun.
  rewrite set_subscriptions_run in Hrun by exact Hint.
  injection Hrun as <- Hst1. cbn [snd] in Hsub, Hint1, Hdev.
  assert (Hadd : added_urls urls (u, i) (log st1) = []).
  { apply elem_of_nil_inv. intros x.
      rewrite elem_of_added_urls, Hsub, elem_of_difference. tauto. }
  assert (Hrem : removed_urls urls (u, i) (log st1) = []).
  { apply elem_of_nil_inv. intros x.
      rewrite elem_of_removed_urls, Hsub, elem_of_difference. tauto. }
  eexists _, st1. split; [reflexivity|]. split; [exact Hadd|]. split; [exact Hrem|].
  rewrite set_subscriptions_run by exact Hint1.
  rewrite Hadd, Hrem. cbn [fmap list_fmap list_to_set]. rewrite !app_nil_r.
  f_equal. destruct st1 as [dv ps lg]. cbn [devices podcasts log] in *.
  f_equal; [|by rewrite (left_id_L ∅ (∪))].
  apply insert_id. unfold registered. cbn [devices].
  rewrite Hdev, lookup_insert_eq. f_equal.
  unfold registered. by destruct (devices st !! (u, i)).
Qed.

(** C8. An upload for (u, i) stores, whatever its outcome, the device row
    with [deleted] cleared: created with type "other" and the uid as its
    name when there was none, the existing row otherwise. Reading never
    changes the store, and reading a device that is unknown or marked
    deleted raises the 404 error. *)
Theorem device_registry urls u i st :
  (devices st !! (u, i) = None ->
     devices (set_subscriptions Device_deleted_default urls u i st).2 !! (u, i)
     = Some {| type := "other"; name := i; deleted := false |})
  ∧ (∀ d, devices st !! (u, i) = Some d ->
     devices (set_subscriptions Device_deleted_default urls u i st).2 !! (u, i)
     = Some {| type := type d; name := name d; deleted := false |})
  ∧ (∀ k, k ≠ (u, i) ->
     devices (set_subscriptions Device_deleted_default urls u i st).2 !! k
     = devices st !! k)
  ∧ (get_subscriptions u i st).2 = st
  ∧ (devices st !! (u, i) = None -> (get_subscriptions u i st).1 = Raise Http404)
  ∧ (∀ d, devices st !! (u, i) = Some d -> deleted d = true ->
     (get_subscriptions u i st).1 = Raise Http404).
Proof.
  rewrite set_subscriptions_devices. unfold registered.
  repeat split.
  - intros ->. by rewrite lookup_insert_eq.
  - intros d ->. by rewrite lookup_insert_eq.
  - intros k Hk. by rewrite lookup_insert_ne.
  - unfold get_subscriptions. rewrite run_bind. unfold get_object_or_404_Device.
    destruct (devices st !! (u, i)) as [d|]; [destruct (deleted d)|]; reflexivity.
  - intros Hd. unfold get_subscriptions. rewrite run_bind.
    unfold get_object_or_404_Device. by rewrite Hd.
  - intros d Hd Hdel. unfold get_subscriptions. rewrite run_bind.
    unfold get_object_or_404_Device. by rewrite Hd, Hdel.
Qed.

End Reconciliation.

(** *** The claims at the sample store *)

Import Samples.

Lemma set_subscriptions_then_get_subscriptions_witness :
  referential_integrity sample_store
  ∧ ∃ resp st' ps,
      set_subscriptions false {["B"; "C"]} "u" "dev1" sample_store = (Ok resp, st')
      ∧ get_subscriptions "u" "dev1" st' = (Ok ps, st')
      ∧ NoDup ps
      ∧ list_to_set (url <$> ps) = ({["B"; "C"]} : gset string)
      ∧ ∀ x, x ∈ ({["B"; "C"]} : gset string)
             <-> last_action ("u", "dev1") {| url := x |} (log st')
                 = Some SUBSCRIBE_ACTION.
Proof.
  split; [by_evaluation|].
  apply (set_subscriptions_then_get_subscriptions false). by_evaluation.
Defined.

(** The scenario of C2: dev1 is subscribed to A and B, and B and C are
    submitted. *)
Lemma set_subscriptions_appends_difference_witness :
  referential_integrity sample_store
  ∧ subscribed ("u", "dev1") (log sample_store) = {["A"; "B"]}
  ∧ (∃ resp st' (appended : list SubscriptionAction),
      set_subscriptions false {["B"; "C"]} "u" "dev1" sample_store = (Ok resp, st')
      ∧ log st' = (log sample_store ++ appended)%list
      ∧ (∀ a, a ∈ appended -> device a = ("u", "dev1"))
      ∧ (∀ x, occurrences SUBSCRIBE_ACTION x appended
              = if decide (x ∈ ({["B"; "C"]} : gset string)
                                 ∖ subscribed ("u", "dev1") (log sample_store))
                then 1 else 0)
      ∧ (∀ x, occurrences UNSUBSCRIBE_ACTION x appended
              = if decide (x ∈ subscribed ("u", "dev1") (log sample_store)
                                 ∖ ({["B"; "C"]} : gset string))
                then 1 else 0)
      ∧ (∀ x a, x ∈ ({["B"; "C"]} : gset string) ->
                x ∈ subscribed ("u", "dev1") (log sample_store) ->
                a ∈ appended -> url (podcast a) ≠ x))
  ∧ log (set_subscriptions false {["B"; "C"]} "u" "dev1" sample_store).2
    = (log sample_store
       ++ [entry UNSUBSCRIBE_ACTION ("u", "dev1") "A";
           entry SUBSCRIBE_ACTION ("u", "dev1") "C"])%list.
Proof.
  split; [by_evaluation|]. split; [by vm_compute|]. split.
  - apply (set_subscriptions_appends_difference false). by_evaluation.
  - by vm_compute.
Defined.

Lemma set_subscriptions_twice_witness :
  referential_integrity sample_store
  ∧ ∃ resp st1,
      set_subscriptions false {["B"; "C"]} "u" "dev1" sample_store = (Ok resp, st1)
      ∧ added_urls {["B"; "C"]} ("u", "dev1") (log st1) = []
      ∧ removed_urls {["B"; "C"]} ("u", "dev1") (log st1) = []
      ∧ set_subscriptions false {["B"; "C"]} "u" "dev1" st1 = (Ok resp, st1).
Proof.
  split; [by_evaluation|].
  apply (set_subscriptions_twice false). by_evaluation.
Defined.

(** The deleted device dev2 and the unknown device dev3. *)
Lemma device_registry_witness :
  devices sample_store !! ("u", "dev2")
    = Some {| type := "desktop"; name := "Old laptop"; deleted := true |}
  ∧ (get_subscriptions "u" "dev2" sample_store).1 = Raise Http404
  ∧ devices (set_subscriptions false {["A"]} "u" "dev2" sample_store).2 !! ("u", "dev2")
    = Some {| type := "desktop"; name := "Old laptop"; deleted := false |}
  ∧ devices sample_store !! ("u", "dev3") = None
  ∧ (get_subscriptions "u" "dev3" sample_store).1 = Raise Http404
  ∧ devices (set_subscriptions false {["A"]} "u" "dev3" sample_store).2 !! ("u", "dev3")
    = Some {| type := "other"; name := "dev3"; deleted := false |}.
Proof.
  assert (H2 : devices sample_store !! ("u", "dev2")
    = Some {| type := "desktop"; name := "Old laptop"; deleted := true |})
    by (by vm_compute).
  assert (H3 : devices sample_store !! ("u", "dev3") = None) by (by vm_compute).
  destruct (device_registry false {["A"]} "u" "dev2" sample_store)
    as (_ & Hup2 & _ & _ & _ & Hread2).
  destruct (device_registry false {["A"]} "u" "dev3" sample_store)
    as (Hup3 & _ & _ & _ & Hread3 & _).
  split; [exact H2|]. split; [exact (Hread2 _ H2 eq_refl)|].
  split; [exact (Hup2 _ H2)|]. split; [exact H3|].
  split; [exact (Hread3 H3) | exact (Hup3 H3)].
Defined.

End SimpleFacts.

(** ** Lookups, cache and search ([mygpo/db/couchdb/podcast.py]) *)

Module PodcastDbFacts.

Import PodcastDb.

Lemma table_get_cold {K V} `{EqDecision K} now (k : K) (t : Table K V) :
  cold k t -> table_get now k t = None.
Proof.
  unfold cold, table_get. induction t as [|[k' [e v]] t IH]; [reflexivity|].
  rewrite fmap_cons, not_elem_of_cons. intros [Hne Hk]. cbn.
  rewrite bool_decide_eq_false_2 by (cbn; intros ?; by apply Hne). by apply IH.
Qed.

Lemma table_get_nil {K V} `{EqDecision K} now (k : K) :
  table_get now k ([] : Table K V) = None.
Proof. reflexivity. Qed.

Section Lookups.

Context `{Externals}.

(** On a cache miss the cached function is the function itself, followed
    by the storing of what it returned. *)
Lemma cache_result_miss {K V} `{EqDecision K} timeout
    (table : Cache -> Table K V) store (f : K -> M Env V) args env :
  table_get (now env) args (table (cache env)) = None ->
  (cache_result timeout table store f args env).1 = (f args env).1
  ∧ db (cache_result timeout table store f args env).2 = db (f args env).2
  ∧ requests (cache_result timeout table store f args env).2 = requests (f args env).2
  ∧ sent (cache_result timeout table store f args env).2 = sent (f args env).2.
Proof.
  intros Hmiss. unfold cache_result. rewrite Hmiss.
  by destruct (f args env) as [[v|e] env'].
Qed.


(** *** Computations that leave the cache alone *)

Lemma keeps_cache_ret {A} (a : A) : keeps_cache (ret a).
Proof. by intros env. Qed.

Lemma keeps_cache_raise {A} e : keeps_cache (raise e : M Env A).
Proof. by intros env. Qed.

Lemma keeps_cache_lift {A} (r : Result A) : keeps_cache (lift r).
Proof. by intros env. Qed.

Lemma keeps_cache_gets {A} (f : Env -> A) : keeps_cache (gets f).
Proof. by intros env. Qed.

Lemma keeps_cache_bind {A B} (c : M Env A) (k : A -> M Env B) :
  keeps_cache c -> (∀ a, keeps_cache (k a)) -> keeps_cache (Py.bind c k).
Proof.
  intros Hc Hk env. rewrite run_bind. specialize (Hc env).
  destruct (c env) as [[a|e] env1]; cbn in Hc |- *; [|exact Hc].
  by rewrite Hk.
Qed.

Lemma keeps_cache_for_each {A} (xs : list A) (body : A -> M Env unit) :
  (∀ x, keeps_cache (body x)) -> keeps_cache (for_each xs body).
Proof.
  intros Hbody. induction xs as [|x xs IH]; cbn [for_each].
  - apply keeps_cache_ret.
  - apply keeps_cache_bind; [apply Hbody | intros _; exact IH].
Qed.

Lemma keeps_cache_try_except {A} (c : M Env A) e (h : M Env A) :
  keeps_cache c -> keeps_cache h -> keeps_cache (try_except c e h).
Proof.
  intros Hc Hh env. unfold try_except. specialize (Hc env).
  destruct (c env) as [[a|x] env1]; cbn in Hc |- *; [exact Hc|].
  destruct (e x); cbn; [by rewrite Hh | exact Hc].
Qed.

Lemma keeps_cache_log_request r : keeps_cache (log_request r).
Proof. by intros env. Qed.

Lemma keeps_cache_notify o : keeps_cache (notify o).
Proof. intros env. unfold notify. by destruct (needs_update o). Qed.

Lemma keeps_cache_view v k : keeps_cache (view v k).
Proof. by intros env. Qed.

Lemma keeps_cache_view_keys v ks : keeps_cache (view_keys v ks).
Proof. by intros env. Qed.

Lemma keeps_cache_get_single_result {A} v k (wrapper : Row -> Result (option A)) :
  keeps_cache (get_single_result v k wrapper).
Proof.
  unfold get_single_result. apply keeps_cache_bind; [apply keeps_cache_view|].
  intros [|row [|row' rows]];
    [apply keeps_cache_ret | apply keeps_cache_lift | apply keeps_cache_raise].
Qed.

Create HintDb keeps discriminated.

#[local] Hint Resolve keeps_cache_ret keeps_cache_raise keeps_cache_lift
  keeps_cache_gets keeps_cache_log_request keeps_cache_notify keeps_cache_view
  keeps_cache_view_keys keeps_cache_get_single_result : keeps.

Ltac keeps_cache_step :=
  first
    [ solve [auto with keeps]
    | apply keeps_cache_bind; [|intros ?]
    | apply keeps_cache_for_each; intros ?
    | apply keeps_cache_try_except
    | match goal with
      | |- keeps_cache (match ?x with _ => _ end) => destruct x
      | |- keeps_cache (if ?b then _ else _) => destruct b
      end ].

Lemma keeps_cache_podcast_by_id_uncached i : keeps_cache (podcast_by_id_uncached i).
Proof. unfold podcast_by_id_uncached. repeat keeps_cache_step. Qed.

Lemma keeps_cache_podcast_for_oldid_uncached i :
  keeps_cache (podcast_for_oldid_uncached i).
Proof. unfold podcast_for_oldid_uncached. repeat keeps_cache_step. Qed.

Lemma keeps_cache_podcasts_by_id ids : keeps_cache (podcasts_by_id ids).
Proof. unfold podcasts_by_id. repeat keeps_cache_step. Qed.

Lemma keeps_cache_podcasts_groups_by_id ids : keeps_cache (podcasts_groups_by_id ids).
Proof. unfold podcasts_groups_by_id. repeat keeps_cache_step. Qed.

Lemma keeps_cache_search_uncached args : keeps_cache (search_uncached args).
Proof.
  destruct args as [[q offset] num_results]. unfold search_uncached, db_search.
  repeat keeps_cache_step.
Qed.

Lemma keeps_cache_Podcast_save p : keeps_cache (Podcast_save p).
Proof.
  unfold Podcast_save. apply keeps_cache_bind; [apply keeps_cache_log_request|].
  intros _ env. cbv zeta. repeat case_match; reflexivity.
Qed.

(** *** Single lookups *)

Lemma podcast_by_id_uncached_falsy i env :
  truthy i = false ->
  podcast_by_id_uncached i env = (Raise (QueryParameterMissing "podcast_id"), env).
Proof. intros Hi. unfold podcast_by_id_uncached. by rewrite Hi. Qed.

(** *** What the cached functions store *)

Lemma cold_table_set {K V} `{EqDecision K} (k k' : K) e (v : V) (t : Table K V) :
  k ≠ k' -> cold k t -> cold k (table_set k' e v t).
Proof.
  unfold cold, table_set. intros Hne Hk.
  rewrite fmap_cons, not_elem_of_cons. split; [exact Hne|].
  rewrite list_elem_of_fmap. intros ([k1 ev] & -> & Hin).
  apply list_elem_of_In, filter_In in Hin as [Hin _].
  apply Hk, list_elem_of_fmap. exists (k1, ev). split; [reflexivity|].
  by apply list_elem_of_In.
Qed.

(** A cached call leaves the cache as it was, or the function returned
    and its value went into the table under the arguments of the call. *)
Lemma cache_result_cache {K V} `{EqDecision K} timeout
    (table : Cache -> Table K V) store (f : K -> M Env V) args env :
  keeps_cache (f args) ->
  cache (cache_result timeout table store f args env).2 = cache env
  ∨ ∃ v expiry, (f args env).1 = Ok v
      ∧ cache (cache_result timeout table store f args env).2
        = store (table_set args expiry v (table (cache env))) (cache env).
Proof.
  intros Hkeeps. unfold cache_result.
  destruct (table_get _ _ _); [by left|].
  specialize (Hkeeps env). destruct (f args env) as [[v|e] env1]; cbn in Hkeeps |- *.
  - right. exists v, (now env1 + timeout). by rewrite Hkeeps.
  - by left.
Qed.

Lemma no_refused_keys_clear : no_refused_keys clear.
Proof. split; [intros k _|]; apply not_elem_of_nil. Qed.

Lemma no_refused_keys_podcast_by_id i env :
  no_refused_keys (cache env) -> no_refused_keys (cache (podcast_by_id i env).2).
Proof.
  intros [Hid Hold]. unfold podcast_by_id.
  destruct (cache_result_cache (60 * 60) cached_podcast_by_id store_podcast_by_id
              podcast_by_id_uncached i env (keeps_cache_podcast_by_id_uncached i))
    as [-> | (v & expiry & Hrun & ->)]; [by split|].
  split; [|exact Hold]. intros k Hk. cbn. apply cold_table_set; [|by apply Hid].
  intros ->. by rewrite podcast_by_id_uncached_falsy in Hrun.
Qed.

Lemma no_refused_keys_podcast_for_oldid i env :
  no_refused_keys (cache env) -> no_refused_keys (cache (podcast_for_oldid i env).2).
Proof.
  intros [Hid Hold]. unfold podcast_for_oldid.
  destruct (cache_result_cache (60 * 60) cached_podcast_for_oldid
              store_podcast_for_oldid podcast_for_oldid_uncached i env
              (keeps_cache_podcast_for_oldid_uncached i))
    as [-> | (v & expiry & Hrun & ->)]; [by split|].
  split; [exact Hid|]. cbn. apply cold_table_set; [|exact Hold].
  by intros <-.
Qed.

Lemma no_refused_keys_search q offset num_results env :
  no_refused_keys (cache env) ->
  no_refused_keys (cache (search q offset num_results env).2).
Proof.
  intros [Hid Hold]. unfold search.
  destruct (cache_result_cache (60 * 60) cached_search store_search
              search_uncached (q, offset, num_results) env
              (keeps_cache_search_uncached _))
    as [-> | (v & expiry & Hrun & ->)]; by split.
Qed.

Lemma repeat_on_conflict_cache (P : Cache -> Prop) n reload_f f podcast env :
  (∀ p, keeps_cache (reload_f p)) ->
  (∀ p env1, P (cache env1) -> P (cache (f p env1).2)) ->
  P (cache env) -> P (cache (repeat_on_conflict n reload_f f podcast env).2).
Proof.
  intros Hreload Hf. revert podcast env.
  induction n as [|n IH]; intros podcast env HP; cbn; [exact HP|].
  specialize (Hf podcast env HP).
  destruct (f podcast env) as [[[]|e] env1]; cbn in Hf |- *; [exact Hf|].
  destruct (is_ResourceConflict e); [|exact Hf].
  destruct podcast as [p|]; [|exact Hf].
  rewrite run_bind. specialize (Hreload p env1).
  destruct (reload_f p env1) as [[fresh|e'] env2]; cbn in Hreload |- *.
  - apply IH. by rewrite Hreload.
  - by rewrite Hreload.
Qed.

Lemma no_refused_keys_update_additional_data podcast twitter' env :
  no_refused_keys (cache env) ->
  no_refused_keys (cache (update_additional_data podcast twitter' env).2).
Proof.
  unfold update_additional_data. apply repeat_on_conflict_cache.
  - intros p. apply keeps_cache_podcast_by_id_uncached.
  - intros [p|] env1 HP; cbn; [|exact HP]. rewrite run_bind.
    pose proof (keeps_cache_Podcast_save
      {| podcast_id := podcast_id p; rev := rev p; title := title p;
         description := description p; twitter := twitter';
         related_podcasts := related_podcasts p |} env1) as Hsave.
    destruct (Podcast_save _ env1) as [[[]|e] env2]; cbn in Hsave |- *.
    + apply no_refused_keys_clear.
    + by rewrite Hsave.
Qed.

Lemma keeps_cache_update_related_podcasts podcast related :
  keeps_cache (update_related_podcasts podcast related).
Proof.
  intros env. unfold update_related_podcasts.
  apply (repeat_on_conflict_cache (fun c => c = cache env)); [| |reflexivity].
  - intros p. apply keeps_cache_podcast_by_id_uncached.
  - intros [p|] env1 HP; cbn; [|exact HP].
    case_decide; [exact HP|]. by rewrite keeps_cache_Podcast_save.
Qed.


Lemma view_run v k env :
  view v k env = (Ok (rows_of (db env) v k), asked (ViewRequest v [k]) env).
Proof. reflexivity. Qed.

Lemma view_keys_run v ks env :
  view_keys v ks env
  = (Ok (ks ≫= rows_of (db env) v), asked (ViewRequest v ks) env).
Proof. reflexivity. Qed.

Lemma get_single_result_no_row {A} v k (wrapper : Row -> Result (option A)) env :
  index (db env) v k = [] ->
  get_single_result v k wrapper env = (Ok None, asked (ViewRequest v [k]) env).
Proof.
  intros Hrows. unfold get_single_result. rewrite run_bind, view_run.
  unfold rows_of. by rewrite Hrows.
Qed.

Lemma get_single_result_one_row {A} v k (wrapper : Row -> Result (option A)) env rk i :
  index (db env) v k = [(rk, i)] ->
  get_single_result v k wrapper env
  = (wrapper {| key := rk; id := i; doc := docs (db env) !! i |},
     asked (ViewRequest v [k]) env).
Proof.
  intros Hrows. unfold get_single_result. rewrite run_bind, view_run.
  unfold rows_of. by rewrite Hrows.
Qed.



Lemma notify_ok o env : (notify o env).1 = Ok tt.
Proof. unfold notify. by destruct (needs_update o). Qed.







(** *** Search *)

(** C9. When the request to the search index fails, [search] returns the
    empty list and the total zero, and raises nothing. *)
Theorem search_backend_unreachable q offset num_results env :
  lucene (db env) (lucene_query ["title"; "description"] q) num_results offset
    = Raise RequestFailed ->
  (search_uncached (q, offset, num_results) env).1 = Ok ([], 0%nat)
  ∧ (cold (q, offset, num_results) (cached_search (cache env)) ->
     (search q offset num_results env).1 = Ok ([], 0%nat)).
Proof.
  intros Hdown.
  assert (Hbody : (search_uncached (q, offset, num_results) env).1 = Ok ([], 0%nat)).
  { unfold search_uncached. destruct (String.eqb q ""); [reflexivity|].
    cbv zeta. unfold try_except. rewrite run_bind.
    unfold db_search. rewrite run_bind. unfold log_request, modify.
    rewrite run_bind. unfold gets. cbn [db]. rewrite Hdown.
    rewrite run_bind. reflexivity. }
  split; [exact Hbody|].
  intros Hc. unfold search.
  edestruct (cache_result_miss (60 * 60) cached_search store_search
               search_uncached (q, offset, num_results) env) as (-> & _).
  - by apply table_get_cold.
  - exact Hbody.
Qed.

(** *** Groups *)

Lemma get_podcast_by_id_finds pg p :
  p ∈ podcasts pg ->
  ∃ p', get_podcast_by_id pg (Single (AStr (get_id p))) = Some p'
        ∧ p' ∈ podcasts pg ∧ get_id p' = get_id p.
Proof.
  unfold get_podcast_by_id. intros Hin.
  destruct (List.find _ (podcasts pg)) as [p'|] eqn:Hfind.
  - exists p'. split; [reflexivity|].
    apply find_some in Hfind as [Hin' Hk]. split; [by apply list_elem_of_In|].
    apply bool_decide_eq_true in Hk. congruence.
  - exfalso. apply list_elem_of_In in Hin.
    pose proof (find_none _ _ Hfind p Hin) as Hno. cbn in Hno.
    by rewrite bool_decide_eq_true_2 in Hno.
Qed.

Lemma _wrap_podcast_group_podcast res o :
  _wrap_podcast_group res = Ok (Some o) -> is_podcast o = true.
Proof.
  unfold _wrap_podcast_group. intros Hw.
  destruct (doc res) as [[p|g|t]|]; cbv zeta in Hw; simplify_eq; try done.
  all: destruct (get_podcast_by_id _ _); by simplify_eq/=.
Qed.

Lemma _wrap_podcast_group_key1_podcast res o :
  _wrap_podcast_group_key1 res = Ok (Some o) -> is_podcast o = true.
Proof.
  unfold _wrap_podcast_group_key1. intros Hw.
  destruct (doc res) as [[p|g|t]|]; simplify_eq; try done.
  all: destruct (key_item1 (key res)); cbv zeta in Hw; simplify_eq.
  all: destruct (get_podcast_by_id _ _); by simplify_eq/=.
Qed.

Lemma get_single_result_wrapped {A} v k (wrapper : Row -> Result (option A)) env a :
  (get_single_result v k wrapper env).1 = Ok (Some a) ->
  ∃ row, wrapper row = Ok (Some a).
Proof.
  unfold get_single_result. rewrite run_bind, view_run.
  destruct (rows_of (db env) v k) as [|row [|row' rows]]; cbn; try done.
  intros Hw. by exists row.
Qed.

Lemma podcast_by_id_uncached_podcast i env o :
  (podcast_by_id_uncached i env).1 = Ok (Some o) -> is_podcast o = true.
Proof.
  unfold podcast_by_id_uncached. destruct (truthy i); cbn [negb]; [|done].
  rewrite run_bind.
  destruct (get_single_result _ _ _ env) as [[[o'|]|e] env'] eqn:Hg; cbn; try done.
  rewrite run_bind. pose proof (notify_ok o' env') as Hn.
  destruct (notify o' env') as [[[]|e] env'']; cbn in Hn |- *; try done.
  intros [= <-].
  destruct (get_single_result_wrapped "podcasts/by_id" (Single i) _wrap_podcast_group
              env o') as [row Hrow]; [by rewrite Hg|].
  by apply _wrap_podcast_group_podcast in Hrow.
Qed.

Lemma podcast_for_oldid_uncached_podcast i env o :
  (podcast_for_oldid_uncached i env).1 = Ok (Some o) -> is_podcast o = true.
Proof.
  assert (Hgo : ∀ n,
    (Py.bind (get_single_result "podcasts/by_oldid" (Single (AInt n))
                _wrap_podcast_group_key1)
       (fun podcast => match podcast with
                       | None => ret None
                       | Some p => let* _ := notify p in ret (Some p)
                       end) env).1 = Ok (Some o) -> is_podcast o = true).
  { intros n. rewrite run_bind.
    destruct (get_single_result _ _ _ env) as [[[o'|]|e] env'] eqn:Hg; cbn; try done.
    rewrite run_bind. pose proof (notify_ok o' env') as Hn.
    destruct (notify o' env') as [[[]|e] env'']; cbn in Hn |- *; try done.
    intros [= <-].
    destruct (get_single_result_wrapped "podcasts/by_oldid" (Single (AInt n))
                _wrap_podcast_group_key1 env o') as [row Hrow]; [by rewrite Hg|].
    by apply _wrap_podcast_group_key1_podcast in Hrow. }
  unfold podcast_for_oldid_uncached. destruct i as [|n|s]; [done| |].
  - rewrite run_bind. cbn [long lift]. apply Hgo.
  - rewrite run_bind. cbn [long lift].
    destruct (long_of_str s) as [n|]; [apply Hgo | done].
Qed.

(** *** No group in the cache *)

Lemma table_get_entry {K V} `{EqDecision K} now (k : K) (t : Table K V) v :
  table_get now k t = Some v -> ∃ expiry, (k, (expiry, v)) ∈ t.
Proof.
  unfold table_get.
  destruct (List.find _ t) as [[k' [expiry v']]|] eqn:Hfind; [|done].
  apply find_some in Hfind as [Hin Hk]. apply bool_decide_eq_true in Hk.
  cbn in Hk. subst k'. destruct (_ <? _)%nat; [|done]. intros [= <-].
  exists expiry. by apply list_elem_of_In.
Qed.

Lemma Forall_table_set {K V} `{EqDecision K} (P : K * (nat * V) -> Prop) k e v
    (t : Table K V) :
  P (k, (e, v)) -> Forall P t -> Forall P (table_set k e v t).
Proof.
  intros Hnew Hold. unfold table_set. constructor; [exact Hnew|].
  rewrite Forall_forall in *. intros x Hx.
  apply list_elem_of_In, filter_In in Hx as [Hx _]. by apply Hold, list_elem_of_In.
Qed.

Lemma holds_no_group_clear : holds_no_group clear.
Proof. split; constructor. Qed.

Lemma holds_no_group_podcast_by_id i env :
  holds_no_group (cache env) -> holds_no_group (cache (podcast_by_id i env).2).
Proof.
  intros [Hid Hold]. unfold podcast_by_id.
  destruct (cache_result_cache (60 * 60) cached_podcast_by_id store_podcast_by_id
              podcast_by_id_uncached i env (keeps_cache_podcast_by_id_uncached i))
    as [-> | (v & expiry & Hrun & ->)]; [by split|].
  split; [|exact Hold]. cbn. apply Forall_table_set; [|exact Hid].
  cbn. intros o ->. by apply (podcast_by_id_uncached_podcast i env).
Qed.

Lemma holds_no_group_podcast_for_oldid i env :
  holds_no_group (cache env) -> holds_no_group (cache (podcast_for_oldid i env).2).
Proof.
  intros [Hid Hold]. unfold podcast_for_oldid.
  destruct (cache_result_cache (60 * 60) cached_podcast_for_oldid
              store_podcast_for_oldid podcast_for_oldid_uncached i env
              (keeps_cache_podcast_for_oldid_uncached i))
    as [-> | (v & expiry & Hrun & ->)]; [by split|].
  split; [exact Hid|]. cbn. apply Forall_table_set; [|exact Hold].
  cbn. intros o ->. by apply (podcast_for_oldid_uncached_podcast i env).
Qed.

Lemma holds_no_group_search q offset num_results env :
  holds_no_group (cache env) ->
  holds_no_group (cache (search q offset num_results env).2).
Proof.
  intros [Hid Hold]. unfold search.
  destruct (cache_result_cache (60 * 60) cached_search store_search
              search_uncached (q, offset, num_results) env
              (keeps_cache_search_uncached _))
    as [-> | (v & expiry & Hrun & ->)]; by split.
Qed.

Lemma holds_no_group_update_additional_data podcast twitter' env :
  holds_no_group (cache env) ->
  holds_no_group (cache (update_additional_data podcast twitter' env).2).
Proof.
  unfold update_additional_data. apply repeat_on_conflict_cache.
  - intros p. apply keeps_cache_podcast_by_id_uncached.
  - intros [p|] env1 HP; cbn; [|exact HP]. rewrite run_bind.
    pose proof (keeps_cache_Podcast_save
      {| podcast_id := podcast_id p; rev := rev p; title := title p;
         description := description p; twitter := twitter';
         related_podcasts := related_podcasts p |} env1) as Hsave.
    destruct (Podcast_save _ env1) as [[[]|e] env2]; cbn in Hsave |- *.
    + apply holds_no_group_clear.
    + by rewrite Hsave.
Qed.

Lemma holds_no_group_update_related_podcasts podcast related env :
  holds_no_group (cache env) ->
  holds_no_group (cache (update_related_podcasts podcast related env).2).
Proof. by rewrite keeps_cache_update_related_podcasts. Qed.

(** A cached single lookup that the cache answers hands out what the
    cache holds. *)
Lemma cached_lookup_no_group (t : Table Atom (option Obj)) now i o :
  Forall (fun e => ∀ o, e.2.2 = Some o -> is_podcast o = true) t ->
  table_get now i t = Some (Some o) -> is_podcast o = true.
Proof.
  intros Hall Hget. apply table_get_entry in Hget as [expiry Hin].
  rewrite Forall_forall in Hall. by apply (Hall _ Hin).
Qed.

(** The body of the lookup by old id, once [long] has read the old id. *)
Lemma podcast_for_oldid_uncached_long oldid n env :
  long oldid = Ok n ->
  podcast_for_oldid_uncached oldid env
  = (let* podcast :=
       get_single_result "podcasts/by_oldid" (Single (AInt n))
         _wrap_podcast_group_key1 in
     match podcast with
     | None => ret None
     | Some p => let* _ := notify p in ret (Some p)
     end) env.
Proof.
  intros Hlong. unfold podcast_for_oldid_uncached.
  destruct oldid as [|k|s]; [done| |]; rewrite run_bind; unfold lift; by rewrite Hlong.
Qed.

(** C6. Group transparency holds of the lookup by id and fails of the
    lookup by old id. Where the view by id answers the id of a member with
    the row of its group, [podcast_by_id] returns that member, not the
    group. Where the view by old id answers the number with the row of a
    group, [podcast_for_oldid] raises TypeError: the row has the key it was
    asked with, a number, and the wrapper reads the second component of
    that key. So what the lookup by old id returns, if it returns an
    object, is a document that was stored as a podcast of its own, never a
    member of a group. (In these three statements the cached entry points
    are taken at a call that the cache does not answer.) Neither lookup
    ever hands out a group, whether the cache answers the call or not:
    the cache holds none ([holds_no_group], which is true of the empty
    cache and which every function of the module keeps). *)
Theorem oldid_lookup_breaks_on_group env :
  (∀ i gid g m,
     index (db env) "podcasts/by_id" (Single (AStr i)) = [(Single (AStr i), gid)] ->
     docs (db env) !! gid = Some (DocPodcastGroup g) ->
     m ∈ podcasts g -> get_id m = i -> i ≠ "" ->
     table_get (now env) (AStr i) (cached_podcast_by_id (cache env)) = None ->
     ∃ p, (podcast_by_id (AStr i) env).1 = Ok (Some (APodcast p))
          ∧ p ∈ podcasts g ∧ get_id p = i)
  ∧ (∀ oldid n gid g,
       long oldid = Ok n ->
       index (db env) "podcasts/by_oldid" (Single (AInt n)) = [(Single (AInt n), gid)] ->
       docs (db env) !! gid = Some (DocPodcastGroup g) ->
       table_get (now env) oldid (cached_podcast_for_oldid (cache env)) = None ->
       podcast_for_oldid oldid env
       = (Raise TypeError, asked (ViewRequest "podcasts/by_oldid" [Single (AInt n)]) env))
  ∧ (∀ oldid n o,
       long oldid = Ok n ->
       keyed_as_asked (db env) "podcasts/by_oldid" (Single (AInt n)) ->
       table_get (now env) oldid (cached_podcast_for_oldid (cache env)) = None ->
       (podcast_for_oldid oldid env).1 = Ok (Some o) ->
       ∃ gid p, index (db env) "podcasts/by_oldid" (Single (AInt n))
                = [(Single (AInt n), gid)]
                ∧ docs (db env) !! gid = Some (DocPodcast p) ∧ o = APodcast p)
  ∧ (holds_no_group (cache env) ->
     ∀ i o, ((podcast_by_id i env).1 = Ok (Some o) -> is_podcast o = true)
            ∧ ((podcast_for_oldid i env).1 = Ok (Some o) -> is_podcast o = true)).
Proof.
  split; [|split; [|split]].
  4:{ intros [Hid Hold] i o. split.
      - unfold podcast_by_id, cache_result.
        destruct (table_get _ i (cached_podcast_by_id _)) as [v|] eqn:Hget.
        + cbn. intros [= ->]. by apply (cached_lookup_no_group _ _ _ _ Hid Hget).
        + pose proof (podcast_by_id_uncached_podcast i env o) as Hbody.
          destruct (podcast_by_id_uncached i env) as [[v|e] env']; cbn in *; done.
      - unfold podcast_for_oldid, cache_result.
        destruct (table_get _ i (cached_podcast_for_oldid _)) as [v|] eqn:Hget.
        + cbn. intros [= ->]. by apply (cached_lookup_no_group _ _ _ _ Hold Hget).
        + pose proof (podcast_for_oldid_uncached_podcast i env o) as Hbody.
          destruct (podcast_for_oldid_uncached i env) as [[v|e] env']; cbn in *; done. }
  - intros i gid g m Hrows Hdoc Hm Hi Hne Hmiss.
    destruct (get_podcast_by_id_finds g m Hm) as (p & Hfind & Hp & Hid).
    exists p. split; [|split; [exact Hp | congruence]].
    unfold podcast_by_id.
    destruct (cache_result_miss (60 * 60) cached_podcast_by_id store_podcast_by_id
                podcast_by_id_uncached (AStr i) env Hmiss) as (-> & _).
    unfold podcast_by_id_uncached.
    assert (truthy (AStr i) = true) as ->.
    { cbn. apply negb_true_iff. by apply String.eqb_neq. }
    cbn [negb]. rewrite run_bind.
    rewrite (get_single_result_one_row _ _ _ _ _ _ Hrows).
    unfold _wrap_podcast_group. cbn [doc key]. rewrite Hdoc. cbv zeta.
    cbn [PodcastGroup_wrap]. rewrite <- Hi, Hfind. cbn.
    rewrite run_bind.
    pose proof (notify_ok (APodcast p)
                  (asked (ViewRequest "podcasts/by_id" [Single (AStr (get_id m))]) env))
      as Hn.
    destruct (notify _ _) as [[[]|e] env'']; cbn in Hn |- *; done.
  - intros oldid n gid g Hlong Hrows Hdoc Hmiss.
    unfold podcast_for_oldid, cache_result. rewrite Hmiss.
    rewrite (podcast_for_oldid_uncached_long oldid n env Hlong), run_bind.
    rewrite (get_single_result_one_row _ _ _ _ _ _ Hrows).
    unfold _wrap_podcast_group_key1. cbn [doc key]. by rewrite Hdoc.
  - intros oldid n o Hlong Hkeyed Hmiss.
    unfold podcast_for_oldid.
    destruct (cache_result_miss (60 * 60) cached_podcast_for_oldid
                store_podcast_for_oldid podcast_for_oldid_uncached oldid env Hmiss)
      as (-> & _).
    rewrite (podcast_for_oldid_uncached_long oldid n env Hlong), run_bind.
    unfold keyed_as_asked in Hkeyed.
    destruct (index (db env) "podcasts/by_oldid" (Single (AInt n)))
      as [|[rk gid] [|row' rows]] eqn:Hrows.
    + by rewrite (get_single_result_no_row _ _ _ _ Hrows).
    + apply Forall_cons in Hkeyed as [Hrk _]. cbn in Hrk. subst rk.
      rewrite (get_single_result_one_row _ _ _ _ _ _ Hrows).
      unfold _wrap_podcast_group_key1. cbn [doc key].
      destruct (docs (db env) !! gid) as [[p|g|t]|] eqn:Hdoc; cbn; try done.
      rewrite run_bind.
      pose proof (notify_ok (APodcast p)
                    (asked (ViewRequest "podcasts/by_oldid" [Single (AInt n)]) env))
        as Hn.
      destruct (notify _ _) as [[[]|e] env'']; cbn in Hn |- *; try done.
      intros [= <-]. by exists gid, p.
    + unfold get_single_result. rewrite run_bind, view_run.
      unfold rows_of. by rewrite Hrows.
Qed.

(** *** Batch lookups *)






(** *** Writes and the cache *)

Lemma podcast_by_id_cleared i env :
  cache env = clear ->
  (podcast_by_id i env).1 = (podcast_by_id_uncached i env).1.
Proof.
  intros Hc. unfold podcast_by_id.
  apply (cache_result_miss (60 * 60) cached_podcast_by_id store_podcast_by_id).
  by rewrite Hc.
Qed.

Lemma podcast_for_oldid_cleared i env :
  cache env = clear ->
  (podcast_for_oldid i env).1 = (podcast_for_oldid_uncached i env).1.
Proof.
  intros Hc. unfold podcast_for_oldid.
  apply (cache_result_miss (60 * 60) cached_podcast_for_oldid store_podcast_for_oldid).
  by rewrite Hc.
Qed.

Lemma repeat_on_conflict_cleared n reload_f f podcast env env' :
  (∀ p env1 env2, f p env1 = (Ok tt, env2) -> cache env2 = clear) ->
  repeat_on_conflict n reload_f f podcast env = (Ok tt, env') ->
  cache env' = clear.
Proof.
  intros Hf. revert podcast env.
  induction n as [|n IH]; intros podcast env; cbn; [done|].
  destruct (f podcast env) as [[[]|e] env1] eqn:Hrun.
  - intros [= <-]. by eapply Hf.
  - destruct (is_ResourceConflict e); [|done].
    destruct podcast as [p|]; [|done].
    rewrite run_bind. destruct (reload_f p env1) as [[fresh|e'] env2]; [|done].
    apply IH.
Qed.

(** [update_additional_data] empties the whole cache, so that the cached
    lookups that follow it read the database. *)
Lemma update_additional_data_clears podcast twitter' env env' :
  update_additional_data podcast twitter' env = (Ok tt, env') ->
  cache env' = clear
  ∧ (∀ i, (podcast_by_id i env').1 = (podcast_by_id_uncached i env').1)
  ∧ (∀ i, (podcast_for_oldid i env').1 = (podcast_for_oldid_uncached i env').1).
Proof.
  intros Hrun.
  assert (Hc : cache env' = clear).
  { unfold update_additional_data in Hrun.
    eapply repeat_on_conflict_cleared; [|exact Hrun].
    intros [p|] env1 env2; cbn; [|done].
    rewrite run_bind. destruct (Podcast_save _ env1) as [[[]|e] env3]; [|done].
    by intros [= <-]. }
  split; [exact Hc|]. split; intros i.
  - by apply podcast_by_id_cleared.
  - by apply podcast_for_oldid_cleared.
Qed.

End Lookups.

(** *** The claims at the sample database *)

Import Samples.



Lemma search_backend_unreachable_witness :
  lucene (db sample_env)
    (lucene_query (Externals := sample_externals) ["title"; "description"] "unreachable")
    20 0 = Raise RequestFailed
  ∧ (search (H := sample_externals) "unreachable" 0 20 sample_env).1 = Ok ([], 0%nat).
Proof.
  split; [reflexivity|].
  apply (search_backend_unreachable (H := sample_externals) "unreachable" 0 20 sample_env);
    [reflexivity | by_evaluation].
Defined.

Lemma oldid_lookup_breaks_on_group_witness :
  docs (db sample_env) !! "g1" = Some (DocPodcastGroup g1)
  ∧ (∃ p, (podcast_by_id (H := sample_externals) (AStr "m1") sample_env).1
          = Ok (Some (APodcast p))
          ∧ p ∈ podcasts g1 ∧ get_id p = "m1")
  ∧ podcast_for_oldid (H := sample_externals) (AInt 7) sample_env
    = (Raise TypeError,
       asked (ViewRequest "podcasts/by_oldid" [Single (AInt 7)]) sample_env)
  ∧ (∃ gid p, index (db sample_env) "podcasts/by_oldid" (Single (AInt 3))
              = [(Single (AInt 3), gid)]
              ∧ docs (db sample_env) !! gid = Some (DocPodcast p)
              ∧ APodcast p1 = APodcast p).
Proof.
  destruct (oldid_lookup_breaks_on_group (H := sample_externals) sample_env)
    as (Hid & Hold & Hown & _).
  split; [reflexivity|]. split; [|split].
  - apply (Hid "m1" "g1" g1 m1); [reflexivity | reflexivity | by_evaluation
                                  | reflexivity | discriminate | reflexivity].
  - apply (Hold (AInt 7) 7%Z "g1" g1); reflexivity.
  - apply (Hown (AInt 3) 3%Z (APodcast p1)); [reflexivity | by_evaluation
                                              | reflexivity | by vm_compute].
Defined.



(** C3, at the sample database. The podcast p1 is looked up, which fills
    the cache; [update_related_podcasts] then writes its new list of related
    podcasts and returns. The cached lookup that follows still answers with
    the podcast as it was, while the database holds the new list. *)
Theorem update_related_podcasts_leaves_cache_stale :
  let env1 := (podcast_by_id (H := sample_externals) (AStr "p1") sample_env).2 in
  let written := update_related_podcasts (H := sample_externals) p1 ["p2"] env1 in
  let env2 := written.2 in
  written.1 = Ok tt
  ∧ cache env2 = cache env1
  ∧ cache env2 ≠ clear
  ∧ (podcast_by_id (H := sample_externals) (AStr "p1") env2).1
    = Ok (Some (APodcast p1))
  ∧ (podcast_by_id_uncached (H := sample_externals) (AStr "p1") env2).1
    = Ok (Some (APodcast
        {| podcast_id := "p1"; rev := 1; title := "Show"; description := "A show";
           twitter := ""; related_podcasts := ["p2"] |}))
  ∧ (podcast_by_id (H := sample_externals) (AStr "p1") env2).1
    ≠ (podcast_by_id_uncached (H := sample_externals) (AStr "p1") env2).1.
Proof.
  cbv zeta. repeat split; try (by vm_compute).
Qed.

(** The same steps with [update_additional_data]: the cached lookup
    answers with what the database holds. *)
Example update_additional_data_keeps_cache_fresh :
  let env1 := (podcast_by_id (H := sample_externals) (AStr "p1") sample_env).2 in
  let written := update_additional_data (H := sample_externals) p1 "@show" env1 in
  let env2 := written.2 in
  written.1 = Ok tt
  ∧ cache env2 = clear
  ∧ (podcast_by_id (H := sample_externals) (AStr "p1") env2).1
    = Ok (Some (APodcast
        {| podcast_id := "p1"; rev := 1; title := "Show"; description := "A show";
           twitter := "@show"; related_podcasts := [] |})).
Proof.
  cbv zeta. repeat split; by vm_compute.
Qed.

End PodcastDbFacts.


(** ** More on reconciliation ([mygpo/api/simple.py]) *)

Module SimpleMoreFacts.

Import Simple SimpleNotions SimpleFacts.

Lemma written_before_all rows rem :
  Forall (fun r => r ∈ rows) rem -> written_before rows rem = rem.
Proof.
  induction 1 as [|r rem Hr _ IH]; [reflexivity|]. cbn.
  rewrite decide_True by exact Hr. by f_equal.
Qed.

(** The first loop, whatever the podcast table holds: it writes the
    entries of the urls it gets through, and raises at the first url that
    has no row. *)
Lemma for_each_unsubscribe_outcome dev rem st :
  for_each rem (fun r =>
    let* p := Podcast_objects_get r in
    SubscriptionAction_save
      {| podcast := p; device := dev; action := UNSUBSCRIBE_ACTION |}) st
  = (if decide (Forall (fun r => r ∈ podcasts st) rem)
     then Ok tt else Raise DoesNotExist,
     {| devices := devices st; podcasts := podcasts st;
        log := log st
          ++ (entry UNSUBSCRIBE_ACTION dev <$> written_before (podcasts st) rem) |}).
Proof.
  revert st. induction rem as [|r rem IH]; intros st.
  - cbn. unfold ret. rewrite app_nil_r, decide_True by constructor.
    by destruct st.
  - cbn [for_each written_before]. rewrite run_bind, run_bind.
    unfold Podcast_objects_get. destruct (decide (r ∈ podcasts st)) as [Hr|Hr].
    + unfold SubscriptionAction_save, modify. rewrite IH.
      cbn [devices podcasts log fmap list_fmap]. rewrite <- app_assoc. f_equal.
      destruct (decide (Forall (fun r0 => r0 ∈ podcasts st) rem)) as [Hall|Hall].
      * by rewrite decide_True by (by constructor).
      * rewrite decide_False; [reflexivity|]. by intros [_ ?]%Forall_cons.
    + rewrite decide_False by (by intros [? _]%Forall_cons).
      cbn. rewrite app_nil_r. by destruct st.
Qed.

Section Outcome.

Variable Device_deleted_default : bool.

(** The upload in full: what it returns and what it leaves in the store,
    for every store. *)
Lemma set_subscriptions_outcome urls u i st :
  set_subscriptions Device_deleted_default urls u i st
  = if decide (Forall (fun r => r ∈ podcasts st) (removed_urls urls (u, i) (log st)))
    then (Ok {| content := ""; mimetype := "text/plain" |},
          {| devices := <[(u, i) := registered st u i]> (devices st);
             podcasts := list_to_set (added_urls urls (u, i) (log st)) ∪ podcasts st;
             log := log st
               ++ (entry UNSUBSCRIBE_ACTION (u, i) <$> removed_urls urls (u, i) (log st))
               ++ (entry SUBSCRIBE_ACTION (u, i) <$> added_urls urls (u, i) (log st)) |})
    else (Raise DoesNotExist,
          {| devices := <[(u, i) := registered st u i]> (devices st);
             podcasts := podcasts st;
             log := log st
               ++ (entry UNSUBSCRIBE_ACTION (u, i) <$>
                     written_before (podcasts st) (removed_urls urls (u, i) (log st))) |}).
Proof.
  assert (Hdev : ∀ d, devices st !! (u, i) = Some d -> deleted d = false ->
            <[(u, i) := undelete d]> (devices st) = devices st).
  { intros d Hd Hdel.
    assert (undelete d = d) as -> by (destruct d; simpl in *; by subst).
    by rewrite insert_id. }
  unfold set_subscriptions, registered.
  rewrite run_bind. unfold Device_objects_get_or_create.
  destruct (devices st !! (u, i)) as [d|] eqn:Hd; rewrite run_bind.
  - destruct (deleted d) eqn:Hdel; unfold Device_save, modify, ret;
      rewrite run_bind; unfold Device_get_subscriptions, gets; cbn [log];
      rewrite run_bind, for_each_unsubscribe_outcome; cbn [devices podcasts log];
      fold (subscribed_urls (u, i) (log st));
      fold (removed_urls urls (u, i) (log st));
      (case_decide as Hall;
       [ rewrite written_before_all by exact Hall;
         rewrite run_bind, for_each_subscribe; cbn [devices podcasts log];
         rewrite <- app_assoc | ]);
      rewrite ?(Hdev d eq_refl Hdel); reflexivity.
  - cbn [deleted].
    destruct Device_deleted_default; unfold Device_save, modify, ret;
      rewrite run_bind; unfold Device_get_subscriptions, gets; cbn [log];
      rewrite run_bind, for_each_unsubscribe_outcome; cbn [devices podcasts log];
      fold (subscribed_urls (u, i) (log st));
      fold (removed_urls urls (u, i) (log st));
      (case_decide as Hall;
       [ rewrite written_before_all by exact Hall;
         rewrite run_bind, for_each_subscribe; cbn [devices podcasts log];
         rewrite <- app_assoc | ]);
      rewrite ?insert_insert_eq; reflexivity.
Qed.

(** Entries of other devices at the end of the log do not show in the
    current subscriptions of a device. *)
Lemma current_subscriptions_app_other dev l l2 :
  Forall (fun a => device a ≠ dev) l2 ->
  current_subscriptions dev (l ++ l2) = current_subscriptions dev l.
Proof.
  intros Hother. induction l as [|a l IH]; cbn.
  - induction Hother as [|b l2 Hb _ IH2]; [reflexivity|]. cbn.
    rewrite decide_False by (by intros [? _]). exact IH2.
  - rewrite IH.
    assert (Hlater : Forall (fun b => ¬ concerns dev (podcast a) b) (l ++ l2)
                     <-> Forall (fun b => ¬ concerns dev (podcast a) b) l).
    { rewrite Forall_app. split; [tauto|]. intros Hl. split; [exact Hl|].
      eapply Forall_impl; [exact Hother|]. intros b Hb [Hd _]. by apply Hb. }
    repeat case_decide; try reflexivity; exfalso; tauto.
Qed.

(** X1. An upload for one device, whatever its outcome, leaves every other
    device as it was: its row, and the podcasts that a download for it
    returns. *)
Theorem set_subscriptions_other_devices urls u i st u' i' :
  (u', i') ≠ (u, i) ->
  devices (set_subscriptions Device_deleted_default urls u i st).2 !! (u', i')
    = devices st !! (u', i')
  ∧ current_subscriptions (u', i')
      (log (set_subscriptions Device_deleted_default urls u i st).2)
    = current_subscriptions (u', i') (log st)
  ∧ (get_subscriptions u' i'
       (set_subscriptions Device_deleted_default urls u i st).2).1
    = (get_subscriptions u' i' st).1.
Proof.
  intros Hne.
  assert (Hrow : devices (set_subscriptions Device_deleted_default urls u i st).2
                   !! (u', i') = devices st !! (u', i')).
  { rewrite set_subscriptions_outcome. case_decide; cbn [snd devices];
      by rewrite lookup_insert_ne. }
  assert (Hcur : current_subscriptions (u', i')
                   (log (set_subscriptions Device_deleted_default urls u i st).2)
                 = current_subscriptions (u', i') (log st)).
  { rewrite set_subscriptions_outcome. case_decide; cbn [snd log];
      apply current_subscriptions_app_other;
      rewrite ?Forall_app, !Forall_fmap; repeat split;
      apply Forall_true; intros x; cbn; congruence. }
  split; [exact Hrow|]. split; [exact Hcur|].
  unfold get_subscriptions. rewrite !run_bind.
  unfold get_object_or_404_Device. rewrite Hrow.
  destruct (devices st !! (u', i')) as [d|]; [destruct (deleted d)|]; try reflexivity.
  rewrite !run_bind. unfold Device_get_subscriptions, gets, ret. cbn [fst].
  by rewrite Hcur.
Qed.

(** X2. An upload, whatever its outcome, only adds: the log it leaves
    starts with the log it found, no podcast row is gone and no device
    row is gone. *)
Theorem set_subscriptions_only_adds urls u i st :
  log st `prefix_of` log (set_subscriptions Device_deleted_default urls u i st).2
  ∧ podcasts st ⊆ podcasts (set_subscriptions Device_deleted_default urls u i st).2
  ∧ dom (devices st)
      ⊆ dom (devices (set_subscriptions Device_deleted_default urls u i st).2).
Proof.
  rewrite set_subscriptions_outcome.
  case_decide; cbn [snd log podcasts devices]; (split; [|split]).
  - by eexists.
  - apply union_subseteq_r.
  - rewrite dom_insert. apply union_subseteq_r.
  - by eexists.
  - reflexivity.
  - rewrite dom_insert. apply union_subseteq_r.
Qed.

(** X4. An upload keeps the foreign key of the log: on a store whose log
    refers to existing podcast rows it leaves such a store, and the podcast
    rows it leaves are the ones it found and those of the urls it newly
    subscribed. *)
Theorem set_subscriptions_keeps_integrity urls u i st :
  referential_integrity st ->
  referential_integrity (set_subscriptions Device_deleted_default urls u i st).2
  ∧ podcasts (set_subscriptions Device_deleted_default urls u i st).2
    = podcasts st ∪ (urls ∖ subscribed (u, i) (log st)).
Proof.
  intros Hint.
  assert (Hall : Forall (fun r => r ∈ podcasts st)
                   (removed_urls urls (u, i) (log st))).
  { apply Forall_forall. intros r. by apply removed_urls_known. }
  rewrite set_subscriptions_outcome, decide_True by exact Hall.
  cbn [snd]. split.
  - unfold referential_integrity in *. cbn [log podcasts].
    rewrite !Forall_app. repeat split.
    + eapply Forall_impl; [exact Hint|]. intros a Ha. by apply elem_of_union_r.
    + rewrite Forall_fmap. eapply Forall_impl; [exact Hall|].
      intros r Hr. cbn. by apply elem_of_union_r.
    + rewrite Forall_fmap, Forall_forall. intros n Hn. cbn.
      apply elem_of_union_l. by apply elem_of_list_to_set.
  - cbn [podcasts]. apply set_eq. intros x.
    rewrite !elem_of_union, elem_of_list_to_set, elem_of_added_urls. tauto.
Qed.

End Outcome.

(** *** At the sample stores *)

Import Samples.

Lemma set_subscriptions_other_devices_witness :
  ("v", "dev9") ≠ ("u", "dev1")
  ∧ current_subscriptions ("v", "dev9")
      (log (set_subscriptions false {["A"]} "u" "dev1" dangling_store).2)
    = current_subscriptions ("v", "dev9") (log dangling_store)
  ∧ current_subscriptions ("v", "dev9") (log dangling_store)
    = [entry SUBSCRIBE_ACTION ("v", "dev9") "A"].
Proof.
  assert (Hne : ("v", "dev9") ≠ ("u", "dev1")) by discriminate.
  split; [exact Hne|].
  destruct (set_subscriptions_other_devices false {["A"]} "u" "dev1" dangling_store
              "v" "dev9" Hne) as (_ & Hcur & _).
  split; [exact Hcur | by vm_compute].
Defined.

Lemma set_subscriptions_keeps_integrity_witness :
  referential_integrity sample_store
  ∧ referential_integrity (set_subscriptions false {["B"; "C"]} "u" "dev1" sample_store).2
  ∧ podcasts (set_subscriptions false {["B"; "C"]} "u" "dev1" sample_store).2
    = {["A"; "B"; "C"]}.
Proof.
  assert (Hint : referential_integrity sample_store) by by_evaluation.
  destruct (set_subscriptions_keeps_integrity false {["B"; "C"]} "u" "dev1"
              sample_store Hint) as [Hint' Hpod].
  split; [exact Hint|]. split; [exact Hint'|]. rewrite Hpod. by vm_compute.
Defined.

End SimpleMoreFacts.


(** ** More on lookups and search ([mygpo/db/couchdb/podcast.py]) *)

Module PodcastDbMoreFacts.

Import PodcastDb PodcastDbNotions PodcastDbFacts.

Section Lookups.

Context `{Externals}.

(** *** What a lookup leaves in the environment *)

Lemma notify_run o env :
  notify o env = (Ok tt, told (if needs_update o then [o] else []) env).
Proof.
  unfold notify, told. destruct (needs_update o); cbn; [reflexivity|].
  unfold ret. rewrite app_nil_r. by destruct env.
Qed.

Lemma told_nil env : told [] env = env.
Proof. unfold told. rewrite app_nil_r. by destruct env. Qed.

Lemma told_told os1 os2 env : told os2 (told os1 env) = told (os1 ++ os2) env.
Proof. unfold told. cbn. by rewrite app_assoc. Qed.

Lemma for_each_notify_run os env :
  for_each os notify env = (Ok tt, told (List.filter needs_update os) env).
Proof.
  revert env. induction os as [|o os IH]; intros env; cbn [for_each List.filter].
  - by rewrite told_nil.
  - rewrite run_bind, notify_run, IH, told_told.
    by destruct (needs_update o).
Qed.

Lemma get_single_result_run {A} v k (wrapper : Row -> Result (option A)) env :
  get_single_result v k wrapper env
  = (match rows_of (db env) v k with
     | [] => Ok None
     | [row] => wrapper row
     | _ => Raise MultipleResultsFound
     end, asked (ViewRequest v [k]) env).
Proof.
  unfold get_single_result. rewrite run_bind, view_run.
  by destruct (rows_of (db env) v k) as [|row [|row' rows]].
Qed.

Lemma single_lookup_run v k wrapper env :
  (let* podcast := get_single_result v k wrapper in
   match podcast with
   | None => ret None
   | Some p => let* _ := notify p in ret (Some p)
   end) env
  = (let r := match rows_of (db env) v k with
              | [] => Ok None
              | [row] => wrapper row
              | _ => Raise MultipleResultsFound
              end in
     (r, told (signals_for r) (asked (ViewRequest v [k]) env))).
Proof.
  rewrite run_bind, get_single_result_run. cbv zeta.
  destruct (match rows_of (db env) v k with
            | [] => Ok None
            | [row] => wrapper row
            | _ => Raise MultipleResultsFound
            end) as [[o|]|e]; cbn [signals_for].
  - by rewrite run_bind, notify_run.
  - by rewrite told_nil.
  - by rewrite told_nil.
Qed.

Lemma podcast_by_id_uncached_run i env :
  podcast_by_id_uncached i env
  = if truthy i
    then let r := match rows_of (db env) "podcasts/by_id" (Single i) with
                  | [] => Ok None
                  | [row] => _wrap_podcast_group row
                  | _ => Raise MultipleResultsFound
                  end in
         (r, told (signals_for r)
               (asked (ViewRequest "podcasts/by_id" [Single i]) env))
    else (Raise (QueryParameterMissing "podcast_id"), env).
Proof.
  unfold podcast_by_id_uncached. destruct (truthy i); cbn [negb]; [|reflexivity].
  apply single_lookup_run.
Qed.

Lemma podcast_for_oldid_uncached_run i env :
  podcast_for_oldid_uncached i env
  = match i with
    | ANone => (Raise (QueryParameterMissing "oldid"), env)
    | _ =>
        match long i with
        | Raise e => (Raise e, env)
        | Ok n =>
            let r := match rows_of (db env) "podcasts/by_oldid" (Single (AInt n)) with
                     | [] => Ok None
                     | [row] => _wrap_podcast_group_key1 row
                     | _ => Raise MultipleResultsFound
                     end in
            (r, told (signals_for r)
                  (asked (ViewRequest "podcasts/by_oldid" [Single (AInt n)]) env))
        end
    end.
Proof.
  unfold podcast_for_oldid_uncached. destruct i as [|n|s]; [reflexivity| |].
  - rewrite run_bind. cbn [long lift]. apply single_lookup_run.
  - rewrite run_bind. unfold lift. destruct (long (AStr s)) as [n|e]; [|reflexivity].
    apply single_lookup_run.
Qed.

Lemma db_search_run q limit skip env :
  db_search q limit skip env
  = (match lucene (db env) q limit skip with
     | Raise e => Raise e
     | Ok (ids, total_rows) =>
         match map_result search_wrapper
                 ((fun i => {| key := Single ANone; id := i;
                               doc := docs (db env) !! i |}) <$> ids) with
         | Raise e => Raise e
         | Ok podcasts => Ok (podcasts, total_rows)
         end
     end, asked (SearchRequest "podcasts/search" q limit skip) env).
Proof.
  unfold db_search. rewrite run_bind. unfold log_request, modify.
  rewrite run_bind. unfold gets. cbn [db]. rewrite run_bind. unfold lift.
  destruct (lucene (db env) q limit skip) as [[ids total_rows]|e]; [|reflexivity].
  rewrite run_bind, run_bind. cbn [db].
  by destruct (map_result search_wrapper _).
Qed.

Lemma search_uncached_run q offset num_results env :
  search_uncached (q, offset, num_results) env
  = if String.eqb q "" then (Ok ([], 0%nat), env)
    else
      let r := (db_search (lucene_query ["title"; "description"] q)
                  num_results offset env).1 in
      let env1 := asked (SearchRequest "podcasts/search"
                           (lucene_query ["title"; "description"] q)
                           num_results offset) env in
      match r with
      | Ok (podcasts, total_rows) =>
          (Ok (podcasts, total_rows), told (List.filter needs_update podcasts) env1)
      | Raise e => (if is_RequestFailed e then Ok ([], 0%nat) else Raise e, env1)
      end.
Proof.
  unfold search_uncached. destruct (String.eqb q ""); [reflexivity|].
  cbv zeta. unfold try_except. rewrite run_bind, db_search_run. cbn [fst].
  destruct (match lucene (db env) _ _ _ with Ok _ => _ | Raise e => Raise e end)
    as [[podcasts total_rows]|e].
  - by rewrite run_bind, for_each_notify_run.
  - by destruct (is_RequestFailed e).
Qed.

Lemma for_each_slots_run (slots : list (option Obj)) env :
  ∃ told_so_far,
    for_each slots (fun podcast =>
      match podcast with
      | None => raise AttributeError
      | Some o => notify o
      end) env
    = (if decide (Forall is_Some slots) then Ok tt else Raise AttributeError,
       told told_so_far env)
    ∧ (Forall is_Some slots -> told_so_far = List.filter needs_update (objects slots)).
Proof.
  revert env. induction slots as [|[o|] slots IH]; intros env; cbn [for_each].
  - exists []. rewrite told_nil, decide_True by constructor. by split.
  - rewrite run_bind, notify_run.
    destruct (IH (told (if needs_update o then [o] else []) env))
      as (os & -> & Hos).
    exists ((if needs_update o then [o] else []) ++ os)%list. rewrite told_told. split.
    + f_equal. destruct (decide (Forall is_Some slots)) as [Hall|Hall].
      * by rewrite decide_True by (by constructor).
      * rewrite decide_False; [reflexivity|]. by intros [_ ?]%Forall_cons.
    + intros [_ Hall]%Forall_cons. rewrite (Hos Hall). unfold objects. cbn.
      by destruct (needs_update o).
  - exists []. rewrite told_nil, decide_False; [by split; [|intros [[? [=]] _]%Forall_cons]|].
    by intros [[? [=]] _]%Forall_cons.
Qed.

Lemma for_each_wrap_pg_run (rows : list Row) env :
  for_each rows (fun r =>
    match _wrap_pg r with
    | None => ret tt
    | Some obj => notify obj
    end) env
  = (Ok tt, told (List.filter needs_update (objects (_wrap_pg <$> rows))) env).
Proof.
  revert env. induction rows as [|row rows IH]; intros env; cbn [for_each].
  - by rewrite told_nil.
  - rewrite run_bind. unfold objects. rewrite fmap_cons. cbn [omap list_omap].
    destruct (_wrap_pg row) as [o|]; cbn.
    + rewrite notify_run, IH, told_told. by destruct (needs_update o).
    + apply IH.
Qed.

(** *** Properties *)

(** X5. [podcasts_by_id] returns podcasts only: no slot of its result is
    empty and none holds a group. When the wrapper leaves a slot empty (a
    group row whose key names no member), the whole lookup raises
    [AttributeError] instead. *)
Theorem podcasts_by_id_podcasts_only ids env :
  (∀ slots, (podcasts_by_id ids env).1 = Ok slots ->
     Forall (fun slot => ∃ p, slot = Some (APodcast p)) slots)
  ∧ (∀ i ids' slots, ids = Some (i :: ids') ->
       map_result _wrap_podcast_group
         ((Single <$> i :: ids') ≫= rows_of (db env) "podcasts/by_id") = Ok slots ->
       None ∈ slots ->
       (podcasts_by_id ids env).1 = Raise AttributeError).
Proof.
  assert (Hwrapped : ∀ rows slots,
    map_result _wrap_podcast_group rows = Ok slots ->
    Forall (fun slot => slot = None ∨ ∃ p, slot = Some (APodcast p)) slots).
  { induction rows as [|row rows IH]; intros slots; cbn.
    - intros [= <-]. constructor.
    - destruct (_wrap_podcast_group row) as [slot|e] eqn:Hrow; [|done].
      destruct (map_result _wrap_podcast_group rows) as [slots'|e]; [|done].
      intros [= <-]. constructor; [|by apply IH].
      destruct slot as [o|]; [right|by left].
      pose proof (_wrap_podcast_group_podcast row o Hrow) as Ho.
      destruct o as [p|g]; [by exists p | done]. }
  split.
  - intros slots. destruct ids as [[|i ids]|]; [| |done].
    + intros [= <-]. constructor.
    + unfold podcasts_by_id. rewrite run_bind, view_keys_run, run_bind.
      unfold lift.
      destruct (map_result _wrap_podcast_group _) as [slots'|e] eqn:Hmap; [|done].
      rewrite run_bind.
      destruct (for_each_slots_run slots' (asked (ViewRequest "podcasts/by_id"
                  (Single <$> i :: ids)) env)) as (os & -> & _).
      case_decide as Hall; [|done]. cbn. intros [= <-].
      apply Hwrapped in Hmap. rewrite Forall_forall in *.
      intros slot Hslot. destruct (Hmap slot Hslot) as [->|Hp]; [|exact Hp].
      by destruct (Hall None Hslot).
  - intros i ids' slots -> Hmap Hnone.
    unfold podcasts_by_id. rewrite run_bind, view_keys_run, run_bind.
    unfold lift. rewrite Hmap, run_bind.
    destruct (for_each_slots_run slots (asked (ViewRequest "podcasts/by_id"
                (Single <$> i :: ids')) env)) as (os & -> & _).
    rewrite decide_False; [reflexivity|].
    rewrite Forall_forall. intros Hall. by destruct (Hall None Hnone).
Qed.

(** A cached call that the cache answers returns the cached value and
    leaves the environment as it is. *)
Lemma cache_result_hit {K V} `{EqDecision K} timeout
    (table : Cache -> Table K V) store (f : K -> M Env V) args env v :
  table_get (now env) args (table (cache env)) = Some v ->
  cache_result timeout table store f args env = (Ok v, env).
Proof. intros Hhit. unfold cache_result. by rewrite Hhit. Qed.

Lemma leading_objects_all slots :
  Forall is_Some slots -> leading_objects slots = objects slots.
Proof.
  induction 1 as [|slot slots [o ->] _ IH]; [reflexivity|].
  unfold objects in *. cbn. by rewrite IH.
Qed.

Lemma for_each_slots_sent (slots : list (option Obj)) env :
  for_each slots (fun podcast =>
    match podcast with
    | None => raise AttributeError
    | Some o => notify o
    end) env
  = (if decide (Forall is_Some slots) then Ok tt else Raise AttributeError,
     told (List.filter needs_update (leading_objects slots)) env).
Proof.
  revert env. induction slots as [|[o|] slots IH]; intros env;
    cbn [for_each leading_objects List.filter].
  - by rewrite told_nil, decide_True by constructor.
  - rewrite run_bind, notify_run, IH, told_told. f_equal.
    + destruct (decide (Forall is_Some slots)) as [Hall|Hall].
      * by rewrite decide_True by (by constructor).
      * rewrite decide_False; [reflexivity|]. by intros [_ ?]%Forall_cons.
    + by destruct (needs_update o).
  - rewrite told_nil, decide_False; [reflexivity|].
    by intros [[? [=]] _]%Forall_cons.
Qed.

(** X6. The [incomplete_obj] signal is sent for the objects in need of
    an update that a lookup has read from the database, once each and in
    the order of the result. This holds of [podcast_by_id_uncached] and of
    [podcasts_groups_by_id], and of the cached [podcast_by_id],
    [podcast_for_oldid] and [search] at a call that the cache does not
    answer; a single lookup or a search that raises or finds nothing sends
    none. A call that the cache answers returns the cached value and sends
    nothing, also for an object that needs an update. [podcasts_by_id]
    sends for the objects of its result up to the first empty slot: for all
    of them when it returns, and for those before the empty slot when it
    raises AttributeError there. *)
Theorem signals_follow_results env :
  (∀ i, sent (podcast_by_id_uncached i env).2
        = (sent env ++ signals_for (podcast_by_id_uncached i env).1)%list)
  ∧ (∀ i, table_get (now env) i (cached_podcast_by_id (cache env)) = None ->
          sent (podcast_by_id i env).2
          = (sent env ++ signals_for (podcast_by_id i env).1)%list)
  ∧ (∀ i, table_get (now env) i (cached_podcast_for_oldid (cache env)) = None ->
          sent (podcast_for_oldid i env).2
          = (sent env ++ signals_for (podcast_for_oldid i env).1)%list)
  ∧ (∀ q offset num_results,
       table_get (now env) (q, offset, num_results) (cached_search (cache env)) = None ->
       sent (search q offset num_results env).2
       = (sent env ++ match (search q offset num_results env).1 with
                      | Ok (podcasts, _) => List.filter needs_update podcasts
                      | Raise _ => []
                      end)%list)
  ∧ (∀ i v, table_get (now env) i (cached_podcast_by_id (cache env)) = Some v ->
            podcast_by_id i env = (Ok v, env))
  ∧ (∀ i v, table_get (now env) i (cached_podcast_for_oldid (cache env)) = Some v ->
            podcast_for_oldid i env = (Ok v, env))
  ∧ (∀ q offset num_results v,
       table_get (now env) (q, offset, num_results) (cached_search (cache env)) = Some v ->
       search q offset num_results env = (Ok v, env))
  ∧ (∀ ids, sent (podcasts_groups_by_id ids env).2
            = (sent env ++ match (podcasts_groups_by_id ids env).1 with
                           | Ok slots => List.filter needs_update (objects slots)
                           | Raise _ => []
                           end)%list)
  ∧ (∀ ids slots, (podcasts_by_id ids env).1 = Ok slots ->
       sent (podcasts_by_id ids env).2
       = (sent env ++ List.filter needs_update (objects slots))%list)
  ∧ (∀ i ids slots,
       map_result _wrap_podcast_group
         ((Single <$> i :: ids) ≫= rows_of (db env) "podcasts/by_id") = Ok slots ->
       sent (podcasts_by_id (Some (i :: ids)) env).2
       = (sent env ++ List.filter needs_update (leading_objects slots))%list
       ∧ (None ∈ slots ->
          (podcasts_by_id (Some (i :: ids)) env).1 = Raise AttributeError)).
Proof.
  assert (Hbody_id : ∀ i, sent (podcast_by_id_uncached i env).2
            = (sent env ++ signals_for (podcast_by_id_uncached i env).1)%list).
  { intros i. rewrite podcast_by_id_uncached_run.
    destruct (truthy i); cbn; [reflexivity | by rewrite app_nil_r]. }
  assert (Hbody_oldid : ∀ i, sent (podcast_for_oldid_uncached i env).2
            = (sent env ++ signals_for (podcast_for_oldid_uncached i env).1)%list).
  { intros i. rewrite podcast_for_oldid_uncached_run.
    destruct i as [|n|s]; cbn [long]; try (cbn; by rewrite app_nil_r).
    - reflexivity.
    - destruct (long_of_str s); cbn; [reflexivity | by rewrite app_nil_r]. }
  assert (Hbody_search : ∀ args, sent (search_uncached args env).2
            = (sent env ++ match (search_uncached args env).1 with
                           | Ok (podcasts, _) => List.filter needs_update podcasts
                           | Raise _ => []
                           end)%list).
  { intros [[q offset] num_results]. rewrite search_uncached_run.
    destruct (String.eqb q ""); [cbn; by rewrite app_nil_r|]. cbv zeta.
    destruct (db_search _ _ _ env).1 as [[podcasts total_rows]|e]; cbn.
    - reflexivity.
    - destruct (is_RequestFailed e); cbn; by rewrite app_nil_r. }
  split; [exact Hbody_id|].
  split.
  { intros i Hmiss. unfold podcast_by_id.
    destruct (cache_result_miss (60 * 60) cached_podcast_by_id store_podcast_by_id
                podcast_by_id_uncached i env Hmiss) as (-> & _ & _ & ->).
    apply Hbody_id. }
  split.
  { intros i Hmiss. unfold podcast_for_oldid.
    destruct (cache_result_miss (60 * 60) cached_podcast_for_oldid
                store_podcast_for_oldid podcast_for_oldid_uncached i env Hmiss)
      as (-> & _ & _ & ->).
    apply Hbody_oldid. }
  split.
  { intros q offset num_results Hmiss. unfold search.
    destruct (cache_result_miss (60 * 60) cached_search store_search
                search_uncached (q, offset, num_results) env Hmiss)
      as (-> & _ & _ & ->).
    apply Hbody_search. }
  split; [intros i v; apply cache_result_hit|].
  split; [intros i v; apply cache_result_hit|].
  split; [intros q offset num_results v; apply cache_result_hit|].
  split; [|split].
  - intros [[|i ids]|]; [cbn; by rewrite app_nil_r | | cbn; by rewrite app_nil_r].
    unfold podcasts_groups_by_id. rewrite run_bind, view_keys_run, run_bind.
    by rewrite for_each_wrap_pg_run.
  - intros [[|i ids]|] slots; [| |done].
    + intros [= <-]. cbn. by rewrite app_nil_r.
    + unfold podcasts_by_id. rewrite run_bind, view_keys_run, run_bind.
      unfold lift.
      destruct (map_result _wrap_podcast_group _) as [slots'|e]; [|done].
      rewrite run_bind, for_each_slots_sent.
      case_decide as Hall; [|done]. cbn. intros [= <-].
      by rewrite (leading_objects_all _ Hall).
  - intros i ids slots Hmap.
    unfold podcasts_by_id. rewrite run_bind, view_keys_run, run_bind.
    unfold lift. rewrite Hmap, run_bind, for_each_slots_sent.
    split.
    + by case_decide.
    + intros Hnone. rewrite decide_False; [reflexivity|].
      rewrite Forall_forall. intros Hall. by destruct (Hall None Hnone).
Qed.

(** X7. [search] sends at most one request to the search index. A call
    that the cache answers returns the cached value and sends none. A call
    that the cache does not answer sends none for the empty query, which
    it answers with ([], 0), and exactly one for any other query: for the
    query built from the fields title and description, with [num_results]
    as limit and [offset] as skip. The failure of that request never
    reaches the caller. *)
Theorem search_sends_at_most_one_request q offset num_results env :
  (∀ v, table_get (now env) (q, offset, num_results) (cached_search (cache env))
        = Some v ->
        search q offset num_results env = (Ok v, env))
  ∧ (table_get (now env) (q, offset, num_results) (cached_search (cache env)) = None ->
     (q = "" ->
      (search q offset num_results env).1 = Ok ([], 0%nat)
      ∧ requests (search q offset num_results env).2 = requests env)
     ∧ (q ≠ "" ->
        requests (search q offset num_results env).2
        = (requests env
           ++ [SearchRequest "podcasts/search"
                 (lucene_query ["title"; "description"] q) num_results offset])%list))
  ∧ (search q offset num_results env).1 ≠ Raise RequestFailed.
Proof.
  split; [intros v; apply cache_result_hit|]. split.
  - intros Hmiss. unfold search.
    destruct (cache_result_miss (60 * 60) cached_search store_search
                search_uncached (q, offset, num_results) env Hmiss)
      as (-> & _ & -> & _).
    rewrite search_uncached_run. split.
    + intros ->. by split.
    + intros Hq. apply String.eqb_neq in Hq. rewrite Hq. cbv zeta.
      destruct (db_search _ _ _ env).1 as [[podcasts total_rows]|e]; reflexivity.
  - unfold search, cache_result.
    destruct (table_get _ _ _); [done|].
    pose proof (search_uncached_run q offset num_results env) as Hrun.
    destruct (search_uncached (q, offset, num_results) env) as [[v|e] env1]; [done|].
    cbn. intros [= ->].
    destruct (String.eqb q ""); [done|]. cbv zeta in Hrun.
    destruct (db_search _ _ _ env).1 as [[podcasts total_rows]|e]; [done|].
    by destruct e.
Qed.

(** X8. The lookups and search only read the database: none of them
    changes a document, an index or the search index, whatever they return
    or raise. *)
Theorem lookups_read_only env :
  (∀ i, db (podcast_by_id i env).2 = db env)
  ∧ (∀ i, db (podcast_for_oldid i env).2 = db env)
  ∧ (∀ ids, db (podcasts_by_id ids env).2 = db env)
  ∧ (∀ ids, db (podcasts_groups_by_id ids env).2 = db env)
  ∧ (∀ q offset num_results, db (search q offset num_results env).2 = db env).
Proof.
  assert (Hcached : ∀ K V (HK : EqDecision K) timeout
            (table : Cache -> Table K V) store (f : K -> M Env V) args,
            db (f args env).2 = db env ->
            db (cache_result timeout table store f args env).2 = db env).
  { intros K V HK timeout table store f args Hf. unfold cache_result.
    destruct (table_get _ _ _); [reflexivity|].
    by destruct (f args env) as [[v|e] env1]. }
  split; [|split; [|split; [|split]]].
  - intros i. apply Hcached. rewrite podcast_by_id_uncached_run.
    by destruct (truthy i).
  - intros i. apply Hcached. rewrite podcast_for_oldid_uncached_run.
    destruct i as [|n|s]; cbn [long]; try reflexivity.
    by destruct (long_of_str s).
  - intros [[|i ids]|]; try reflexivity.
    unfold podcasts_by_id. rewrite run_bind, view_keys_run, run_bind. unfold lift.
    destruct (map_result _wrap_podcast_group _) as [slots|e]; [|reflexivity].
    rewrite run_bind.
    destruct (for_each_slots_run slots (asked (ViewRequest "podcasts/by_id"
                (Single <$> i :: ids)) env)) as (os & -> & _).
    by case_decide.
  - intros [[|i ids]|]; try reflexivity.
    unfold podcasts_groups_by_id. rewrite run_bind, view_keys_run, run_bind.
    by rewrite for_each_wrap_pg_run.
  - intros q offset num_results. apply Hcached. rewrite search_uncached_run.
    destruct (String.eqb q ""); [reflexivity|]. cbv zeta.
    by destruct (db_search _ _ _ env).1 as [[podcasts total_rows]|e].
Qed.

(** *** Updates *)

Lemma Podcast_save_run p env :
  Podcast_save p env
  = (let env1 := asked (SaveRequest (get_id p)) env in
     let written :=
       DocPodcast {| podcast_id := podcast_id p; rev := S (rev p); title := title p;
                     description := description p; twitter := twitter p;
                     related_podcasts := related_podcasts p |} in
     let env2 :=
       {| db := {| docs := <[get_id p := written]> (docs (db env));
                   index := index (db env); lucene := lucene (db env) |};
          cache := cache env; sent := sent env;
          requests := requests env ++ [SaveRequest (get_id p)]; now := now env |} in
     match docs (db env) !! get_id p with
     | Some (DocPodcast q) =>
         if decide (rev q = rev p) then (Ok tt, env2) else (Raise ResourceConflict, env1)
     | Some _ => (Raise ResourceConflict, env1)
     | None => (Ok tt, env2)
     end).
Proof. reflexivity. Qed.

(** X9. [update_related_podcasts] with the list that the object already
    carries returns at once: nothing is saved, no request is sent and the
    environment is as it was. *)
Theorem update_related_podcasts_same_list podcast env :
  (0 < max_attempts)%nat ->
  update_related_podcasts podcast (related_podcasts podcast) env = (Ok tt, env).
Proof.
  intros Hattempts. unfold update_related_podcasts.
  destruct max_attempts as [|n]; [lia|]. cbn.
  by rewrite decide_True.
Qed.

(** X10. An update through an object that is out of date is applied to
    the document as the database holds it. When the stored podcast [q] is
    at another revision than the object passed, [update_additional_data]
    reloads it by its id and saves [q] with the new twitter name: the other
    fields of the stored document are those of [q], not those of the object
    passed, and the cache is cleared. *)
Theorem update_additional_data_reloads podcast twitter' q k env :
  (2 <= max_attempts)%nat ->
  get_id podcast ≠ "" ->
  get_id q = get_id podcast ->
  docs (db env) !! get_id podcast = Some (DocPodcast q) ->
  rev q ≠ rev podcast ->
  index (db env) "podcasts/by_id" (Single (AStr (get_id podcast)))
    = [(k, get_id podcast)] ->
  ∃ env', update_additional_data podcast twitter' env = (Ok tt, env')
    ∧ docs (db env')
      = <[get_id podcast :=
            DocPodcast {| podcast_id := podcast_id q; rev := S (rev q);
                          title := title q; description := description q;
                          twitter := twitter';
                          related_podcasts := related_podcasts q |}]> (docs (db env))
    ∧ cache env' = clear
    ∧ requests env'
      = (requests env
         ++ [SaveRequest (get_id podcast);
             ViewRequest "podcasts/by_id" [Single (AStr (get_id podcast))];
             SaveRequest (get_id podcast)])%list.
Proof.
  intros Hattempts Hid Hq Hdoc Hrev Hindex.
  unfold update_additional_data.
  destruct max_attempts as [|[|n]]; [lia|lia|].
  cbn [repeat_on_conflict update_additional_data_body].
  rewrite run_bind, Podcast_save_run. cbv zeta. cbn [get_id podcast_id rev].
  unfold get_id in *. rewrite Hdoc. rewrite decide_False by exact Hrev.
  cbn [is_ResourceConflict]. rewrite run_bind.
  unfold reload_podcast. rewrite podcast_by_id_uncached_run. unfold get_id.
  assert (truthy (AStr (podcast_id podcast)) = true) as ->.
  { cbn. apply negb_true_iff. by apply String.eqb_neq. }
  cbv zeta. unfold rows_of. cbn [db asked]. rewrite Hindex.
  cbn [fmap list_fmap fst snd]. unfold _wrap_podcast_group. cbn [doc].
  rewrite Hdoc. cbn [update_additional_data_body].
  rewrite run_bind, Podcast_save_run. cbv zeta.
  cbn [get_id podcast_id rev db told asked docs].
  rewrite Hq, Hdoc, decide_True by reflexivity.
  unfold cache_clear, modify. eexists. split; [reflexivity|].
  cbn [db docs cache with_cache requests told asked sent].
  split; [reflexivity|]. split; [reflexivity|].
  by rewrite <- !app_assoc.
Qed.

(** *** The time to live of a cached result *)

Lemma table_get_set_same {K V} `{EqDecision K} t' (k : K) expiry (v : V) (t : Table K V) :
  table_get t' k (table_set k expiry v t) = if (t' <? expiry)%nat then Some v else None.
Proof. unfold table_get, table_set. cbn. by rewrite bool_decide_eq_true_2. Qed.

(** X11. What [podcast_by_id] read from the database is served from the
    cache for the 60 * 60 seconds that follow: a call in that time returns
    the same result and sends no request, whatever the database holds by
    then. From then on a call reads the database again. *)
Theorem podcast_by_id_cached_for_an_hour i env v d t :
  table_get (now env) i (cached_podcast_by_id (cache env)) = None ->
  (podcast_by_id i env).1 = Ok v ->
  ((t < now env + 60 * 60)%nat ->
   podcast_by_id i (later_on d t (podcast_by_id i env).2)
   = (Ok v, later_on d t (podcast_by_id i env).2))
  ∧ ((now env + 60 * 60 <= t)%nat ->
     (podcast_by_id i (later_on d t (podcast_by_id i env).2)).1
     = (podcast_by_id_uncached i (later_on d t (podcast_by_id i env).2)).1).
Proof.
  intros Hmiss Hrun. unfold podcast_by_id in *.
  assert (Hcache : table_get t i
            (cached_podcast_by_id
               (cache (cache_result (60 * 60) cached_podcast_by_id store_podcast_by_id
                         podcast_by_id_uncached i env).2))
          = if (t <? now env + 60 * 60)%nat then Some v else None).
  { unfold cache_result in *. rewrite Hmiss in *.
    pose proof (keeps_cache_podcast_by_id_uncached i env) as Hkeeps.
    assert (Hnow : now (podcast_by_id_uncached i env).2 = now env).
    { rewrite podcast_by_id_uncached_run. by destruct (truthy i). }
    destruct (podcast_by_id_uncached i env) as [[v'|e] env1]; [|done].
    cbn in Hrun, Hkeeps, Hnow |- *. injection Hrun as ->.
    by rewrite table_get_set_same, Hnow. }
  split; intros Ht.
  - unfold cache_result at 1. cbn [now cache later_on]. rewrite Hcache.
    by rewrite (proj2 (Nat.ltb_lt _ _) Ht).
  - apply (cache_result_miss (60 * 60) cached_podcast_by_id store_podcast_by_id).
    cbn [now cache later_on]. rewrite Hcache.
    by rewrite (proj2 (Nat.ltb_ge _ _) Ht).
Qed.

End Lookups.

(** *** At the sample databases *)

Import Samples.

Lemma podcasts_by_id_podcasts_only_witness :
  map_result _wrap_podcast_group
    ((Single <$> [AStr "p1"; AStr "m3"]) ≫= rows_of (db orphan_env) "podcasts/by_id")
  = Ok [Some (APodcast p1); None]
  ∧ (podcasts_by_id (H := sample_externals) (Some [AStr "p1"; AStr "m3"]) orphan_env).1
    = Raise AttributeError
  ∧ Forall (fun slot => ∃ p, slot = Some (APodcast p))
      [Some (APodcast m1); Some (APodcast p1)].
Proof.
  destruct (podcasts_by_id_podcasts_only (H := sample_externals)
              (Some [AStr "p1"; AStr "m3"]) orphan_env) as [_ Hnone].
  destruct (podcasts_by_id_podcasts_only (H := sample_externals)
              (Some [AStr "m1"; AStr "p1"]) sample_env) as [Hsome _].
  split; [by vm_compute|]. split.
  - apply (Hnone (AStr "p1") [AStr "m3"] [Some (APodcast p1); None]);
      [reflexivity | by vm_compute | by_evaluation].
  - apply Hsome. by vm_compute.
Defined.

Lemma signals_follow_results_witness :
  (let env1 := (podcast_for_oldid (H := eager_externals) (AInt 3) sample_env).2 in
   sent env1 = [APodcast p1]
   ∧ podcast_for_oldid (H := eager_externals) (AInt 3) env1
     = (Ok (Some (APodcast p1)), env1))
  ∧ sent (podcasts_by_id (H := eager_externals) (Some [AStr "p1"; AStr "m3"])
            orphan_env).2
    = [APodcast p1]
  ∧ (podcasts_by_id (H := eager_externals) (Some [AStr "p1"; AStr "m3"]) orphan_env).1
    = Raise AttributeError.
Proof.
  cbv zeta.
  destruct (signals_follow_results (H := eager_externals) sample_env)
    as (_ & _ & Hmiss & _).
  destruct (signals_follow_results (H := eager_externals)
              (podcast_for_oldid (H := eager_externals) (AInt 3) sample_env).2)
    as (_ & _ & _ & _ & _ & Hhit & _).
  destruct (signals_follow_results (H := eager_externals) orphan_env)
    as (_ & _ & _ & _ & _ & _ & _ & _ & _ & Hbatch).
  destruct (Hbatch (AStr "p1") [AStr "m3"] [Some (APodcast p1); None])
    as [Hsent Hraise]; [by vm_compute|].
  split; [split|split].
  - rewrite (Hmiss (AInt 3)) by reflexivity. by vm_compute.
  - apply Hhit. by vm_compute.
  - rewrite Hsent. by vm_compute.
  - apply Hraise. by_evaluation.
Defined.

Lemma search_sends_at_most_one_request_witness :
  (let env1 := (search (H := sample_externals) "show" 40 20 sample_env).2 in
   requests env1 = [SearchRequest "podcasts/search" "show" 20 40]
   ∧ search (H := sample_externals) "show" 40 20 env1
     = (Ok ([APodcast p1], 1%nat), env1))
  ∧ (search (H := sample_externals) "" 0 20 sample_env).1 = Ok ([], 0%nat)
  ∧ requests (search (H := sample_externals) "" 0 20 sample_env).2 = [].
Proof.
  cbv zeta.
  destruct (search_sends_at_most_one_request (H := sample_externals) "show" 40 20
              sample_env) as (_ & Hmiss & _).
  destruct (Hmiss eq_refl) as [_ Hone].
  destruct (search_sends_at_most_one_request (H := sample_externals) "show" 40 20
              (search (H := sample_externals) "show" 40 20 sample_env).2)
    as (Hhit & _).
  destruct (search_sends_at_most_one_request (H := sample_externals) "" 0 20
              sample_env) as (_ & Hempty & _).
  destruct (Hempty eq_refl) as [Hnone _].
  split; [split|].
  - apply Hone. discriminate.
  - apply Hhit. by vm_compute.
  - by apply Hnone.
Defined.

Lemma update_related_podcasts_same_list_witness :
  (0 < max_attempts (Externals := sample_externals))%nat
  ∧ update_related_podcasts (H := sample_externals) p1_as_loaded ["p9"] busy_env
    = (Ok tt, busy_env).
Proof.
  assert (Hattempts : (0 < max_attempts (Externals := sample_externals))%nat)
    by (cbn; lia).
  split; [exact Hattempts|].
  exact (update_related_podcasts_same_list (H := sample_externals)
           p1_as_loaded busy_env Hattempts).
Defined.

Lemma update_additional_data_reloads_witness :
  ∃ env', update_additional_data (H := sample_externals) p1_as_loaded "@show" busy_env
          = (Ok tt, env')
    ∧ docs (db env')
      = <["p1" :=
            DocPodcast {| podcast_id := "p1"; rev := 6; title := "Show";
                          description := "A show"; twitter := "@show";
                          related_podcasts := [] |}]> (docs (db busy_env))
    ∧ cache env' = clear
    ∧ requests env'
      = [SaveRequest "p1"; ViewRequest "podcasts/by_id" [Single (AStr "p1")];
         SaveRequest "p1"].
Proof.
  apply (update_additional_data_reloads (H := sample_externals) p1_as_loaded "@show"
           p1_as_stored (Single (AStr "p1")) busy_env).
  - cbn. lia.
  - discriminate.
  - reflexivity.
  - by vm_compute.
  - discriminate.
  - reflexivity.
Defined.

Lemma podcast_by_id_cached_for_an_hour_witness :
  podcast_by_id (H := sample_externals) (AStr "p1")
    (later_on empty_db 3599
       (podcast_by_id (H := sample_externals) (AStr "p1") sample_env).2)
  = (Ok (Some (APodcast p1)),
     later_on empty_db 3599
       (podcast_by_id (H := sample_externals) (AStr "p1") sample_env).2)
  ∧ (podcast_by_id (H := sample_externals) (AStr "p1")
       (later_on empty_db 3600
          (podcast_by_id (H := sample_externals) (AStr "p1") sample_env).2)).1
    = Ok None.
Proof.
  destruct (podcast_by_id_cached_for_an_hour (H := sample_externals) (AStr "p1")
              sample_env (Some (APodcast p1)) empty_db 3599) as [Hhit _];
    [reflexivity | by vm_compute |].
  destruct (podcast_by_id_cached_for_an_hour (H := sample_externals) (AStr "p1")
              sample_env (Some (APodcast p1)) empty_db 3600) as [_ Hmiss];
    [reflexivity | by vm_compute |].
  split.
  - apply Hhit. cbn. lia.
  - rewrite Hmiss by (cbn; lia). by vm_compute.
Defined.

End PodcastDbMoreFacts.

(** ** [mygpo/api/simple.py]: the views and the list formats *)

Module SimpleViewsFacts.

Import Simple SimpleViews SimpleFacts.

(** *** [split] and [join] *)

Lemma split_one_line sep s :
  occurs sep s = false -> split sep s = [s].
Proof.
  induction s as [|c s IH]; [done|]. cbn [occurs split].
  destruct (Ascii.eqb c sep); [done|]. cbn [orb]. intros Hs.
  by rewrite IH.
Qed.

Lemma split_app sep x rest :
  occurs sep x = false ->
  split sep (x ++ String sep rest) = x :: split sep rest.
Proof.
  induction x as [|c x IH]; simpl.
  - by rewrite Ascii.eqb_refl.
  - destruct (Ascii.eqb c sep); [done|]. simpl. intros Hx.
    by rewrite IH.
Qed.

Lemma split_join l :
  l ≠ [] -> Forall one_line l ->
  split newline (join (String newline EmptyString) l) = l.
Proof.
  induction l as [|x l IH]; [done|]. intros _ Hl.
  apply Forall_cons in Hl as [Hx Hl].
  destruct l as [|y l].
  - cbn [join]. by apply split_one_line.
  - change (join (String newline EmptyString) (x :: y :: l))
      with (x ++ String newline (join (String newline EmptyString) (y :: l))).
    rewrite split_app by exact Hx. by rewrite IH.
Qed.

(** *** [find] and slices *)

Lemma string_app_nil (b : string) : "" ++ b = b.
Proof. reflexivity. Qed.

Lemma string_app_cons c (a b : string) : String c a ++ b = String c (a ++ b).
Proof. reflexivity. Qed.

Lemma string_app_assoc (a b c : string) : (a ++ b) ++ c = a ++ (b ++ c).
Proof.
  induction a as [|x a IH]; [done|]. by rewrite !string_app_cons, IH.
Qed.

Lemma string_length_app (a b : string) :
  String.length (a ++ b) = (String.length a + String.length b)%nat.
Proof.
  induction a as [|x a IH]; [done|]. rewrite string_app_cons. simpl. by rewrite IH.
Qed.

Lemma occurs_app c (a b : string) : occurs c (a ++ b) = occurs c a || occurs c b.
Proof.
  induction a as [|x a IH]; [done|]. rewrite string_app_cons. simpl.
  rewrite IH. by destruct (Ascii.eqb x c).
Qed.

Lemma find_from_char c pre rest :
  occurs c pre = false ->
  find_from (String c EmptyString) (pre ++ String c rest) = Some (String.length pre).
Proof.
  induction pre as [|d pre IH].
  - intros _. rewrite string_app_nil. simpl.
    destruct (Ascii.ascii_dec c c) as [_|Hc]; [|done].
    by destruct rest.
  - rewrite string_app_cons. simpl.
    destruct (Ascii.eqb d c) eqn:Hd; [done|]. simpl. intros Hpre.
    destruct (Ascii.ascii_dec c d) as [->|_].
    { by rewrite Ascii.eqb_refl in Hd. }
    by rewrite IH.
Qed.

Lemma substring_skip (pre s : string) n :
  String.substring (String.length pre) n (pre ++ s) = String.substring 0 n s.
Proof.
  induction pre as [|c pre IH]; [done|]. rewrite string_app_cons. exact IH.
Qed.

Lemma substring_prefix (mid post : string) :
  String.substring 0 (String.length mid) (mid ++ post) = mid.
Proof.
  induction mid as [|c mid IH]; [by destruct post|].
  rewrite string_app_cons. simpl. by rewrite IH.
Qed.

Lemma slice_app (pre mid post : string) :
  slice (pre ++ mid ++ post) (Z.of_nat (String.length pre))
        (Z.of_nat (String.length pre + String.length mid)) = mid.
Proof.
  unfold slice, slice_index. rewrite !string_length_app.
  destruct (Z.ltb_spec (Z.of_nat (String.length pre)) 0) as [Hlt|_]; [lia|].
  destruct (Z.ltb_spec (Z.of_nat (String.length pre + String.length mid)) 0)
    as [Hlt|_]; [lia|].
  rewrite !Z.min_l by lia.
  destruct (Z.leb_spec (Z.of_nat (String.length pre + String.length mid))
              (Z.of_nat (String.length pre))) as [Hle|Hgt].
  - destruct mid; [done|]. simpl in Hle. lia.
  - rewrite Nat2Z.id.
    replace (Z.to_nat _) with (String.length mid) by lia.
    by rewrite substring_skip, substring_prefix.
Qed.

(** *** The reader and the writer behind the view *)

Lemma get_subscriptions_state u i st : (get_subscriptions u i st).2 = st.
Proof.
  unfold get_subscriptions. rewrite run_bind. unfold get_object_or_404_Device.
  destruct (devices st !! (u, i)) as [d|]; [destruct (deleted d)|]; reflexivity.
Qed.

Lemma set_subscriptions_read_back dflt urls u i st :
  referential_integrity st ->
  ∃ st' ps,
    set_subscriptions dflt urls u i st
    = (Ok {| content := ""; mimetype := "text/plain" |}, st')
    ∧ get_subscriptions u i st' = (Ok ps, st')
    ∧ NoDup ps
    ∧ list_to_set (url <$> ps) = urls.
Proof.
  intros Hint.
  pose proof (set_subscriptions_subscribed dflt urls u i st Hint) as Hsub.
  rewrite set_subscriptions_run in * by exact Hint.
  cbn [snd log devices] in Hsub.
  eexists _, _. split; [reflexivity|].
  unfold get_subscriptions. rewrite run_bind.
  unfold get_object_or_404_Device. cbn [devices].
  rewrite lookup_insert_eq.
  assert (deleted (registered st u i) = false) as ->.
  { unfold registered. by destruct (devices st !! (u, i)). }
  rewrite run_bind. unfold Device_get_subscriptions, gets, ret. cbn [log].
  split; [reflexivity|]. split.
  - apply (NoDup_fmap_1 url). rewrite <- list_fmap_compose.
    apply (subscribed_urls_NoDup (u, i)).
  - rewrite <- list_fmap_compose. exact Hsub.
Qed.

Lemma upload_method m :
  m ∈ ["PUT"; "POST"] ->
  String.eqb m "GET" = false ∧ bool_decide (m ∈ ["PUT"; "POST"]) = true.
Proof.
  intros Hm. split; [|by apply bool_decide_eq_true].
  apply elem_of_cons in Hm as [->|Hm]; [done|].
  apply elem_of_cons in Hm as [->|Hm]; [done|].
  by apply elem_of_nil in Hm.
Qed.

Section Formats.

Context `{Externals}.

Lemma parse_subscription_members raw format urls u :
  parse_subscription raw format = Ok urls ->
  u ∈ urls -> u ≠ "" ∧ ∃ x, u = sanitize_url x.
Proof.
  unfold parse_subscription.
  assert (∀ l : list string,
            u ∈ (list_to_set (filter (fun x => x ≠ "") (sanitize_url <$> l)) : gset string) ->
            u ≠ "" ∧ ∃ x, u = sanitize_url x) as Hl.
  { intros l. rewrite elem_of_list_to_set, list_elem_of_filter, list_elem_of_fmap.
    intros [Hu (x & -> & _)]. split; [done|by exists x]. }
  destruct (String.eqb format "txt").
  { intros [= <-]. apply Hl. }
  destruct (String.eqb format "opml").
  { destruct (Importer_urls _) as [l|e]; [|done]. intros [= <-]. apply Hl. }
  destruct (String.eqb format "json").
  { destruct (json_loads _) as [l|e]; [|done]. intros [= <-]. apply Hl. }
  intros [= <-] Hu. by apply elem_of_empty in Hu.
Qed.

(** X12. A txt export read back as a txt upload gives the set of the
    exported urls, the empty url left out, provided every exported url
    holds no line break and is left as it is by [sanitize_url], and
    [sanitize_url] maps the empty line to the empty string. *)
Theorem txt_export_import {A} (obj_list : list A) title
    (get_podcast : A -> Podcast) (json_map : A -> Json) :
  Forall (fun p => one_line (url p) ∧ sanitize_url (url p) = url p)
         (get_podcast <$> obj_list) ->
  sanitize_url "" = "" ->
  ∃ body,
    format_podcast_list obj_list "txt" title get_podcast json_map
    = Plain {| content := body; mimetype := "text/plain" |}
    ∧ parse_subscription body "txt"
      = Ok (list_to_set (filter (fun u => u ≠ "") (url <$> (get_podcast <$> obj_list)))).
Proof.
  intros Hps Hempty. eexists. split; [reflexivity|].
  unfold parse_subscription. cbn [String.eqb Ascii.eqb Bool.eqb andb].
  set (ps := get_podcast <$> obj_list) in *. clearbody ps.
  rewrite split_join.
  - rewrite fmap_app, filter_app. cbn [fmap list_fmap]. rewrite Hempty.
    rewrite filter_cons_False by (intros Hne; by apply Hne).
    rewrite filter_nil, app_nil_r. f_equal. f_equal. f_equal.
    rewrite <- list_fmap_compose. apply list_fmap_ext.
    intros i p Hp. cbn.
    apply list_elem_of_lookup_2 in Hp.
    rewrite Forall_forall in Hps. by destruct (Hps p Hp).
  - by destruct (url <$> ps).
  - apply Forall_app. split; [|by repeat constructor].
    rewrite Forall_fmap. eapply Forall_impl; [exact Hps|]. by intros p [Hp _].
Qed.

(** X13. An upload through the view followed by a download through the
    view: on a store whose log refers to existing podcast rows only, a PUT
    or POST in a known format whose body decodes to the url set [urls]
    answers with the empty text/plain response, and a GET of the same user
    for the same device right after, in any known format and with a title
    that can be built, answers with the formatted list of podcasts without
    repetition whose urls are exactly [urls]; the GET leaves the store as
    the upload left it. *)
Theorem upload_then_download request request' username username' device_uid
    format format' urls title st :
  referential_integrity st ->
  method request ∈ ["PUT"; "POST"] ->
  format ∈ ALLOWED_FORMATS ->
  parse_subscription (raw_post_data request) format = Ok urls ->
  method request' = "GET" ->
  user request' = user request ->
  format' ∈ ALLOWED_FORMATS ->
  subscription_list_title username' = Ok title ->
  ∃ st' ps,
    subscriptions request username device_uid format st
    = (Ok (Plain {| content := ""; mimetype := "text/plain" |}), st')
    ∧ subscriptions request' username' device_uid format' st'
      = (Ok (format_podcast_list ps format' title
               (fun x => x) (fun x => JScalar (JStr (url x)))), st')
    ∧ NoDup ps
    ∧ list_to_set (url <$> ps) = urls.
Proof.
  intros Hint Hm Hf Hparse Hm' Hu Hf' Htitle.
  destruct (set_subscriptions_read_back Device_deleted_default urls
              (user request) device_uid st Hint) as (st' & ps & Hset & Hget & Hnd & Hurls).
  exists st', ps. split; [|split; [|done]].
  - unfold subscriptions, check_format. rewrite decide_True by exact Hf.
    destruct (upload_method _ Hm) as [-> ->].
    rewrite run_bind. unfold lift. rewrite Hparse.
    rewrite run_bind, Hset. reflexivity.
  - unfold subscriptions, check_format. rewrite decide_True by exact Hf'.
    rewrite Hm'. cbn [String.eqb Ascii.eqb Bool.eqb andb].
    rewrite run_bind. unfold lift. rewrite Htitle.
    rewrite run_bind, Hu, Hget. reflexivity.
Qed.

(** X14. What the view [subscriptions] leaves alone. A format that is none
    of txt, opml and json is answered with 400 "Invalid format" whatever the
    method; in a known format, a method that is none of GET, PUT and POST is
    answered with 405; a GET never changes the store, whether it returns or
    raises; and a PUT or POST whose body cannot be decoded raises the
    decoder's exception before anything is written, not even the device
    row. *)
Theorem subscriptions_leaves_store request username device_uid format st :
  (format ∉ ALLOWED_FORMATS ->
   subscriptions request username device_uid format st
   = (Ok (HttpResponseBadRequest "Invalid format"), st))
  ∧ (format ∈ ALLOWED_FORMATS -> method request ∉ ["GET"; "PUT"; "POST"] ->
     subscriptions request username device_uid format st
     = (Ok (HttpResponseNotAllowed ["GET"; "PUT"; "POST"]), st))
  ∧ (method request = "GET" ->
     (subscriptions request username device_uid format st).2 = st)
  ∧ (∀ e, format ∈ ALLOWED_FORMATS -> method request ∈ ["PUT"; "POST"] ->
       parse_subscription (raw_post_data request) format = Raise e ->
       subscriptions request username device_uid format st = (Raise e, st)).
Proof.
  unfold subscriptions, check_format. split; [|split; [|split]].
  - intros Hf. by rewrite decide_False by exact Hf.
  - intros Hf Hm. rewrite decide_True by exact Hf.
    destruct (String.eqb (method request) "GET") eqn:Hget.
    { apply String.eqb_eq in Hget. exfalso. apply Hm. rewrite Hget. by left. }
    rewrite bool_decide_eq_false_2; [done|].
    intros Hin. apply Hm. by right.
  - intros Hm. case_decide; [|done]. rewrite Hm.
    cbn [String.eqb Ascii.eqb Bool.eqb andb]. rewrite run_bind. unfold lift.
    destruct (subscription_list_title username) as [title|e]; [|done].
    rewrite run_bind.
    pose proof (get_subscriptions_state (user request) device_uid st) as Hst.
    by destruct (get_subscriptions (user request) device_uid st) as [[ps|e] st'];
      simpl in *; subst.
  - intros e Hf Hm Hparse. rewrite decide_True by exact Hf.
    destruct (upload_method _ Hm) as [-> ->].
    rewrite run_bind. unfold lift. by rewrite Hparse.
Qed.

(** X15. Whatever the format and the body of a successful upload, the
    device is afterwards subscribed to no empty url, and to no url that is
    not a value of [sanitize_url]. *)
Theorem upload_subscribes_sanitized_urls request username device_uid format st r st' u :
  referential_integrity st ->
  method request ∈ ["PUT"; "POST"] ->
  subscriptions request username device_uid format st = (Ok (Plain r), st') ->
  u ∈ subscribed (user request, device_uid) (log st') ->
  u ≠ "" ∧ ∃ x, u = sanitize_url x.
Proof.
  intros Hint Hm. unfold subscriptions, check_format.
  case_decide as Hf; [|done].
  destruct (upload_method _ Hm) as [-> ->].
  rewrite run_bind. unfold lift.
  destruct (parse_subscription (raw_post_data request) format) as [urls|e] eqn:Hparse;
    [|done].
  rewrite run_bind.
  pose proof (set_subscriptions_subscribed Device_deleted_default urls
                (user request) device_uid st Hint) as Hsub.
  rewrite set_subscriptions_run in * by exact Hint.
  cbn [snd log] in Hsub.
  intros [= <- <-]. cbn [log]. rewrite Hsub.
  by apply parse_subscription_members with (raw_post_data request) format.
Qed.

Lemma json_slice pre inner post :
  occurs bracket_open pre = false ->
  occurs bracket_close pre = false ->
  occurs bracket_close inner = false ->
  let body := pre ++ "[" ++ inner ++ "]" ++ post in
  slice body (find body "[") (find body "]" + 1) = "[" ++ inner ++ "]".
Proof.
  intros Hopen Hclose Hinner body.
  set (mid := String bracket_open (inner ++ String bracket_close EmptyString)).
  change ("[" ++ inner ++ "]") with mid.
  assert (body = pre ++ mid ++ post) as Hbody.
  { subst body mid.
    rewrite (string_app_cons bracket_open (inner ++ String bracket_close EmptyString) post).
    rewrite string_app_assoc. reflexivity. }
  assert (find body "[" = Z.of_nat (String.length pre)) as ->.
  { unfold find.
    change body with (pre ++ String bracket_open (inner ++ "]" ++ post)).
    by rewrite (find_from_char bracket_open). }
  assert (find body "]" + 1
          = Z.of_nat (String.length pre + String.length mid))%Z as ->.
  { unfold find.
    assert (body = (pre ++ String bracket_open inner) ++ String bracket_close post)
      as ->.
    { subst body. rewrite string_app_assoc. reflexivity. }
    rewrite (find_from_char bracket_close).
    - subst mid. rewrite string_length_app.
      change (String.length (String bracket_open ?x)) with (S (String.length x)).
      cbn [String.length]. rewrite string_length_app. cbn [String.length]. lia.
    - rewrite occurs_app, Hclose. cbn [occurs orb].
      change (Ascii.eqb bracket_open bracket_close) with false. exact Hinner. }
  rewrite Hbody. apply slice_app.
Qed.

(** X16. A json upload is read from its first opening bracket to its first
    closing bracket: text before and after the array changes nothing,
    provided the text before it holds no bracket and the array holds no
    closing bracket of its own. The body [pre [inner] post] is decoded as
    the body [[inner]] is, to the same urls or the same exception. *)
Theorem json_upload_ignores_padding pre inner post :
  occurs bracket_open pre = false ->
  occurs bracket_close pre = false ->
  occurs bracket_close inner = false ->
  parse_subscription (pre ++ "[" ++ inner ++ "]" ++ post) "json"
  = parse_subscription ("[" ++ inner ++ "]") "json".
Proof.
  intros Hopen Hclose Hinner. unfold parse_subscription.
  cbn [String.eqb Ascii.eqb Bool.eqb andb].
  pose proof (json_slice pre inner post Hopen Hclose Hinner) as ->.
  pose proof (json_slice "" inner "" eq_refl eq_refl Hinner) as Hbare.
  change ("" ++ "[" ++ inner ++ "]" ++ "") with ("[" ++ inner ++ "]") in Hbare.
  by rewrite Hbare.
Qed.

End Formats.

(** *** At the sample store *)

Import Samples.

Lemma txt_export_import_witness :
  Forall (fun p => one_line (url p) ∧ sanitize_url (Externals := SimpleViews.sample_externals) (url p) = url p)
         ((fun x => x) <$> [ {| url := "http://a/feed" |}; {| url := "http://b/feed" |} ])
  ∧ ∃ body,
      format_podcast_list (H := SimpleViews.sample_externals)
        [ {| url := "http://a/feed" |}; {| url := "http://b/feed" |} ]
        "txt" "title" (fun x => x) (fun x => JScalar (JStr (url x)))
      = Plain {| content := body; mimetype := "text/plain" |}
      ∧ parse_subscription (H := SimpleViews.sample_externals) body "txt"
        = Ok (list_to_set (filter (fun u => u ≠ "")
                (url <$> ((fun x => x)
                   <$> [ {| url := "http://a/feed" |}; {| url := "http://b/feed" |} ])))).
Proof.
  assert (Hps : Forall (fun p => one_line (url p)
                          ∧ sanitize_url (Externals := SimpleViews.sample_externals) (url p) = url p)
                  ((fun x => x) <$> [ {| url := "http://a/feed" |};
                                      {| url := "http://b/feed" |} ])).
  { repeat constructor. }
  split; [exact Hps|].
  apply (txt_export_import (H := SimpleViews.sample_externals)); [exact Hps|reflexivity].
Defined.

Lemma upload_then_download_witness :
  referential_integrity sample_store
  ∧ ∃ st' ps,
      subscriptions (H := SimpleViews.sample_externals)
        {| method := "PUT"; user := "u"; raw_post_data := "B" ++ String newline "C" |}
        "u" "dev1" "txt" sample_store
      = (Ok (Plain {| content := ""; mimetype := "text/plain" |}), st')
      ∧ subscriptions (H := SimpleViews.sample_externals)
          {| method := "GET"; user := "u"; raw_post_data := "" |}
          "u" "dev1" "json" st'
        = (Ok (format_podcast_list (H := SimpleViews.sample_externals) ps "json" "u"
                 (fun x => x) (fun x => JScalar (JStr (url x)))), st')
      ∧ NoDup ps
      ∧ list_to_set (url <$> ps) = ({["B"; "C"]} : gset string).
Proof.
  assert (Hint : referential_integrity sample_store) by by_evaluation.
  split; [exact Hint|].
  apply (upload_then_download (H := SimpleViews.sample_externals)
           {| method := "PUT"; user := "u"; raw_post_data := "B" ++ String newline "C" |}
           {| method := "GET"; user := "u"; raw_post_data := "" |}
           "u" "u" "dev1" "txt" "json" {["B"; "C"]} "u" sample_store).
  - exact Hint.
  - by_evaluation.
  - by_evaluation.
  - by vm_compute.
  - reflexivity.
  - reflexivity.
  - by_evaluation.
  - reflexivity.
Defined.

Lemma upload_subscribes_sanitized_urls_witness :
  "B" ≠ "" ∧ ∃ x, "B" = sanitize_url (Externals := SimpleViews.sample_externals) x.
Proof.
  apply (upload_subscribes_sanitized_urls (H := SimpleViews.sample_externals)
           {| method := "POST"; user := "u"; raw_post_data := "B" ++ String newline "" |}
           "u" "dev1" "txt" sample_store
           {| content := ""; mimetype := "text/plain" |}
           (subscriptions (H := SimpleViews.sample_externals)
              {| method := "POST"; user := "u"; raw_post_data := "B" ++ String newline "" |}
              "u" "dev1" "txt" sample_store).2).
  - by_evaluation.
  - by_evaluation.
  - by vm_compute.
  - by_evaluation.
Defined.

Lemma json_upload_ignores_padding_witness :
  parse_subscription (H := SimpleViews.sample_externals)
    ("urls = " ++ "[" ++ "1, 2" ++ "]" ++ ";") "json"
  = parse_subscription (H := SimpleViews.sample_externals) ("[" ++ "1, 2" ++ "]") "json".
Proof.
  apply (json_upload_ignores_padding (H := SimpleViews.sample_externals)); reflexivity.
Defined.

End SimpleViewsFacts.

(** ** [mygpo/api/advanced/episode.py]: chapters *)

Module ChaptersFacts.

Import Chapters.

Lemma bind_run {S A B} (c : M S A) (k : A -> M S B) s :
  bind c k s = match c s with
               | (Returned a, s') => k a s'
               | (Raised e, s') => (Raised e, s')
               end.
Proof. reflexivity. Qed.

(** *** Invariants of a computation *)

Lemma keeps_ret {A} I (a : A) : keeps I (ret a).
Proof. by intros s Hs. Qed.

Lemma keeps_raise {A} I e : keeps I (raise (A := A) e).
Proof. by intros s Hs. Qed.

Lemma keeps_lift {A} I (r : Outcome A) : keeps I (lift r).
Proof. by intros s Hs. Qed.

Lemma keeps_bind {A B} I (c : M Store A) (k : A -> M Store B) :
  keeps I c -> (∀ a, keeps I (k a)) -> keeps I (bind c k).
Proof.
  intros Hc Hk s Hs. rewrite bind_run. specialize (Hc s Hs).
  destruct (c s) as [[a|e] s']; [by apply Hk|exact Hc].
Qed.

Lemma keeps_run {A} I (c : M Store A) s r s' :
  keeps I c -> c s = (r, s') -> I s -> I s'.
Proof. intros Hc Hrun Hs. specialize (Hc s Hs). by rewrite Hrun in Hc. Qed.

Lemma keeps_for_each {A} I (xs : list A) (body : A -> M Store unit) :
  (∀ x, keeps I (body x)) -> keeps I (for_each xs body).
Proof.
  intros Hbody. induction xs as [|x xs IH]; [apply keeps_ret|].
  apply keeps_bind; [apply Hbody|intros _; exact IH].
Qed.

Section Views.

Context `{Externals}.

Lemma keeps_time_parameter I member missing :
  keeps I (time_parameter member missing).
Proof. destruct member; [apply keeps_lift|apply keeps_raise]. Qed.

(** *** The steps of [update_chapters] *)

Lemma Podcast_objects_get_or_create_run u s :
  ∃ c s', Podcast_objects_get_or_create u s = (Returned (u, c), s')
          ∧ chapters s' = chapters s ∧ now s' = now s
          ∧ u ∈ podcasts s' ∧ episodes s' = episodes s.
Proof.
  unfold Podcast_objects_get_or_create. case_decide.
  - by eexists _, _.
  - eexists _, _. repeat split. cbn. by apply elem_of_union_l, elem_of_singleton.
Qed.

Lemma Episode_objects_get_or_create_run u p s :
  ∃ c s', Episode_objects_get_or_create u p s = (Returned ((p, u), c), s')
          ∧ chapters s' = chapters s ∧ now s' = now s
          ∧ podcasts s' = podcasts s ∧ (p, u) ∈ episodes s'.
Proof.
  unfold Episode_objects_get_or_create. case_decide.
  - by eexists _, _.
  - eexists _, _. repeat split. cbn. by apply elem_of_union_l, elem_of_singleton.
Qed.

Lemma Device_objects_get_or_create_run u i t n s :
  ∃ c s', Device_objects_get_or_create u i t n s = (Returned ((u, i), c), s')
          ∧ chapters s' = chapters s ∧ now s' = now s
          ∧ podcasts s' = podcasts s ∧ episodes s' = episodes s.
Proof.
  unfold Device_objects_get_or_create.
  destruct (devices s !! (u, i)); by eexists _, _.
Qed.

(** Up to the two loops, [update_chapters] writes to the other tables
    only, and cannot raise but in reading the timestamp. *)
Lemma update_chapters_run req u st p e :
  r_podcast req = Some p -> r_episode req = Some e ->
  ∃ s1, chapters s1 = chapters st ∧ (p ∈ podcasts s1 ∧ (p, e) ∈ episodes s1)
    ∧ update_chapters req u st
      = match timestamp_of req st with
        | Raised x => (Raised x, s1)
        | Returned ts =>
            (let+ _ := for_each (default [] (chapters_add req))
                         (add_chapter u (p, e) (device_of req u) ts) in
             for_each (default [] (chapters_remove req)) (remove_chapter u (p, e))) s1
        end.
Proof.
  intros Hp He. unfold update_chapters. rewrite Hp, He. cbn [item].
  rewrite bind_run. cbn [ret]. rewrite bind_run.
  destruct (Podcast_objects_get_or_create_run p st)
    as (c1 & s1 & -> & Hc1 & Hn1 & Hp1 & He1).
  rewrite bind_run. cbn [ret]. rewrite bind_run.
  destruct (Episode_objects_get_or_create_run e p s1)
    as (c2 & s2 & -> & Hc2 & Hn2 & Hp2 & He2).
  rewrite bind_run. unfold device_of, timestamp_of.
  destruct (r_device req) as [uid|].
  - rewrite bind_run.
    destruct (Device_objects_get_or_create_run u uid "other" new_device_name s2)
      as (c3 & s3 & -> & Hc3 & Hn3 & Hp3 & He3).
    cbn [ret]. exists s3. split; [congruence|].
    split; [by rewrite Hp3, He3, Hp2|].
    rewrite bind_run. destruct (r_timestamp req) as [t|].
    + unfold lift. by destruct (dateutil_parse t).
    + unfold gets. by replace (now s3) with (now st) by congruence.
  - cbn [ret]. exists s2. split; [congruence|].
    split; [by rewrite Hp2|].
    rewrite bind_run. destruct (r_timestamp req) as [t|].
    + unfold lift. by destruct (dateutil_parse t).
    + unfold gets. by replace (now s2) with (now st) by congruence.
Qed.

Lemma times_parameters c a b :
  times c = Some (a, b) ->
  ∃ vs vt, c_start c = Some vs ∧ parse_time vs = Returned a
           ∧ c_end c = Some vt ∧ parse_time vt = Returned b.
Proof.
  unfold times. destruct (c_start c) as [vs|]; [|done].
  destruct (c_end c) as [vt|]; [|done].
  destruct (parse_time vs) as [a'|] eqn:Ha; [|done].
  destruct (parse_time vt) as [b'|] eqn:Hb; [|done].
  intros [= <- <-]. by exists vs, vt.
Qed.

Lemma add_chapter_run u ep d ts c row s :
  device_accepted d -> new_row u ep d ts c = Some row ->
  add_chapter u ep d ts c s = (Returned tt, with_new_chapters s [row]).
Proof.
  intros Hd. unfold new_row.
  destruct (times c) as [[a b]|] eqn:Ht; [|done]. intros [= <-].
  destruct (times_parameters c a b Ht) as (vs & vt & Hs & Ha & He & Hb).
  unfold add_chapter. rewrite Hs, He. cbn [time_parameter].
  rewrite bind_run. unfold lift. rewrite Ha, bind_run, Hb.
  unfold Chapter_objects_create. cbn [device].
  destruct (bool_decide (d = None) && negb Chapter_device_null) eqn:Hno; [|done].
  apply andb_true_iff in Hno as [Hnone Hnull].
  apply bool_decide_eq_true in Hnone. rewrite (Hd Hnone) in Hnull. done.
Qed.

Lemma with_new_chapters_app s l1 l2 :
  with_new_chapters (with_new_chapters s l1) l2 = with_new_chapters s (l1 ++ l2).
Proof. unfold with_new_chapters. cbn. by rewrite app_assoc. Qed.

Lemma for_each_add_run u ep d ts good rows tail s :
  device_accepted d ->
  mapM (new_row u ep d ts) good = Some rows ->
  for_each (good ++ tail) (add_chapter u ep d ts) s
  = for_each tail (add_chapter u ep d ts) (with_new_chapters s rows).
Proof.
  intros Hd. revert rows s. induction good as [|c good IH]; intros rows s.
  - intros [= <-]. unfold with_new_chapters. rewrite app_nil_r. by destruct s.
  - rewrite mapM_Some. intros Hall.
    apply Forall2_cons_inv_l in Hall as (row & rows' & Hrow & Hrows & ->).
    apply mapM_Some in Hrows.
    cbn [app for_each]. rewrite bind_run.
    rewrite (add_chapter_run u ep d ts c row s Hd Hrow).
    rewrite (IH rows' _ Hrows). by rewrite with_new_chapters_app.
Qed.

(** *** What the loops keep *)

Lemma filter_filter_weaker {A} (P Q : A -> Prop) `{∀ x, Decision (P x)}
    `{∀ x, Decision (Q x)} (l : list A) :
  (∀ x, P x -> Q x) -> filter P (filter Q l) = filter P l.
Proof.
  intros HPQ. induction l as [|x l IH]; [done|].
  rewrite (filter_cons Q). destruct (decide (Q x)) as [Hq|Hq].
  - rewrite !filter_cons. destruct (decide (P x)); by rewrite IH.
  - rewrite IH, filter_cons.
    destruct (decide (P x)) as [Hp|Hp]; [|done]. by destruct Hq; apply HPQ.
Qed.

Lemma keeps_add_chapter_beside u ep d ts c L :
  keeps (fun s => chapters_beside u ep s = L) (add_chapter u ep d ts c).
Proof.
  unfold add_chapter.
  apply keeps_bind; [apply keeps_time_parameter|intros a].
  apply keeps_bind; [apply keeps_time_parameter|intros b].
  intros s Hs. unfold Chapter_objects_create.
  destruct (_ && _); [exact Hs|].
  unfold chapters_beside in *. cbn [snd chapters].
  rewrite filter_app, Hs, filter_cons_False, filter_nil, app_nil_r; [done|].
  cbn. intros Hne. by apply Hne.
Qed.

Lemma keeps_remove_chapter_beside u ep c L :
  keeps (fun s => chapters_beside u ep s = L) (remove_chapter u ep c).
Proof.
  unfold remove_chapter.
  apply keeps_bind; [apply keeps_time_parameter|intros a].
  apply keeps_bind; [apply keeps_time_parameter|intros b].
  intros s Hs. unfold Chapter_objects_filter_delete, modify, chapters_beside in *.
  cbn [snd chapters]. rewrite filter_filter_weaker; [exact Hs|].
  intros x Hx [Hu [He _]]. by apply Hx.
Qed.

Lemma keeps_remove_chapter_subset u ep c (L : list Chapter) :
  keeps (fun s => ∀ row, row ∈ chapters s -> row ∈ L) (remove_chapter u ep c).
Proof.
  unfold remove_chapter.
  apply keeps_bind; [apply keeps_time_parameter|intros a].
  apply keeps_bind; [apply keeps_time_parameter|intros b].
  intros s Hs row. unfold Chapter_objects_filter_delete, modify.
  cbn [snd chapters]. rewrite list_elem_of_filter. intros [_ Hrow]. by apply Hs.
Qed.

Lemma remove_chapter_returned u ep c s s' :
  remove_chapter u ep c s = (Returned tt, s') ->
  ∃ a b, times c = Some (a, b)
         ∧ chapters s' = filter (fun row => ¬ selected u ep a b row) (chapters s).
Proof.
  unfold remove_chapter, times.
  destruct (c_start c) as [vs|]; [|done]. cbn [time_parameter].
  rewrite bind_run. unfold lift.
  destruct (parse_time vs) as [a|]; [|done].
  destruct (c_end c) as [vt|]; [|done]. cbn [time_parameter].
  rewrite bind_run.
  destruct (parse_time vt) as [b|]; [|done].
  unfold Chapter_objects_filter_delete, modify. intros [= <-]. by exists a, b.
Qed.

Lemma for_each_remove_returned u ep l s s' c :
  for_each l (remove_chapter u ep) s = (Returned tt, s') ->
  c ∈ l ->
  ∃ a b, times c = Some (a, b)
         ∧ ∀ row, row ∈ chapters s' -> ¬ selected u ep a b row.
Proof.
  revert s. induction l as [|x l IH]; intros s Hrun Hc.
  { by apply elem_of_nil in Hc. }
  cbn [for_each] in Hrun. rewrite bind_run in Hrun.
  destruct (remove_chapter u ep x s) as [[[]|e] s1] eqn:Hx; [|done].
  apply elem_of_cons in Hc as [->|Hc]; [|by apply (IH s1)].
  destruct (remove_chapter_returned u ep x s s1 Hx) as (a & b & Ht & Hrows).
  exists a, b. split; [exact Ht|]. intros row Hrow.
  pose proof (keeps_run _ _ _ _ _
                (keeps_for_each _ l (remove_chapter u ep)
                   (fun y => keeps_remove_chapter_subset u ep y (chapters s1)))
                Hrun (fun _ Hin => Hin) row Hrow) as Hsub.
  rewrite Hrows in Hsub. by apply list_elem_of_filter in Hsub as [Hsel _].
Qed.

(** X17. [update_chapters] touches the chapters of its user for its
    episode only: whatever the request holds and whether the call returns
    or raises, the chapter rows of other users and of other episodes are
    afterwards the ones they were, in the same order. *)
Theorem update_chapters_frame req u st p e :
  r_podcast req = Some p -> r_episode req = Some e ->
  chapters_beside u (p, e) (update_chapters req u st).2 = chapters_beside u (p, e) st.
Proof.
  intros Hp He.
  destruct (update_chapters_run req u st p e Hp He) as (s1 & Hc1 & _ & ->).
  assert (chapters_beside u (p, e) s1 = chapters_beside u (p, e) st) as Hs1.
  { unfold chapters_beside. by rewrite Hc1. }
  destruct (timestamp_of req st) as [ts|x]; [|exact Hs1].
  revert s1 Hs1 Hc1. intros s1 Hs1 _.
  apply (keeps_bind (fun s => chapters_beside u (p, e) s = chapters_beside u (p, e) st));
    [| |exact Hs1].
  - apply keeps_for_each. intros c. apply keeps_add_chapter_beside.
  - intros _. apply keeps_for_each. intros c. apply keeps_remove_chapter_beside.
Qed.

(** X18. Removal wins. When [update_chapters] returns, every member of
    [chapters_remove] holds a start and an end that [parse_time] reads, and
    the user has no chapter left for the episode with that start and that
    end: neither one stored before, nor one that [chapters_add] of the same
    request created. *)
Theorem removed_chapters_are_gone req u st st' p e c :
  r_podcast req = Some p -> r_episode req = Some e ->
  update_chapters req u st = (Returned tt, st') ->
  c ∈ default [] (chapters_remove req) ->
  ∃ a b, times c = Some (a, b)
         ∧ ∀ row, row ∈ chapters st' -> ¬ selected u (p, e) a b row.
Proof.
  intros Hp He Hrun Hc.
  destruct (update_chapters_run req u st p e Hp He) as (s1 & _ & _ & Heq).
  rewrite Heq in Hrun. clear Heq.
  destruct (timestamp_of req st) as [ts|x]; [|done].
  rewrite bind_run in Hrun.
  destruct (for_each _ (add_chapter _ _ _ _) s1) as [[[]|x] s2]; [|done].
  by apply (for_each_remove_returned u (p, e) _ s2 st' c Hrun).
Qed.

(** X19. A request that is refused has been carried out in part. If the
    members [good] of [chapters_add] hold times that [parse_time] reads and
    the member after them holds no start, [update_chapters] raises
    ParameterMissing, and the chapter table then holds, after the rows it
    held, a new row for each member of [good]; the members after the
    incomplete one and [chapters_remove] have had no effect. *)
Theorem update_chapters_partial req u st p e ts good bad rest rows :
  r_podcast req = Some p -> r_episode req = Some e ->
  timestamp_of req st = Returned ts ->
  device_accepted (device_of req u) ->
  chapters_add req = Some (good ++ bad :: rest)%list ->
  mapM (new_row u (p, e) (device_of req u) ts) good = Some rows ->
  c_start bad = None ->
  (update_chapters req u st).1 = Raised (ParameterMissing "start parameter missing")
  ∧ chapters (update_chapters req u st).2 = (chapters st ++ rows)%list.
Proof.
  intros Hp He Hts Hd Hadd Hrows Hbad.
  destruct (update_chapters_run req u st p e Hp He) as (s1 & Hc1 & _ & ->).
  rewrite Hts, Hadd. cbn [default from_option id]. rewrite bind_run.
  rewrite (for_each_add_run u (p, e) _ ts good rows _ s1 Hd Hrows).
  assert (∀ s, add_chapter u (p, e) (device_of req u) ts bad s
               = (Raised (ParameterMissing "start parameter missing"), s)) as Hrun.
  { intros s. unfold add_chapter. by rewrite Hbad. }
  cbn [for_each]. rewrite bind_run, Hrun.
  cbn [fst snd with_new_chapters chapters]. by rewrite Hc1.
Qed.

(** X20. A POST to [chapters] is never answered with success: the view
    answers with 400, or it raises. *)
Theorem chapters_post_never_succeeds request username st :
  method request = "POST" ->
  (∃ content st',
     chapters_view request username st
     = (Returned (HttpResponseBadRequest content), st'))
  ∨ (∃ x st', chapters_view request username st = (Raised x, st')).
Proof.
  intros Hm. unfold chapters_view. rewrite Hm.
  cbn [String.eqb Ascii.eqb Bool.eqb andb]. rewrite bind_run. unfold lift.
  destruct (json_loads (raw_post_data request)) as [req|x]; [|by right; eauto].
  destruct (r_podcast req) as [podcast_url|]; [|by left; eauto].
  destruct (r_episode req) as [episode_url|]; [|by left; eauto].
  rewrite bind_run. case_decide.
  - destruct (update_chapters _ _ st) as [[[]|x] s1].
    + right. eauto.
    + destruct x; eauto.
  - right. eauto.
Qed.

(** X21. A POST that has been carried out in full is answered with an
    error. If the body decodes to a request with a podcast and an episode
    whose sanitized urls are not empty, and [update_chapters] returns for
    the request with the sanitized urls, the view raises NameError, and the
    store is left as [update_chapters] wrote it. *)
Theorem chapters_post_stores_then_raises request username req p e st st' :
  method request = "POST" ->
  json_loads (raw_post_data request) = Returned req ->
  r_podcast req = Some p -> r_episode req = Some e ->
  sanitize_url p ≠ "" -> sanitize_episode_url e ≠ "" ->
  update_chapters (sanitized req) (request_user request) st = (Returned tt, st') ->
  chapters_view request username st = (Raised (NameError "update_url"), st').
Proof.
  intros Hm Hreq Hp He Hsp Hse Hrun. unfold chapters_view. rewrite Hm.
  cbn [String.eqb Ascii.eqb Bool.eqb andb]. rewrite bind_run. unfold lift.
  rewrite Hreq, Hp, He. rewrite bind_run.
  rewrite decide_True by done.
  match goal with |- context [update_chapters ?r _ _] =>
    assert (r = sanitized req) as ->
  end.
  { unfold sanitized. rewrite Hp, He. cbn [fmap option_fmap option_map].
    destruct req as [rp re rd rt ra rr]. cbn in *. subst rp re.
    repeat case_decide; cbn; congruence. }
  by rewrite Hrun.
Qed.

(** *** What a GET lists *)

Lemma insert_by_start_perm c l : insert_by_start c l ≡ₚ c :: l.
Proof.
  induction l as [|d l IH]; [done|]. cbn [insert_by_start].
  destruct (start c <=? start d)%Z; [done|].
  rewrite IH. apply Permutation_swap.
Qed.

Lemma order_by_start_perm l : order_by_start l ≡ₚ l.
Proof.
  induction l as [|c l IH]; [done|]. unfold order_by_start in *. cbn [foldr].
  by rewrite insert_by_start_perm, IH.
Qed.

Lemma insert_by_start_ascending c l :
  ascending (start <$> l) -> ascending (start <$> insert_by_start c l).
Proof.
  induction l as [|d l IH]; [done|]. cbn [insert_by_start].
  destruct (Z.leb_spec (start c) (start d)) as [Hle|Hlt].
  - intros Hl. cbn [fmap list_fmap ascending] in *. split; [|exact Hl].
    destruct Hl as [Hd _]. constructor; [exact Hle|].
    eapply Forall_impl; [exact Hd|]. intros y Hy. cbn in Hy. lia.
  - cbn [fmap list_fmap ascending]. intros [Hd Hl]. split; [|by apply IH].
    apply Forall_forall. intros y Hy.
    apply list_elem_of_fmap in Hy as (x & -> & Hx).
    rewrite insert_by_start_perm in Hx.
    apply elem_of_cons in Hx as [->|Hx]; [lia|].
    rewrite Forall_forall in Hd. apply Hd. by apply list_elem_of_fmap_2.
Qed.

Lemma order_by_start_ascending l : ascending (start <$> order_by_start l).
Proof.
  induction l as [|c l IH]; [done|]. unfold order_by_start in *. cbn [foldr].
  by apply insert_by_start_ascending.
Qed.

Lemma chapter_views_rows l vs :
  chapter_views l = Returned vs ->
  Forall2 (fun row v => chapter_view row = Returned v) l vs.
Proof.
  revert vs. induction l as [|c l IH]; intros vs; cbn [chapter_views].
  - intros [= <-]. constructor.
  - destruct (chapter_view c) as [v|] eqn:Hv; [|done].
    destruct (chapter_views l) as [vs'|]; [|done].
    intros [= <-]. constructor; [exact Hv|by apply IH].
Qed.

Lemma chapter_view_start row v : chapter_view row = Returned v -> v_start v = start row.
Proof.
  unfold chapter_view. destruct (device row) as [[? uid]|]; [|done].
  by intros [= <-].
Qed.

Lemma chapter_views_starts l vs :
  Forall2 (fun row v => chapter_view row = Returned v) l vs ->
  v_start <$> vs = start <$> l.
Proof.
  induction 1 as [|row v l vs Hv _ IH]; [done|].
  cbn [fmap list_fmap] in *. f_equal; [by apply chapter_view_start|exact IH].
Qed.

Lemma chapter_views_total l :
  Forall (fun row => device row ≠ None) l ->
  ∃ vs, chapter_views l = Returned vs.
Proof.
  induction 1 as [|row l Hrow _ [vs IH]]; [by exists []|].
  cbn [chapter_views]. unfold chapter_view.
  destruct (device row) as [[? uid]|]; [|done]. rewrite IH. eauto.
Qed.

(** A GET with both parameters, run to its end. *)
Lemma chapters_get_run request username st p e :
  method request = "GET" ->
  GET request !! "podcast" = Some p -> GET request !! "episode" = Some e ->
  chapters_view request username st
  = (if decide (sanitize_url p ∈ podcasts st) then
       if decide ((sanitize_url p, sanitize_episode_url e) ∈ episodes st) then
         match chapter_views
                 (order_by_start
                    (chapters_of (request_user request)
                       (sanitize_url p, sanitize_episode_url e) st)) with
         | Returned vs => Returned (JsonResponse vs)
         | Raised x => Raised x
         end
       else Raised DoesNotExist
     else Raised DoesNotExist, st).
Proof.
  intros Hm Hp He. unfold chapters_view. rewrite Hm, Hp, He.
  cbn [String.eqb Ascii.eqb Bool.eqb andb]. rewrite bind_run.
  unfold Podcast_objects_get. case_decide; [|done].
  rewrite bind_run. unfold Episode_objects_get. case_decide; [|done].
  rewrite bind_run. unfold gets. rewrite bind_run. unfold lift, chapters_of.
  by destruct (chapter_views _).
Qed.

(** X22. A GET to [chapters] reads only, and lists the user's own
    chapters of the episode in the order of their starts. The store is
    left as it was whether the view returns or raises; the list of a
    successful answer holds, for a rearrangement of the rows that the table
    holds for the requesting user and the episode of the sanitized urls, the
    entry of each row, and no start in it is followed by a smaller one. *)
Theorem chapters_get_lists_own_chapters request username st :
  method request = "GET" ->
  (chapters_view request username st).2 = st
  ∧ ∀ vs, (chapters_view request username st).1 = Returned (JsonResponse vs) ->
      ∃ p e rows,
        GET request !! "podcast" = Some p ∧ GET request !! "episode" = Some e
        ∧ rows ≡ₚ chapters_of (request_user request)
                    (sanitize_url p, sanitize_episode_url e) st
        ∧ Forall2 (fun row v => chapter_view row = Returned v) rows vs
        ∧ ascending (v_start <$> vs).
Proof.
  intros Hm.
  destruct (GET request !! "podcast") as [p|] eqn:Hp.
  2:{ unfold chapters_view. rewrite Hm, Hp. by split. }
  destruct (GET request !! "episode") as [e|] eqn:He.
  2:{ unfold chapters_view. rewrite Hm, Hp, He. by split. }
  rewrite (chapters_get_run request username st p e Hm Hp He).
  split; [done|]. intros vs. cbn [fst].
  case_decide; [|done]. case_decide; [|done].
  destruct (chapter_views _) as [vs'|] eqn:Hvs; [|done].
  intros [= ->]. apply chapter_views_rows in Hvs.
  eexists p, e, _. split; [done|]. split; [done|].
  split; [apply order_by_start_perm|]. split; [exact Hvs|].
  rewrite (chapter_views_starts _ _ Hvs). apply order_by_start_ascending.
Qed.

(** *** From an upload to the list *)

Lemma add_chapter_returned u ep d ts c s s' :
  add_chapter u ep d ts c s = (Returned tt, s') ->
  ∃ row, new_row u ep d ts c = Some row ∧ s' = with_new_chapters s [row].
Proof.
  unfold add_chapter, new_row, times.
  destruct (c_start c) as [vs|]; [|done]. cbn [time_parameter].
  rewrite bind_run. unfold lift.
  destruct (parse_time vs) as [a|]; [|done].
  destruct (c_end c) as [vt|]; [|done]. cbn [time_parameter].
  rewrite bind_run.
  destruct (parse_time vt) as [b|]; [|done].
  unfold lift, Chapter_objects_create.
  match goal with |- context [if ?t then _ else _] => destruct t end; [done|].
  intros [= <-]. by eexists.
Qed.

(** A property of the other tables is kept by the two loops. *)
Lemma keeps_add_chapter_tables (P : gset string -> gset EpisodeKey -> Prop) u ep d ts c :
  keeps (fun s => P (podcasts s) (episodes s)) (add_chapter u ep d ts c).
Proof.
  unfold add_chapter.
  apply keeps_bind; [apply keeps_time_parameter|intros a].
  apply keeps_bind; [apply keeps_time_parameter|intros b].
  intros s Hs. unfold Chapter_objects_create. by destruct (_ && _).
Qed.

Lemma keeps_remove_chapter_tables (P : gset string -> gset EpisodeKey -> Prop) u ep c :
  keeps (fun s => P (podcasts s) (episodes s)) (remove_chapter u ep c).
Proof.
  unfold remove_chapter.
  apply keeps_bind; [apply keeps_time_parameter|intros a].
  apply keeps_bind; [apply keeps_time_parameter|intros b].
  by intros s Hs.
Qed.

(** The first loop adds rows, and takes none away. *)
Lemma keeps_add_chapter_row u ep d ts c row :
  keeps (fun s => row ∈ chapters s) (add_chapter u ep d ts c).
Proof.
  unfold add_chapter.
  apply keeps_bind; [apply keeps_time_parameter|intros a].
  apply keeps_bind; [apply keeps_time_parameter|intros b].
  intros s Hs. unfold Chapter_objects_create. destruct (_ && _); [exact Hs|].
  cbn [snd chapters]. apply elem_of_app. by left.
Qed.

Lemma for_each_add_returned u ep d ts l s s' c :
  for_each l (add_chapter u ep d ts) s = (Returned tt, s') ->
  c ∈ l ->
  ∃ row, new_row u ep d ts c = Some row ∧ row ∈ chapters s'.
Proof.
  revert s. induction l as [|x l IH]; intros s Hrun Hc.
  { by apply elem_of_nil in Hc. }
  cbn [for_each] in Hrun. rewrite bind_run in Hrun.
  destruct (add_chapter u ep d ts x s) as [[[]|x0] s1] eqn:Hx; [|done].
  apply elem_of_cons in Hc as [->|Hc]; [|by apply (IH s1)].
  destruct (add_chapter_returned u ep d ts x s s1 Hx) as (row & Hrow & ->).
  exists row. split; [exact Hrow|].
  apply (keeps_run _ _ _ _ _
           (keeps_for_each _ l (add_chapter u ep d ts)
              (fun y => keeps_add_chapter_row u ep d ts y row)) Hrun).
  cbn [with_new_chapters chapters]. apply elem_of_app. right. by left.
Qed.

(** The second loop takes away no row but the selected ones. *)
Lemma for_each_remove_spares u ep l s s' row :
  for_each l (remove_chapter u ep) s = (Returned tt, s') ->
  row ∈ chapters s ->
  (∀ r a b, r ∈ l -> times r = Some (a, b) -> ¬ selected u ep a b row) ->
  row ∈ chapters s'.
Proof.
  revert s. induction l as [|x l IH]; intros s Hrun Hrow Hspared.
  { cbn in Hrun. unfold ret in Hrun. by simplify_eq. }
  cbn [for_each] in Hrun. rewrite bind_run in Hrun.
  destruct (remove_chapter u ep x s) as [[[]|x0] s1] eqn:Hx; [|done].
  destruct (remove_chapter_returned u ep x s s1 Hx) as (a & b & Ht & Hrows).
  apply (IH s1 Hrun).
  - rewrite Hrows. apply list_elem_of_filter. split; [|exact Hrow].
    apply (Hspared x a b); [by left|exact Ht].
  - intros r a' b' Hr. apply Hspared. by right.
Qed.

(** Rows without a device: the loops make none for a request that names
    its device. *)
Lemma keeps_add_chapter_devices u ep k ts c (P : Chapter -> Prop) :
  keeps (fun s => ∀ row, row ∈ chapters s -> P row -> device row ≠ None)
        (add_chapter u ep (Some k) ts c).
Proof.
  unfold add_chapter.
  apply keeps_bind; [apply keeps_time_parameter|intros a].
  apply keeps_bind; [apply keeps_time_parameter|intros b].
  intros s Hs. unfold Chapter_objects_create. destruct (_ && _); [exact Hs|].
  cbn [snd chapters]. intros row Hrow.
  apply elem_of_app in Hrow as [Hrow|Hrow]; [by apply Hs|].
  apply list_elem_of_singleton in Hrow as ->. done.
Qed.

Lemma keeps_remove_chapter_devices u ep c (P : Chapter -> Prop) :
  keeps (fun s => ∀ row, row ∈ chapters s -> P row -> device row ≠ None)
        (remove_chapter u ep c).
Proof.
  unfold remove_chapter.
  apply keeps_bind; [apply keeps_time_parameter|intros a].
  apply keeps_bind; [apply keeps_time_parameter|intros b].
  intros s Hs row. unfold Chapter_objects_filter_delete, modify.
  cbn [snd chapters]. rewrite list_elem_of_filter. intros [_ Hrow]. by apply Hs.
Qed.

Lemma Forall2_elem_of_l {A B} (R : A -> B -> Prop) l k x :
  Forall2 R l k -> x ∈ l -> ∃ y, y ∈ k ∧ R x y.
Proof.
  induction 1 as [|a b l k Hab _ IH]; intros Hx.
  { by apply elem_of_nil in Hx. }
  apply elem_of_cons in Hx as [->|Hx].
  - exists b. split; [by left|exact Hab].
  - destruct (IH Hx) as (y & Hy & HR). exists y. split; [by right|exact HR].
Qed.

(** X23. What is added is what is listed. When [update_chapters] returns
    for a request that names its device, a member of [chapters_add] whose
    times no member of [chapters_remove] repeats is listed by a GET of the
    same user for the same sanitized urls right after: the view answers
    with a list that holds an entry with the member's start, end and label
    and the uid of the device, provided the chapters that the user had for
    the episode before all have a device. *)
Theorem added_chapter_is_listed req u st st' uid c request username p e :
  r_podcast req = Some (sanitize_url p) ->
  r_episode req = Some (sanitize_episode_url e) ->
  r_device req = Some uid ->
  update_chapters req u st = (Returned tt, st') ->
  c ∈ default [] (chapters_add req) ->
  (∀ r, r ∈ default [] (chapters_remove req) -> times r ≠ times c) ->
  Forall (fun row => device row ≠ None)
         (chapters_of u (sanitize_url p, sanitize_episode_url e) st) ->
  method request = "GET" -> request_user request = u ->
  GET request !! "podcast" = Some p -> GET request !! "episode" = Some e ->
  ∃ a b vs v,
    times c = Some (a, b)
    ∧ chapters_view request username st' = (Returned (JsonResponse vs), st')
    ∧ v ∈ vs
    ∧ v_start v = a ∧ v_end v = b ∧ v_label v = default "" (c_label c)
    ∧ v_device v = uid.
Proof.
  intros Hp He Hdev Hrun Hc Hkept Hold Hm Hu Hgp Hge.
  set (ep := (sanitize_url p, sanitize_episode_url e)) in *.
  destruct (update_chapters_run req u st _ _ Hp He) as (s1 & Hc1 & Htab & Heq).
  rewrite Heq in Hrun. clear Heq.
  destruct (timestamp_of req st) as [ts|x]; [|done].
  rewrite bind_run in Hrun. unfold device_of in Hrun. rewrite Hdev in Hrun.
  destruct (for_each _ (add_chapter _ _ _ _) s1) as [[[]|x] s2] eqn:Hadd; [|done].
  fold ep in Hadd, Hrun.
  (* the row of the member *)
  destruct (for_each_add_returned u ep _ ts _ s1 s2 c Hadd Hc) as (row & Hrow & Hin2).
  unfold new_row in Hrow. destruct (times c) as [[a b]|] eqn:Ht; [|done].
  injection Hrow as <-.
  match type of Hin2 with ?r ∈ _ => set (row := r) in * end.
  assert (row ∈ chapters st') as Hin.
  { apply (for_each_remove_spares u ep _ s2 st' row Hrun Hin2).
    intros r a' b' Hr Hrt (_ & _ & Ha & Hb). cbn in Ha, Hb. subst a' b'.
    by apply (Hkept r Hr). }
  (* the tables and the devices after the two loops *)
  assert (sanitize_url p ∈ podcasts st' ∧ ep ∈ episodes st') as [Hpod Hepi].
  { set (I := fun s => sanitize_url p ∈ podcasts s ∧ ep ∈ episodes s).
    apply (keeps_run I _ _ _ _
             (keeps_for_each I _ _ (fun y =>
                keeps_remove_chapter_tables
                  (fun ps es => sanitize_url p ∈ ps ∧ ep ∈ es) u ep y)) Hrun).
    apply (keeps_run I _ _ _ _
             (keeps_for_each I _ _ (fun y =>
                keeps_add_chapter_tables
                  (fun ps es => sanitize_url p ∈ ps ∧ ep ∈ es)
                  u ep (Some (u, uid)) ts y)) Hadd).
    exact Htab. }
  assert (∀ r, r ∈ chapters st' -> user r = u ∧ episode r = ep -> device r ≠ None)
    as Hdevs.
  { assert (∀ r, r ∈ chapters s1 -> user r = u ∧ episode r = ep -> device r ≠ None)
      as H1.
    { intros r Hr Hmine. rewrite Hc1 in Hr. rewrite Forall_forall in Hold.
      apply Hold. unfold chapters_of. by apply list_elem_of_filter. }
    set (I := fun s => ∀ r, r ∈ chapters s -> user r = u ∧ episode r = ep ->
                            device r ≠ None).
    apply (keeps_run I _ _ _ _
             (keeps_for_each I _ _ (fun y =>
                keeps_remove_chapter_devices u ep y
                  (fun r => user r = u ∧ episode r = ep))) Hrun).
    apply (keeps_run I _ _ _ _
             (keeps_for_each I _ _ (fun y =>
                keeps_add_chapter_devices u ep (u, uid) ts y
                  (fun r => user r = u ∧ episode r = ep))) Hadd).
    exact H1. }
  (* the GET *)
  rewrite (chapters_get_run request username st' p e Hm Hgp Hge).
  fold ep. rewrite Hu, !decide_True by done.
  destruct (chapter_views_total (order_by_start (chapters_of u ep st'))) as [vs Hvs].
  { rewrite order_by_start_perm. apply Forall_forall. intros r Hr.
    unfold chapters_of in Hr. apply list_elem_of_filter in Hr as [Hmine Hr].
    by apply Hdevs. }
  rewrite Hvs. apply chapter_views_rows in Hvs.
  destruct (Forall2_elem_of_l _ _ _ row Hvs) as (v & Hv & Hview).
  { rewrite order_by_start_perm. unfold chapters_of.
    apply list_elem_of_filter. by split. }
  exists a, b, vs, v. split; [done|]. split; [done|]. split; [exact Hv|].
  unfold chapter_view in Hview. subst row. cbn in Hview.
  by injection Hview as <-.
Qed.

End Views.

(** *** At the sample store *)

Lemma update_chapters_frame_witness :
  chapters_beside "u" ("P", "E")
    (update_chapters (H := sample_externals) sample_req "u" sample_store).2
  = chapters_beside "u" ("P", "E") sample_store.
Proof. apply (update_chapters_frame (H := sample_externals)); reflexivity. Defined.

Lemma removed_chapters_are_gone_witness :
  ∃ a b, times (H := sample_externals) (sample_member (Some "10") (Some "20") None)
         = Some (a, b)
         ∧ ∀ row,
             row ∈ chapters
                     (update_chapters (H := sample_externals) sample_req "u" sample_store).2 ->
             ¬ selected "u" ("P", "E") a b row.
Proof.
  apply (removed_chapters_are_gone (H := sample_externals) sample_req "u" sample_store).
  - reflexivity.
  - reflexivity.
  - by vm_compute.
  - by_evaluation.
Defined.

Lemma update_chapters_partial_witness :
  (update_chapters (H := sample_externals) incomplete_req "u" sample_store).1
  = Raised (ParameterMissing "start parameter missing")
  ∧ chapters (update_chapters (H := sample_externals) incomplete_req "u" sample_store).2
    = (chapters sample_store
       ++ [ {| user := "u"; episode := ("P", "E"); device := Some ("u", "dev1");
               created := 7; start := 10; end_ := 20; label := "intro";
               advertisement := false |} ])%list.
Proof.
  apply (update_chapters_partial (H := sample_externals) incomplete_req "u" sample_store
           "P" "E" 7
           [sample_member (Some "10") (Some "20") (Some "intro")]
           (sample_member None (Some "30") None) []).
  - reflexivity.
  - reflexivity.
  - reflexivity.
  - intros [=].
  - reflexivity.
  - reflexivity.
  - reflexivity.
Defined.

Lemma chapters_post_never_succeeds_witness :
  (∃ content st',
     chapters_view (H := sample_externals) (sample_post "incomplete") "u" sample_store
     = (Returned (HttpResponseBadRequest content), st'))
  ∨ (∃ x st',
       chapters_view (H := sample_externals) (sample_post "incomplete") "u" sample_store
       = (Raised x, st')).
Proof. apply (chapters_post_never_succeeds (H := sample_externals)). reflexivity. Defined.

Lemma chapters_post_stores_then_raises_witness :
  chapters_view (H := sample_externals) (sample_post "sample") "u" sample_store
  = (Raised (NameError "update_url"),
     (update_chapters (H := sample_externals) sample_req "u" sample_store).2)
  ∧ chapters (update_chapters (H := sample_externals) sample_req "u" sample_store).2
    ≠ chapters sample_store.
Proof.
  split; [|by vm_compute].
  apply (chapters_post_stores_then_raises (H := sample_externals)
           (sample_post "sample") "u" sample_req "P" "E").
  - reflexivity.
  - reflexivity.
  - reflexivity.
  - reflexivity.
  - discriminate.
  - discriminate.
  - by vm_compute.
Defined.

Lemma chapters_get_lists_own_chapters_witness :
  (chapters_view (H := sample_externals) sample_get "u" sample_store).2 = sample_store
  ∧ ∀ vs,
      (chapters_view (H := sample_externals) sample_get "u" sample_store).1
      = Returned (JsonResponse vs) ->
      ∃ p e rows,
        GET sample_get !! "podcast" = Some p ∧ GET sample_get !! "episode" = Some e
        ∧ rows ≡ₚ chapters_of "u" (p, e) sample_store
        ∧ Forall2 (fun row v => chapter_view row = Returned v) rows vs
        ∧ ascending (v_start <$> vs).
Proof.
  apply (chapters_get_lists_own_chapters (H := sample_externals) sample_get "u"
           sample_store).
  reflexivity.
Defined.

Lemma added_chapter_is_listed_witness :
  ∃ a b vs v,
    times (H := sample_externals) (sample_member (Some "30") (Some "40") (Some "talk"))
    = Some (a, b)
    ∧ chapters_view (H := sample_externals) sample_get "u"
        (update_chapters (H := sample_externals) sample_req "u" sample_store).2
      = (Returned (JsonResponse vs),
         (update_chapters (H := sample_externals) sample_req "u" sample_store).2)
    ∧ v ∈ vs
    ∧ v_start v = a ∧ v_end v = b ∧ v_label v = default "" (Some "talk")
    ∧ v_device v = "dev1".
Proof.
  apply (added_chapter_is_listed (H := sample_externals) sample_req "u" sample_store
           _ "dev1" (sample_member (Some "30") (Some "40") (Some "talk"))
           sample_get "u" "P" "E").
  - reflexivity.
  - reflexivity.
  - reflexivity.
  - by vm_compute.
  - by_evaluation.
  - intros r Hr. apply list_elem_of_singleton in Hr as ->. discriminate.
  - by_evaluation.
  - reflexivity.
  - reflexivity.
  - reflexivity.
  - reflexivity.
Defined.

End ChaptersFacts.
